(** * Frame recovery from a live stream: a model of [video_capture.py]

    The development embeds the streaming frame-recovery pipeline of
    [src/video_capture.py] (class [KVSStreamConsumer]) and states the
    properties of its specification over that embedding.

    - Byte buffers are [list byte]; positions, counters and lengths are [Z],
      as Python integers are, so that [len(buffer) - 1000] may be negative
      and [bytes.find] may answer [-1].
    - The collaborators of the pipeline are oracles gathered in [env]: the
      wall clock and the multimedia decoder ([cv2.VideoCapture], [cap.read],
      [cv2.imwrite], [cv2.imread]).  Every call of the decoder may answer a
      failure value or raise; each oracle also receives the number of
      oracle calls made so far, so that two calls with the same arguments
      may answer differently.  The stream handle is the list of the answers
      of its successive [read] calls, each a chunk or an exception.
    - The session directory is a reliable store: writing a file, testing
      that it exists and removing it succeed.  It is an association list
      from structured paths to contents, newest file first.
    - State is passed explicitly.  A [world] is the session directory, the
      count of oracle calls and the trace of log lines and decoder calls
      (newest first).  An exception is a value: the body of a [try] answers
      a [signal], and the local variables that survive the exception (Python
      keeps [extracted_count] when a [try] body raises) are returned next to
      it.  Each [except] and [finally] is written where the source has it.
      With a reliable directory nothing raises outside the inner [try]
      blocks, so the outermost [try ... except Exception: return 0] of the
      three scanners has no case of its own.  [KeyboardInterrupt], which can
      arrive at any point, is left out.
    - The clock counts milliseconds as an integer where the source has
      floating-point seconds; the timeout of 60 seconds is 60000.
    - The two scanning loops whose position moves forward by a computed
      amount take fuel; their length-of-buffer fuel is shown to be enough
      ([jpeg_loop_total], [raw_loop_total]).  The other loops are structural:
      on the answers of the capture, on the candidate extensions, on the
      answers of the stream. *)

From Stdlib Require Import String.
From Stdlib Require Import Strings.Byte.
From Stdlib Require Import ZArith List Bool Lia.
Import ListNotations.
Open Scope Z_scope.

(** * The program *)

(** ** Byte strings *)

Definition bytes := list byte.

(** [len(b)] *)
Definition blen (b : bytes) : Z := Z.of_nat (length b).

(** [b.startswith(sig)] *)
Fixpoint starts_with (sig b : bytes) : bool :=
  match sig, b with
  | [], _ => true
  | _ :: _, [] => false
  | s :: sig', x :: b' => Byte.eqb s x && starts_with sig' b'
  end.

(** Lowest index [>= i] of an occurrence of [sig] in a buffer whose
    remaining part is [b] and whose consumed part has [i] bytes. *)
Fixpoint find_at (sig b : bytes) (i : Z) : Z :=
  match b with
  | [] => match sig with [] => i | _ :: _ => -1 end
  | _ :: b' => if starts_with sig b then i else find_at sig b' (i + 1)
  end.

(** [b.find(sig, start)] for [0 <= start]: the lowest index at or after
    [start] where [sig] occurs, [-1] when there is none. *)
Definition bytes_find (sig b : bytes) (start : Z) : Z :=
  if blen b <? start then -1
  else find_at sig (skipn (Z.to_nat start) b) start.

(** [b[lo:hi]] for [0 <= lo] and [0 <= hi] *)
Definition slice (b : bytes) (lo hi : Z) : bytes :=
  firstn (Z.to_nat (hi - lo)) (skipn (Z.to_nat lo) b).

(** [b[-n:]] for [0 < n]: the last [n] bytes, the whole of [b] when it is
    shorter. *)
Definition last_bytes (n : Z) (b : bytes) : bytes :=
  skipn (Z.to_nat (blen b - n)) b.

(** ** Session directory, decoder and world *)

(** Container extensions of scratch files. *)
Inductive format := webm | mkv | mp4.

(** [frame_type] of the raw scanner: ['h264'] or ['vp']. *)
Inductive frame_type := h264 | vp.

(** Files of the session directory, by the pattern of their name:
    - [TempStream o f] is [temp_stream_{o}.{f}],
    - [TempRaw i f] is [temp_raw_{i}.{f}],
    - [FrameJpg i t] is [frame_{i:04d}_{t}.jpg],
    - [SummaryJson] is [live_consumption_summary.json],
    - [Other n] is a file of another name, which the consumer never names
      (such as [session_info.json], written when the directory is set up). *)
Inductive path :=
| TempStream (frame_offset : Z) (fmt : format)
| TempRaw (frame_index : Z) (ext : format)
| FrameJpg (index : Z) (timestamp : Z)
| SummaryJson
| Other (name : string).

(** A decoded image (the pixel array the decoder hands out). *)
Definition image := list Z.

(** JSON values of the summary record: a number, a string, or the
    [stream_config] dictionary (its values are numbers). *)
Inductive json :=
| JNum (z : Z)
| JStr (s : string)
| JDict (fields : list (string * Z)).

Inductive content :=
| Raw (data : bytes)            (* written by [f.write] *)
| Encoded (img : image)         (* written by [cv2.imwrite] *)
| Json (doc : list (string * json)).   (* written by [json.dump] *)

Definition format_eqb (a b : format) : bool :=
  match a, b with
  | webm, webm | mkv, mkv | mp4, mp4 => true
  | _, _ => false
  end.

Definition path_eqb (p q : path) : bool :=
  match p, q with
  | TempStream o f, TempStream o' f' => (o =? o') && format_eqb f f'
  | TempRaw i f, TempRaw i' f' => (i =? i') && format_eqb f f'
  | FrameJpg i t, FrameJpg i' t' => (i =? i') && (t =? t')
  | SummaryJson, SummaryJson => true
  | Other n, Other n' => String.eqb n n'
  | _, _ => false
  end.

(** What the code logs and which decoder it calls, in the order it does. *)
Inductive event :=
| LogTryFormat (fmt : format)                    (* "Trying format ..." *)
| CallVideoCapture (p : path)                    (* cv2.VideoCapture(p) *)
| CallRead                                       (* cap.read() *)
| LogOpened (fmt : format)                       (* "Successfully opened video file as ..." *)
| LogNotOpened (fmt : format)                    (* "Could not open video file as ..." *)
| LogFormatError (fmt : format)                  (* "Error processing ... format" *)
| LogSavedFrame (index timestamp : Z)            (* "Saved frame: frame_..." *)
| LogSaveFailed (index timestamp : Z)            (* "Failed to save frame ..." *)
| LogJpegScan                                    (* "Looking for embedded JPEG frames" *)
| LogSavedJpeg (index timestamp : Z)             (* "Saved embedded JPEG: frame_..." *)
| LogInvalidJpeg                                 (* "Invalid JPEG removed" *)
| LogJpegError                                   (* "Error saving JPEG" *)
| LogRawScan                                     (* "Looking for raw video frame data" *)
| LogRawCandidate (ft : frame_type) (pos : Z)    (* "Found ... frame candidate at pos ..." *)
| LogSavedRaw (ft : frame_type) (index timestamp : Z) (* "Saved raw ... frame: frame_..." *)
| LogRawError (ft : frame_type)                  (* "Error decoding raw ... frame" *)
| LogTimeout                                     (* "Timeout reached after ..." *)
| LogStreamEnded                                 (* "Stream ended - no more data available" *)
| LogChunkError                                  (* "Error reading/processing chunk" *)
| LogFinalAttempt                                (* "Final frame extraction attempt ..." *)
| LogClosed                                      (* "Stream payload closed successfully" *)
| LogSummarySaved.                               (* "Summary saved: ..." *)

Record world := World {
  fs : list (path * content);
  ticks : nat;
  trace : list event
}.

(** One answer of [cap.read()]: [(True, frame)], [(False, None)], or an
    exception. *)
Inductive read_outcome := RFrame (f : image) | RNone | RRaise.

(** [cv2.VideoCapture(p)]: an exception, or a capture that reports whether
    it is opened and that answers the successive [read] calls; past the
    last answer [read] gives [(False, None)]. *)
Inductive capture := CapRaise | Cap (opened : bool) (reads : list read_outcome).

(** [cv2.imwrite(p, frame)]: [True], [False] or an exception. *)
Inductive imwrite_outcome := IwTrue | IwFalse | IwRaise.

(** [cv2.imread(p)]: an image, [None] or an exception. *)
Inductive imread_outcome := ImgSome (img : image) | ImgNone | ImgRaise.

(** The collaborators.  The first argument of each oracle is the number of
    oracle calls made before this one.  [clock] is the wall clock in
    milliseconds, read by [time.time()] and [datetime.now()]. *)
Record env := Env {
  clock : nat -> Z;
  cv_VideoCapture : nat -> path -> bytes -> capture;
  cv_imwrite : nat -> path -> image -> imwrite_outcome;
  cv_imread : nat -> path -> bytes -> imread_outcome
}.

Definition tick (w : world) : world :=
  World (fs w) (S (ticks w)) (trace w).

Definition log (e : event) (w : world) : world :=
  World (fs w) (ticks w) (e :: trace w).

Definition fs_remove (p : path) (d : list (path * content)) :=
  filter (fun e => negb (path_eqb (fst e) p)) d.

(** [open(p, 'wb')] then [write]: the file is created or replaced. *)
Definition fs_write (p : path) (c : content) (w : world) : world :=
  World ((p, c) :: fs_remove p (fs w)) (ticks w) (trace w).

(** [p.exists()] *)
Definition fs_exists (p : path) (w : world) : bool :=
  existsb (fun e => path_eqb (fst e) p) (fs w).

(** [p.unlink()] *)
Definition fs_unlink (p : path) (w : world) : world :=
  World (fs_remove p (fs w)) (ticks w) (trace w).

(** [time.time()] and [datetime.now()] *)
Definition now (E : env) (w : world) : Z * world :=
  (clock E (ticks w), tick w).

(** The [finally] clause of both scratch-file users:
    [if temp.exists(): try: temp.unlink() except: pass]. *)
Definition cleanup (p : path) (w : world) : world :=
  if fs_exists p w then fs_unlink p w else w.

(** ** Method 1: the container trial decoder
    ([_extract_frames_from_stream_buffer], first part) *)

(** How the body of a [try] was left. *)
Inductive signal := Normal | Break | Raised.

(** The loop [while frame_count < max_frames] over the answers of
    [cap.read()].  It returns [extracted_count] as the loop left it, also
    when a call raised. *)
Fixpoint read_frames (E : env) (reads : list read_outcome)
    (frame_offset max_frames frame_count extracted_count : Z) (w : world)
    : signal * Z * world :=
  if frame_count <? max_frames then
    let w := log CallRead (tick w) in
    match reads with
    | [] => (Normal, extracted_count, w)
    | RNone :: _ => (Normal, extracted_count, w)
    | RRaise :: _ => (Raised, extracted_count, w)
    | RFrame frame :: reads' =>
        let '(timestamp, w) := now E w in
        let frame_path := FrameJpg (frame_offset + extracted_count + 1) timestamp in
        match cv_imwrite E (ticks w) frame_path frame with
        | IwRaise => (Raised, extracted_count, tick w)
        | IwTrue =>
            let w := fs_write frame_path (Encoded frame) (tick w) in
            let w := log (LogSavedFrame (frame_offset + extracted_count + 1) timestamp) w in
            read_frames E reads' frame_offset max_frames
              (frame_count + 1) (extracted_count + 1) w
        | IwFalse =>
            let w := log (LogSaveFailed (frame_offset + extracted_count + 1) timestamp) (tick w) in
            read_frames E reads' frame_offset max_frames
              frame_count extracted_count w
        end
    end
  else (Normal, extracted_count, w).

(** The body of the inner [try] for one candidate extension. *)
Definition try_format_body (E : env) (stream_buffer : bytes) (frame_offset : Z)
    (fmt : format) (extracted_count : Z) (w : world) : signal * Z * world :=
  let temp_video_file := TempStream frame_offset fmt in
  let w := fs_write temp_video_file (Raw stream_buffer) w in
  let w := log (CallVideoCapture temp_video_file) w in
  match cv_VideoCapture E (ticks w) temp_video_file stream_buffer with
  | CapRaise => (Raised, extracted_count, tick w)
  | Cap false _ => (Normal, extracted_count, log (LogNotOpened fmt) (tick w))
  | Cap true reads =>
      let w := log (LogOpened fmt) (tick w) in
      let max_frames := Z.min 5 (10 - frame_offset) in
      let '(s, extracted_count, w) :=
        read_frames E reads frame_offset max_frames 0 extracted_count w in
      match s with
      | Raised => (Raised, extracted_count, w)
      | _ => if 0 <? extracted_count then (Break, extracted_count, w)
             else (Normal, extracted_count, w)
      end
  end.

(** One candidate extension: the inner [try] with its [except] (which logs
    and lets the loop [continue]) and its [finally] (which removes the
    scratch file). *)
Definition try_format (E : env) (stream_buffer : bytes) (frame_offset : Z)
    (fmt : format) (extracted_count : Z) (w : world) : signal * Z * world :=
  let w := log (LogTryFormat fmt) w in
  let '(s, extracted_count, w) :=
    try_format_body E stream_buffer frame_offset fmt extracted_count w in
  let w := match s with Raised => log (LogFormatError fmt) w | _ => w end in
  (s, extracted_count, cleanup (TempStream frame_offset fmt) w).

(** [for fmt, header in video_formats]: the guard at the top stops the loop
    once a frame was extracted; [break] stops it, [continue] and the normal
    end of the body go on with the next extension. *)
Fixpoint try_formats (E : env) (stream_buffer : bytes) (frame_offset : Z)
    (video_formats : list format) (extracted_count : Z) (w : world)
    : Z * world :=
  match video_formats with
  | [] => (extracted_count, w)
  | fmt :: rest =>
      if 0 <? extracted_count then (extracted_count, w)
      else
        let '(s, extracted_count, w) :=
          try_format E stream_buffer frame_offset fmt extracted_count w in
        match s with
        | Break => (extracted_count, w)
        | Normal | Raised => try_formats E stream_buffer frame_offset rest extracted_count w
        end
  end.

Definition video_formats : list format := [webm; mkv; mp4].

(** ** Method 2: the embedded-image scanner ([_extract_jpeg_from_buffer]) *)

Definition jpeg_start : bytes := [xff; xd8].   (* SOI *)
Definition jpeg_end : bytes := [xff; xd9].     (* EOI *)

(** The inner [try] of the scanner: write the candidate, read it back, keep
    and count it when it decodes, remove it otherwise. *)
Definition save_jpeg (E : env) (jpeg_data : bytes) (frame_offset extracted_count : Z)
    (w : world) : Z * world :=
  let '(timestamp, w) := now E w in
  let frame_path := FrameJpg (frame_offset + extracted_count + 1) timestamp in
  let w := fs_write frame_path (Raw jpeg_data) w in
  match cv_imread E (ticks w) frame_path jpeg_data with
  | ImgSome _ =>
      (extracted_count + 1,
       log (LogSavedJpeg (frame_offset + extracted_count + 1) timestamp) (tick w))
  | ImgNone =>
      (extracted_count, log LogInvalidJpeg (fs_unlink frame_path (tick w)))
  | ImgRaise =>
      let w := log LogJpegError (tick w) in
      (extracted_count, if fs_exists frame_path w then fs_unlink frame_path w else w)
  end.

(** The loop [while pos < len(buffer) - 1000 and extracted_count < 5].
    [None] means that [fuel] iterations were not enough. *)
Fixpoint jpeg_loop (E : env) (fuel : nat) (buffer : bytes)
    (frame_offset pos extracted_count : Z) (w : world) : option (Z * world) :=
  match fuel with
  | O => None
  | S fuel' =>
      if (pos <? blen buffer - 1000) && (extracted_count <? 5) then
        let start_pos := bytes_find jpeg_start buffer pos in
        if start_pos =? -1 then Some (extracted_count, w)
        else
          let end_pos := bytes_find jpeg_end buffer (start_pos + 2) in
          if end_pos =? -1 then
            jpeg_loop E fuel' buffer frame_offset (start_pos + 2) extracted_count w
          else
            let jpeg_data := slice buffer start_pos (end_pos + 2) in
            let '(extracted_count, w) :=
              save_jpeg E jpeg_data frame_offset extracted_count w in
            jpeg_loop E fuel' buffer frame_offset (end_pos + 2) extracted_count w
      else Some (extracted_count, w)
  end.

(** Every iteration moves [pos] forward by two bytes at least, so the
    length of the buffer bounds the number of iterations. *)
Definition jpeg_fuel (buffer : bytes) : nat := S (length buffer).

Definition _extract_jpeg_from_buffer (E : env) (buffer : bytes) (frame_offset : Z)
    (w : world) : Z * world :=
  let w := log LogJpegScan w in
  match jpeg_loop E (jpeg_fuel buffer) buffer frame_offset 0 0 w with
  | Some r => r
  | None => (0, w)
  end.

(** ** Method 3: the raw codec-unit scanner ([_extract_raw_video_frames]) *)

Definition h264_start_codes : list bytes :=
  [[x00; x00; x00; x01]; [x00; x00; x01]].

Definition vp_signatures : list bytes :=
  [[x9d; x01; x2a]; [x82]].

Definition all_signatures : list (bytes * frame_type) :=
  map (fun s => (s, h264)) h264_start_codes ++ map (fun s => (s, vp)) vp_signatures.

(** [for sig in all_signatures]: the earliest match at or after [pos] and the
    family of the signature that gave it; a later signature replaces an
    earlier one only when its match is strictly before. *)
Fixpoint next_frame (sigs : list (bytes * frame_type)) (buffer : bytes) (pos : Z)
    (found : option (Z * frame_type)) : option (Z * frame_type) :=
  match sigs with
  | [] => found
  | (sig, ft) :: sigs' =>
      let sig_pos := bytes_find sig buffer pos in
      let found :=
        if sig_pos =? -1 then found
        else match found with
             | None => Some (sig_pos, ft)
             | Some (next_frame_pos, _) =>
                 if sig_pos <? next_frame_pos then Some (sig_pos, ft) else found
             end in
      next_frame sigs' buffer pos found
  end.

Definition ebml_header : bytes := [x1a; x45; xdf; xa3].

(** The [try] body of [_try_decode_raw_frame], given the scratch file. *)
Definition decode_raw_body (E : env) (temp_file : path) (header frame_data : bytes)
    (frame_index : Z) (ft : frame_type) (w : world) : signal * bool * world :=
  let w := fs_write temp_file (Raw (header ++ frame_data)) w in
  let w := log (CallVideoCapture temp_file) w in
  match cv_VideoCapture E (ticks w) temp_file (header ++ frame_data) with
  | CapRaise => (Raised, false, tick w)
  | Cap opened reads =>
      let w := log CallRead (tick (tick w)) in
      match (if opened then reads else []) with
      | RRaise :: _ => (Raised, false, w)
      | [] | RNone :: _ => (Normal, false, w)
      | RFrame frame :: _ =>
          let '(timestamp, w) := now E w in
          let frame_path := FrameJpg (frame_index + 1) timestamp in
          match cv_imwrite E (ticks w) frame_path frame with
          | IwRaise => (Raised, false, tick w)
          | IwFalse => (Normal, false, tick w)
          | IwTrue =>
              let w := fs_write frame_path (Encoded frame) (tick w) in
              (Normal, true, log (LogSavedRaw ft (frame_index + 1) timestamp) w)
          end
      end
  end.

(** [_try_decode_raw_frame]: the [except] answers [False], the [finally]
    removes the scratch file. *)
Definition _try_decode_raw_frame (E : env) (frame_data : bytes) (frame_index : Z)
    (ft : frame_type) (w : world) : bool * world :=
  let '(container_ext, header) :=
    match ft with
    | h264 => (mp4, [])
    | vp => (webm, ebml_header)
    end in
  let temp_file := TempRaw frame_index container_ext in
  let '(s, success, w) := decode_raw_body E temp_file header frame_data frame_index ft w in
  let '(success, w) :=
    match s with
    | Raised => (false, log (LogRawError ft) w)
    | _ => (success, w)
    end in
  (success, cleanup temp_file w).

(** One iteration of [while pos < len(buffer) - 10000 and extracted_count < 3],
    past its guard: [None] is the [break], otherwise the new [pos], the new
    [extracted_count] and the new world. *)
Definition raw_step (E : env) (buffer : bytes) (frame_offset pos extracted_count : Z)
    (w : world) : option (Z * Z * world) :=
  match next_frame all_signatures buffer pos None with
  | None => None
  | Some (next_frame_pos, ft) =>
      let frame_end := Z.min (next_frame_pos + 51200) (blen buffer) in
      let frame_data := slice buffer next_frame_pos frame_end in
      let w := log (LogRawCandidate ft next_frame_pos) w in
      let '(success, w) :=
        _try_decode_raw_frame E frame_data (frame_offset + extracted_count) ft w in
      let extracted_count := if success then extracted_count + 1 else extracted_count in
      Some (next_frame_pos + 1000, extracted_count, w)
  end.

Fixpoint raw_loop (E : env) (fuel : nat) (buffer : bytes)
    (frame_offset pos extracted_count : Z) (w : world) : option (Z * world) :=
  match fuel with
  | O => None
  | S fuel' =>
      if (pos <? blen buffer - 10000) && (extracted_count <? 3) then
        match raw_step E buffer frame_offset pos extracted_count w with
        | None => Some (extracted_count, w)
        | Some (pos, extracted_count, w) =>
            raw_loop E fuel' buffer frame_offset pos extracted_count w
        end
      else Some (extracted_count, w)
  end.

(** Every iteration moves [pos] forward by a thousand bytes at least. *)
Definition raw_fuel (buffer : bytes) : nat := S (length buffer).

Definition _extract_raw_video_frames (E : env) (buffer : bytes) (frame_offset : Z)
    (w : world) : Z * world :=
  let w := log LogRawScan w in
  match raw_loop E (raw_fuel buffer) buffer frame_offset 0 0 w with
  | Some r => r
  | None => (0, w)
  end.

(** ** The extraction cascade ([_extract_frames_from_stream_buffer]) *)

(** Method 1 on the three candidate extensions; Method 2 when
    [extracted_count == 0] after it; Method 3 when [extracted_count == 0]
    still. *)
Definition _extract_frames_from_stream_buffer (E : env) (stream_buffer : bytes)
    (frame_offset : Z) (w : world) : Z * world :=
  let '(extracted_count, w) :=
    try_formats E stream_buffer frame_offset video_formats 0 w in
  let '(extracted_count, w) :=
    if extracted_count =? 0 then
      let '(jpeg_frames, w) := _extract_jpeg_from_buffer E stream_buffer frame_offset w in
      (extracted_count + jpeg_frames, w)
    else (extracted_count, w) in
  let '(extracted_count, w) :=
    if extracted_count =? 0 then
      let '(raw_frames, w) := _extract_raw_video_frames E stream_buffer frame_offset w in
      (extracted_count + raw_frames, w)
    else (extracted_count, w) in
  (extracted_count, w).

(** ** The stream buffer controller ([_process_live_stream_data]) *)

(** [stream_config]: the two entries the code reads. *)
Record config := Config {
  max_frames : Z;
  frame_extract_fps : Z
}.

(** One answer of [stream_payload.read(65536)]: a chunk (the empty chunk
    is the end of the stream) or an exception.  The payload is the list of
    the answers it will give; past the last one [read] gives [b'']. *)
Inductive read_result := Chunk (data : bytes) | ReadRaise.

(** The local variables of the reading loop. *)
Record loop_state := LoopState {
  frames_extracted : Z;
  saved_count : Z;
  total_bytes_read : Z;
  chunk_count : Z;
  stream_buffer : bytes
}.

(** [if len(stream_buffer) > 500000: stream_buffer = stream_buffer[-300000:]] *)
Definition trim_buffer (stream_buffer : bytes) : bytes :=
  if 500000 <? blen stream_buffer then last_bytes 300000 stream_buffer
  else stream_buffer.

(** The extraction attempt of a checkpoint and the update of both counters. *)
Definition extract_and_count (E : env) (st : loop_state) (w : world)
    : loop_state * world :=
  let '(new_frames, w) :=
    _extract_frames_from_stream_buffer E (stream_buffer st) (frames_extracted st) w in
  if 0 <? new_frames then
    (LoopState (frames_extracted st + new_frames) (saved_count st + new_frames)
       (total_bytes_read st) (chunk_count st) (stream_buffer st), w)
  else (st, w).

(** What follows a successful read: the counters, the checkpoint every
    third chunk once the buffer holds more than 200000 bytes, the trim. *)
Definition on_chunk (E : env) (chunk : bytes) (st : loop_state) (w : world)
    : loop_state * world :=
  let st := LoopState (frames_extracted st) (saved_count st)
              (total_bytes_read st + blen chunk) (chunk_count st + 1)
              (stream_buffer st ++ chunk) in
  if (chunk_count st mod 3 =? 0) && (200000 <? blen (stream_buffer st)) then
    let '(st, w) := extract_and_count E st w in
    (LoopState (frames_extracted st) (saved_count st) (total_bytes_read st)
       (chunk_count st) (trim_buffer (stream_buffer st)), w)
  else (st, w).

(** [while frames_extracted < stream_config['max_frames']], with its three
    [break]s: the timeout (60 seconds, here 60000 milliseconds), the empty
    read, the exception of a read. *)
Fixpoint read_loop (E : env) (cfg : config) (stream_payload : list read_result)
    (process_start_time : Z) (st : loop_state) (w : world) : loop_state * world :=
  if frames_extracted st <? max_frames cfg then
    let '(current_time, w) := now E w in
    let elapsed_time := current_time - process_start_time in
    if 60000 <? elapsed_time then (st, log LogTimeout w)
    else
      match stream_payload with
      | [] => (st, log LogStreamEnded w)
      | ReadRaise :: _ => (st, log LogChunkError w)
      | Chunk [] :: _ => (st, log LogStreamEnded w)
      | Chunk chunk :: rest =>
          let '(st, w) := on_chunk E chunk st w in
          read_loop E cfg rest process_start_time st w
      end
  else (st, w).

(** The final attempt on what the buffer still holds. *)
Definition final_attempt (E : env) (cfg : config) (st : loop_state) (w : world)
    : loop_state * world :=
  if (50000 <? blen (stream_buffer st)) && (frames_extracted st <? max_frames cfg) then
    extract_and_count E st (log LogFinalAttempt w)
  else (st, w).

(** The dictionary of [_save_live_summary], in the order of its keys.  The
    duration and the completion time are in milliseconds of [clock]. *)
Definition live_summary (cfg : config) (stream_name session_dir : string)
    (saved_count chunk_count total_bytes_read duration completed_at : Z)
    : list (string * json) :=
  [ ("frames_extracted"%string, JNum saved_count);
    ("total_chunks_processed"%string, JNum chunk_count);
    ("processing_duration_seconds"%string, JNum duration);
    ("total_bytes_read"%string, JNum total_bytes_read);
    ("target_fps"%string, JNum (frame_extract_fps cfg));
    ("max_frames_limit"%string, JNum (max_frames cfg));
    ("kvs_stream"%string, JStr stream_name);
    ("consumption_method"%string, JStr "Live_Stream_Frame_Extraction");
    ("config"%string, JDict [ ("max_frames"%string, max_frames cfg);
                              ("frame_extract_fps"%string, frame_extract_fps cfg) ]);
    ("session_dir"%string, JStr session_dir);
    ("completed_at"%string, JNum completed_at) ].

Definition _save_live_summary (E : env) (cfg : config) (stream_name session_dir : string)
    (saved_count process_start_time total_bytes_read chunk_count : Z) (w : world)
    : world :=
  let '(t, w) := now E w in
  let '(completed_at, w) := now E w in
  let doc := live_summary cfg stream_name session_dir saved_count chunk_count
               total_bytes_read (t - process_start_time) completed_at in
  log LogSummarySaved (fs_write SummaryJson (Json doc) w).

Definition _process_live_stream_data (E : env) (cfg : config)
    (stream_name session_dir : string) (stream_payload : list read_result)
    (w : world) : bool * world :=
  let '(process_start_time, w) := now E w in
  let st := LoopState 0 0 0 0 [] in
  let '(st, w) := read_loop E cfg stream_payload process_start_time st w in
  let '(st, w) := final_attempt E cfg st w in
  let w := log LogClosed w in
  let w := _save_live_summary E cfg stream_name session_dir (saved_count st)
             process_start_time (total_bytes_read st) (chunk_count st) w in
  (0 <? saved_count st, w).

(** [kvs_media_client.get_media(...)]: an exception (the stream is not
    found, the caller is not authorised, ...) or the payload. *)
Inductive media := MediaError | MediaPayload (stream_payload : list read_result).

(** [consume_stream]: [False] when the stream cannot be opened, otherwise
    the answer of [_process_live_stream_data]. *)
Definition consume_stream (E : env) (cfg : config) (stream_name session_dir : string)
    (response : media) (w : world) : bool * world :=
  match response with
  | MediaError => (false, w)
  | MediaPayload stream_payload =>
      _process_live_stream_data E cfg stream_name session_dir stream_payload w
  end.

(** A session starts in the directory that [setup_data_directories] has
    just created, which holds at most files of other names, with no call
    made and nothing logged. *)
Definition start (others : list (string * content)) : world :=
  World (map (fun e => (Other (fst e), snd e)) others) 0 [].

(** * The vocabulary of the properties *)

(** ** What a session leaves: frame files, saved-frame log lines, scratch files *)

Definition frame_index (p : path) : option Z :=
  match p with FrameJpg i _ => Some i | _ => None end.

Definition is_scratch (p : path) : bool :=
  match p with TempStream _ _ | TempRaw _ _ => true | _ => false end.

(** Sequence numbers of the frame files of a directory, newest first. *)
Fixpoint frame_files (d : list (path * content)) : list Z :=
  match d with
  | [] => []
  | (p, _) :: d' =>
      match frame_index p with
      | Some i => i :: frame_files d'
      | None => frame_files d'
      end
  end.

(** Scratch files of a directory. *)
Fixpoint scratch_files (d : list (path * content)) : list path :=
  match d with
  | [] => []
  | (p, _) :: d' => if is_scratch p then p :: scratch_files d' else scratch_files d'
  end.

(** The sequence number a log line reports as saved, whichever strategy
    logged it. *)
Definition saved_index (e : event) : option Z :=
  match e with
  | LogSavedFrame i _ | LogSavedJpeg i _ | LogSavedRaw _ i _ => Some i
  | _ => None
  end.

(** Sequence numbers of the saved-frame log lines of a trace, newest first. *)
Fixpoint saved (tr : list event) : list Z :=
  match tr with
  | [] => []
  | e :: tr' =>
      match saved_index e with
      | Some i => i :: saved tr'
      | None => saved tr'
      end
  end.

(** [off + k; ...; off + 2; off + 1] *)
Fixpoint down (off : Z) (k : nat) : list Z :=
  match k with
  | O => []
  | S k' => (off + Z.of_nat k) :: down off k'
  end.

(** The frame files in the order they were created, and the saved-frame log
    lines in the order they were logged. *)
Definition persisted (w : world) : list Z := rev (frame_files (fs w)).
Definition saved_log (w : world) : list Z := rev (saved (trace w)).

(** How many events of a trace satisfy [f]. *)
Definition count_events (f : event -> bool) (tr : list event) : Z :=
  Z.of_nat (length (filter f tr)).

Definition is_read (e : event) : bool :=
  match e with CallRead => true | _ => false end.

Definition is_save_failed (e : event) : bool :=
  match e with LogSaveFailed _ _ => true | _ => false end.

(** [fs[p]] *)
Fixpoint fs_lookup (p : path) (d : list (path * content)) : option content :=
  match d with
  | [] => None
  | (q, c) :: d' => if path_eqb q p then Some c else fs_lookup p d'
  end.

(** [doc[key]] *)
Fixpoint json_get (key : string) (doc : list (string * json)) : option json :=
  match doc with
  | [] => None
  | (k, v) :: doc' => if String.eqb k key then Some v else json_get key doc'
  end.

(** ** How one step changes what a session leaves *)

(** All frame files of [w] have a sequence number of at most [n]. *)
Definition fresh (n : Z) (w : world) : Prop :=
  Forall (fun j => j <= n) (frame_files (fs w)).

(** From [w] to [w'] exactly the frames [off + 1 .. off + k] were saved, in
    this order, both as files and as log lines, and the scratch files are
    those of [w]. *)
Record grows (off k : Z) (w w' : world) : Prop := Grows {
  grows_frames : frame_files (fs w') = down off (Z.to_nat k) ++ frame_files (fs w);
  grows_saved : saved (trace w') = down off (Z.to_nat k) ++ saved (trace w);
  grows_scratch : scratch_files (fs w') = scratch_files (fs w)
}.

(** What holds of the counters and of the world between two steps of a
    session: both counters agree, the frames saved so far are numbered
    [1 .. frames_extracted], as files and as log lines, and the directory has
    no scratch file. *)
Record session_inv (st : loop_state) (w : world) : Prop := SessionInv {
  inv_nonneg : 0 <= frames_extracted st;
  inv_saved_count : saved_count st = frames_extracted st;
  inv_frames : frame_files (fs w) = down 0 (Z.to_nat (frames_extracted st));
  inv_saved : saved (trace w) = down 0 (Z.to_nat (frames_extracted st));
  inv_scratch : scratch_files (fs w) = []
}.

(** The same from any world, where a frame file may replace one of the same
    name: from [w] to [w'] the frames [off + 1 .. off + k] were logged as
    saved, in this order, at most [k] frame files were added, and every
    scratch file of [w'] was one of [w]. *)
Record adds (off k : Z) (w w' : world) : Prop := Adds {
  adds_saved : saved (trace w') = down off (Z.to_nat k) ++ saved (trace w);
  adds_scratch : incl (scratch_files (fs w')) (scratch_files (fs w));
  adds_files : (length (frame_files (fs w'))
                <= length (frame_files (fs w)) + Z.to_nat k)%nat
}.

(** ** Collaborators and buffers of the scenarios *)

(** A clock that advances by one millisecond at every oracle call. *)
Definition tick_clock (n : nat) : Z := Z.of_nat n.

(** No file opens as a video; every image written is accepted and reads
    back. *)
Definition images_only : env :=
  Env tick_clock (fun _ _ _ => Cap false []) (fun _ _ _ => IwTrue)
      (fun _ _ _ => ImgSome []).

(** Every file opens as a video of seven frames. *)
Definition seven_frames : env :=
  Env tick_clock
      (fun _ _ _ => Cap true [RFrame []; RFrame []; RFrame []; RFrame [];
                              RFrame []; RFrame []; RFrame []])
      (fun _ _ _ => IwTrue) (fun _ _ _ => ImgSome []).

(** Every file opens as a video whose first frame decodes and whose second
    read raises. *)
Definition raises_after_one : env :=
  Env tick_clock (fun _ _ _ => Cap true [RFrame []; RRaise])
      (fun _ _ _ => IwTrue) (fun _ _ _ => ImgNone).

(** Opening any file raises; no image reads back. *)
Definition always_raises : env :=
  Env tick_clock (fun _ _ _ => CapRaise) (fun _ _ _ => IwRaise)
      (fun _ _ _ => ImgRaise).

(** Only the scratch files of the raw scanner decode, to one frame. *)
Definition raw_units_only : env :=
  Env tick_clock
      (fun _ p _ => match p with TempRaw _ _ => Cap true [RFrame []] | _ => Cap false [] end)
      (fun _ _ _ => IwTrue) (fun _ _ _ => ImgNone).

(** Nothing decodes. *)
Definition decodes_nothing : env :=
  Env tick_clock (fun _ _ _ => Cap false []) (fun _ _ _ => IwFalse)
      (fun _ _ _ => ImgNone).

(** Every file opens as a video of eight frames; the first saves fail (those
    asked before the twelfth oracle call), the later ones succeed. *)
Definition first_saves_fail : env :=
  Env tick_clock
      (fun _ _ _ => Cap true [RFrame []; RFrame []; RFrame []; RFrame [];
                              RFrame []; RFrame []; RFrame []; RFrame []])
      (fun t _ _ => if (t <? 12)%nat then IwFalse else IwTrue)
      (fun _ _ _ => ImgSome []).

(** A start marker, two bytes, an end marker. *)
Definition small_jpeg : bytes := [xff; xd8; x01; x02; xff; xd9].

Definition padding (n : Z) : bytes := repeat x03 (Z.to_nat n).

(** One image and a thousand bytes. *)
Definition one_image_buffer : bytes := small_jpeg ++ padding 1000.

(** Seven images and a thousand bytes. *)
Definition seven_images_buffer : bytes :=
  small_jpeg ++ small_jpeg ++ small_jpeg ++ small_jpeg ++ small_jpeg
  ++ small_jpeg ++ small_jpeg ++ padding 1000.

(** A three-byte start code and twelve thousand bytes. *)
Definition one_unit_buffer : bytes := [x00; x00; x01] ++ padding 12000.

(** A chunk of 50012 bytes that holds two images. *)
Definition two_images_chunk : bytes := small_jpeg ++ small_jpeg ++ padding 50000.

(** A chunk of 50001 bytes without any marker. *)
Definition plain_chunk : bytes := padding 50001.

(** The first candidate opens, to two frames, only before any frame was
    saved; images read back only as frames 3 and 4; the scratch files of the
    raw scanner decode to one frame. *)
Definition three_strategies : env :=
  Env tick_clock
      (fun _ p _ => match p with
                    | TempStream 0 webm => Cap true [RFrame []; RFrame []]
                    | TempRaw _ _ => Cap true [RFrame []]
                    | _ => Cap false []
                    end)
      (fun _ _ _ => IwTrue)
      (fun _ p _ => match p with
                    | FrameJpg 3 _ | FrameJpg 4 _ => ImgSome []
                    | _ => ImgNone
                    end).

(** A chunk of 33409 bytes: an image, a start code, padding. *)
Definition mixed_chunk : bytes := small_jpeg ++ [x00; x00; x01] ++ padding 33400.

(** Nine such chunks: checkpoints after the sixth and the ninth, then the
    end of the stream and the final attempt. *)
Definition nine_chunks : list read_result := repeat (Chunk mixed_chunk) 9.

(** Where an iteration of the raw scanner left [pos] and [extracted_count]. *)
Definition step_pos (r : option (Z * Z * world)) : Z :=
  match r with Some (pos, _, _) => pos | None => -1 end.

Definition step_count (r : option (Z * Z * world)) : Z :=
  match r with Some (_, c, _) => c | None => -1 end.

(** What the container strategy logs, newest first, when no candidate
    opens. *)
Fixpoint not_opened_trace (frame_offset : Z) (fmts : list format) : list event :=
  match fmts with
  | [] => []
  | fmt :: rest =>
      not_opened_trace frame_offset rest
      ++ [LogNotOpened fmt; CallVideoCapture (TempStream frame_offset fmt);
          LogTryFormat fmt]
  end.

(** ** The summary record *)

(** The keys of the summary record, in the order of the dictionary. *)
Definition summary_keys : list string :=
  [ "frames_extracted"; "total_chunks_processed"; "processing_duration_seconds";
    "total_bytes_read"; "target_fps"; "max_frames_limit"; "kvs_stream";
    "consumption_method"; "config"; "session_dir"; "completed_at" ]%string.

(** The summary record of a session directory, empty when there is none. *)
Definition summary_of (w : world) : list (string * json) :=
  match fs_lookup SummaryJson (fs w) with
  | Some (Json doc) => doc
  | _ => []
  end.

(** What a session that saved nothing leaves: the answer [False], no frame
    file, no scratch file, and a summary that counts 0 frames, 0 chunks and
    0 bytes and has no entry for the reason of the end. *)
Definition nothing_saved (r : bool * world) : Prop :=
  fst r = false /\
  persisted (snd r) = [] /\
  scratch_files (fs (snd r)) = [] /\
  json_get "frames_extracted" (summary_of (snd r)) = Some (JNum 0) /\
  json_get "total_chunks_processed" (summary_of (snd r)) = Some (JNum 0) /\
  json_get "total_bytes_read" (summary_of (snd r)) = Some (JNum 0) /\
  json_get "termination_reason" (summary_of (snd r)) = None.

(** * The rest of the consumer *)

(** ** The format sniffer ([_detect_stream_format]) *)

(** The dictionary [signatures], in the order of its keys. *)
Definition signatures : list (bytes * string) :=
  [ ([x1a; x45; xdf; xa3], "WebM/EBML"%string);
    ([x00; x00; x00; x01], "H.264 NAL"%string);
    ([x00; x00; x01], "H.264 NAL (short)"%string);
    ([x66; x74; x79; x70], "MP4"%string);              (* b'ftyp' *)
    ([x6d; x6f; x6f; x76], "MP4 Movie"%string);        (* b'moov' *)
    ([x6d; x64; x61; x74], "MP4 Media Data"%string);   (* b'mdat' *)
    ([x18; x53; x80; x67], "WebM Segment"%string);
    ([x1f; x43; xb6; x75], "WebM Cluster"%string) ].

(** [sig in b] *)
Definition contains (sig b : bytes) : bool :=
  negb (bytes_find sig b 0 =? -1).

(** The digits of [bytes.hex()]. *)
Definition hex_digits : string := "0123456789abcdef".

(** The digit of a value below sixteen. *)
Definition hex_digit (n : N) : Ascii.ascii :=
  match String.get (N.to_nat n) hex_digits with
  | Some c => c
  | None => Ascii.ascii_of_nat 102
  end.

(** [b.hex()] *)
Fixpoint hex (b : bytes) : string :=
  match b with
  | [] => EmptyString
  | x :: b' =>
      String (hex_digit (N.div (Byte.to_N x) 16))
        (String (hex_digit (N.modulo (Byte.to_N x) 16)) (hex b'))
  end.

(** [for sig, format_name in signatures.items()]: the name of the first
    signature that the chunk starts with or that occurs in [chunk[:64]]. *)
Fixpoint first_signature (sigs : list (bytes * string)) (chunk : bytes)
    : option string :=
  match sigs with
  | [] => None
  | (sig, format_name) :: rest =>
      if starts_with sig chunk || contains sig (slice chunk 0 64)
      then Some format_name
      else first_signature rest chunk
  end.

Definition _detect_stream_format (chunk : bytes) : string :=
  if blen chunk <? 8 then "Too small to analyze"%string
  else match first_signature signatures chunk with
       | Some format_name => format_name
       | None =>
           ("Unknown (starts with " ++ hex (slice chunk 0 8) ++ ")")%string
       end.

(** * More vocabulary *)

(** ** The events of each strategy *)

(** What the body of the attempt on one candidate may log or call. *)
Definition candidate_event (e : event) : bool :=
  match e with
  | CallVideoCapture (TempStream _ _) | CallRead | LogOpened _ | LogNotOpened _
  | LogFormatError _ | LogSavedFrame _ _ | LogSaveFailed _ _ => true
  | _ => false
  end.

(** What the container strategy may log or call when it tries the
    extensions [fmts]. *)
Definition container_event (fmts : list format) (e : event) : bool :=
  match e with
  | LogTryFormat fmt => existsb (format_eqb fmt) fmts
  | _ => candidate_event e
  end.

(** What the loop of the embedded-image scanner may log. *)
Definition jpeg_event (e : event) : bool :=
  match e with
  | LogSavedJpeg _ _ | LogInvalidJpeg | LogJpegError => true
  | _ => false
  end.

(** What one decode attempt of the raw scanner may log or call. *)
Definition decode_event (e : event) : bool :=
  match e with
  | CallVideoCapture (TempRaw _ _) | CallRead | LogSavedRaw _ _ _
  | LogRawError _ => true
  | _ => false
  end.

(** What the loop of the raw scanner may log or call. *)
Definition raw_event (e : event) : bool :=
  decode_event e || match e with LogRawCandidate _ _ => true | _ => false end.

(** What one invocation of the cascade may log or call. *)
Definition cascade_event (e : event) : bool :=
  container_event video_formats e || jpeg_event e || raw_event e
  || match e with LogJpegScan | LogRawScan => true | _ => false end.

(** What a session may log or call. *)
Definition session_event (e : event) : bool :=
  cascade_event e
  || match e with
     | LogTimeout | LogStreamEnded | LogChunkError | LogFinalAttempt
     | LogClosed | LogSummarySaved => true
     | _ => false
     end.

(** From [w] to [w'] only events that [allowed] accepts were added to the
    trace, the files of other names are as they were, and the count of
    oracle calls did not go down. *)
Record steps (allowed : event -> bool) (w w' : world) : Prop := Steps {
  steps_new : exists new, trace w' = new ++ trace w /\ forallb allowed new = true;
  steps_files : forall name, fs_lookup (Other name) (fs w') = fs_lookup (Other name) (fs w);
  steps_ticks : (ticks w <= ticks w')%nat
}.

(** How many events that satisfy [f] were added from [w] to [w']. *)
Definition logged (f : event -> bool) (w w' : world) : Z :=
  count_events f (trace w') - count_events f (trace w).

Definition is_saved_frame (e : event) : bool :=
  match e with LogSavedFrame _ _ => true | _ => false end.

Definition is_saved_jpeg (e : event) : bool :=
  match e with LogSavedJpeg _ _ => true | _ => false end.

Definition is_saved_raw (e : event) : bool :=
  match e with LogSavedRaw _ _ _ => true | _ => false end.

Definition is_jpeg_scan (e : event) : bool :=
  match e with LogJpegScan => true | _ => false end.

Definition is_raw_scan (e : event) : bool :=
  match e with LogRawScan => true | _ => false end.

Definition is_raw_candidate (e : event) : bool :=
  match e with LogRawCandidate _ _ => true | _ => false end.

(** The first log line of every invocation of the cascade. *)
Definition is_cascade_start (e : event) : bool :=
  match e with LogTryFormat webm => true | _ => false end.

Definition is_decoder_call (e : event) : bool :=
  match e with CallVideoCapture _ | CallRead => true | _ => false end.

(** ** What a session reads *)

(** The chunks a payload can give to a session: its answers before the
    first empty chunk or exception. *)
Fixpoint readable (stream_payload : list read_result) : list bytes :=
  match stream_payload with
  | Chunk (x :: chunk) :: rest => (x :: chunk) :: readable rest
  | _ => []
  end.

Fixpoint total_len (chunks : list bytes) : Z :=
  match chunks with
  | [] => 0
  | chunk :: rest => blen chunk + total_len rest
  end.

(** [read(65536)] answers at most 65536 bytes. *)
Definition read_size : Z := 65536.

Definition within_read_size (r : read_result) : bool :=
  match r with
  | Chunk chunk => blen chunk <=? read_size
  | ReadRaise => true
  end.

Definition is_capture_open (e : event) : bool :=
  match e with CallVideoCapture _ => true | _ => false end.

(** [sig] occurs in [b] at index [q]. *)
Definition occurs_at (sig b : bytes) (q : Z) : bool :=
  starts_with sig (skipn (Z.to_nat q) b).

(** No signature of [sigs] occurs in [b] at an index from [lo] to [hi - 1]. *)
Definition none_occurs (sigs : list (bytes * frame_type)) (b : bytes) (lo hi : Z)
    : Prop :=
  forall sig ft q, In (sig, ft) sigs -> lo <= q < hi -> occurs_at sig b q = false.

(** The answer [found] of the search of [sigs] in [b] from [pos]: the lowest
    index at or after [pos] where a signature occurs, with the family of a
    signature that occurs there; no answer when none occurs. *)
Definition earliest (sigs : list (bytes * frame_type)) (b : bytes) (pos : Z)
    (found : option (Z * frame_type)) : Prop :=
  match found with
  | Some (p, ft) =>
      pos <= p <= blen b /\
      (exists sig, In (sig, ft) sigs /\ occurs_at sig b p = true) /\
      none_occurs sigs b pos p
  | None => none_occurs sigs b pos (blen b + 1)
  end.

(** A file that holds the bytes of [buffer] from a start marker through the
    first end marker that follows it. *)
Definition jpeg_file (buffer : bytes) (c : content) : Prop :=
  exists s e,
    0 <= s /\ s + 2 <= e /\
    occurs_at jpeg_start buffer s = true /\
    occurs_at jpeg_end buffer e = true /\
    (forall q, s + 2 <= q < e -> occurs_at jpeg_end buffer q = false) /\
    c = Raw (slice buffer s (e + 2)).

(** The decoder is given scratch files only. *)
Definition decodes_scratch (e : event) : bool :=
  match e with
  | CallVideoCapture p => is_scratch p
  | _ => true
  end.

(** ** The candidates of the raw scanner *)

(** [frame_data] of the raw scanner for a candidate at [p]:
    [buffer[p : min(p + 51200, len(buffer))]]. *)
Definition candidate_window (buffer : bytes) (p : Z) : bytes :=
  slice buffer p (Z.min (p + 51200) (blen buffer)).

(** The loop of the raw scanner with the decode and the count left out:
    while [pos < len(buffer) - 10000], the next candidate at or after [pos],
    then [pos = next_frame_pos + 1000]. *)
Fixpoint scan_from (fuel : nat) (buffer : bytes) (pos : Z)
    : list (frame_type * Z) :=
  match fuel with
  | O => []
  | S fuel' =>
      if pos <? blen buffer - 10000 then
        match next_frame all_signatures buffer pos None with
        | None => []
        | Some (next_frame_pos, ft) =>
            (ft, next_frame_pos) :: scan_from fuel' buffer (next_frame_pos + 1000)
        end
      else []
  end.

(** The candidates that a buffer holds for the raw scanner, in the order of
    the scan. *)
Definition raw_candidates (buffer : bytes) : list (frame_type * Z) :=
  scan_from (raw_fuel buffer) buffer 0.

(** The candidates that a trace logs, newest first. *)
Fixpoint candidates (tr : list event) : list (frame_type * Z) :=
  match tr with
  | [] => []
  | LogRawCandidate ft p :: tr' => (ft, p) :: candidates tr'
  | _ :: tr' => candidates tr'
  end.

(** [l] is the whole scan of [buffer] from [pos]: each candidate is what the
    search answers from where the scan stands, the scan goes on a thousand
    bytes after it, and it ends where the guard of the loop fails or the
    search answers nothing. *)
Fixpoint scan_of (buffer : bytes) (pos : Z) (l : list (frame_type * Z)) : Prop :=
  match l with
  | [] =>
      blen buffer - 10000 <= pos \/
      next_frame all_signatures buffer pos None = None
  | (ft, p) :: l' =>
      pos < blen buffer - 10000 /\
      next_frame all_signatures buffer pos None = Some (p, ft) /\
      scan_of buffer (p + 1000) l'
  end.

(** Every candidate [p] of [l] that is followed by another one, [q], has
    [p + 1000], where the search for [q] started, strictly inside the window
    tried at [p], and [q] is at or after it. *)
Fixpoint resumed_inside (buffer : bytes) (l : list (frame_type * Z)) : Prop :=
  match l with
  | [] => True
  | (_, p) :: l' =>
      match l' with
      | [] => True
      | (_, q) :: _ =>
          p < p + 1000 < p + blen (candidate_window buffer p) /\ p + 1000 <= q
      end /\
      resumed_inside buffer l'
  end.

(** A candidate in the last thousand bytes: 10500 bytes without a
    signature, then the one-byte signature. *)
Definition late_unit_buffer : bytes := padding 10500 ++ [x82].

(** Five three-byte start codes, 1503 bytes apart, and 12000 bytes. *)
Definition five_units_buffer : bytes :=
  concat (repeat ([x00; x00; x01] ++ padding 1500) 5) ++ padding 12000.

(** * Facts about the program *)

(** ** Byte strings *)

Example bytes_find_examples :
  bytes_find [xff; xd8] [x00; xff; xd8; xff; xd8] 0 = 1 /\
  bytes_find [xff; xd8] [x00; xff; xd8; xff; xd8] 2 = 3 /\
  bytes_find [xff; xd8] [x00; xff; xd8; xff; xd8] 4 = -1 /\
  bytes_find [xff; xd8] [x00; xff; xd8; xff; xd8] 9 = -1 /\
  slice [x00; xff; xd8; xff; xd9; x01] 1 5 = [xff; xd8; xff; xd9] /\
  last_bytes 2 [x00; x01; x02] = [x01; x02] /\
  last_bytes 5 [x00; x01; x02] = [x00; x01; x02].
Proof. repeat split; reflexivity. Qed.

Lemma find_at_range (sig b : bytes) (i : Z) :
  find_at sig b i = -1 \/ i <= find_at sig b i <= i + blen b.
Proof.
  revert i. induction b as [|x b IH]; intros i; simpl.
  - destruct sig; [right; unfold blen; simpl; lia | now left].
  - destruct (starts_with sig (x :: b)).
    + right. unfold blen. simpl length. lia.
    + destruct (IH (i + 1)) as [H|H]; [now left|right].
      unfold blen in *. simpl length. lia.
Qed.

(** [find] answers [-1] or a position at or after [start] and within the
    buffer. *)
Lemma bytes_find_range (sig b : bytes) (start : Z) :
  0 <= start ->
  bytes_find sig b start = -1 \/ start <= bytes_find sig b start <= blen b.
Proof.
  intros Hs. unfold bytes_find.
  destruct (blen b <? start) eqn:E; [now left|].
  apply Z.ltb_ge in E.
  destruct (find_at_range sig (skipn (Z.to_nat start) b) start) as [H|H];
    [now left|right].
  unfold blen in *. rewrite length_skipn in H. lia.
Qed.

(** ** The session directory: elementary facts *)

Lemma format_eqb_refl (f : format) : format_eqb f f = true.
Proof. now destruct f. Qed.

Lemma path_eqb_refl (p : path) : path_eqb p p = true.
Proof.
  destruct p; simpl; rewrite ?Z.eqb_refl, ?format_eqb_refl, ?String.eqb_refl;
    reflexivity.
Qed.

Lemma path_eqb_frame_index (p q : path) :
  path_eqb p q = true -> frame_index p = frame_index q.
Proof.
  destruct p, q; simpl; try discriminate; try reflexivity.
  intros H. apply andb_true_iff in H as [H _]. apply Z.eqb_eq in H. now subst.
Qed.

Lemma path_eqb_is_scratch (p q : path) :
  path_eqb p q = true -> is_scratch p = is_scratch q.
Proof. destruct p, q; simpl; try discriminate; reflexivity. Qed.

Lemma frame_files_remove_other (p : path) (d : list (path * content)) :
  frame_index p = None -> frame_files (fs_remove p d) = frame_files d.
Proof.
  intros Hp. induction d as [|[q c] d IH]; simpl; [reflexivity|].
  destruct (path_eqb q p) eqn:Eq; simpl.
  - apply path_eqb_frame_index in Eq. rewrite Eq, Hp. exact IH.
  - rewrite IH. reflexivity.
Qed.

(** Removing a frame file whose sequence number is above all those present
    removes nothing. *)
Lemma frame_files_remove_fresh (i t : Z) (d : list (path * content)) :
  Forall (fun j => j < i) (frame_files d) ->
  frame_files (fs_remove (FrameJpg i t) d) = frame_files d.
Proof.
  induction d as [|[q c] d IH]; simpl; intros H; [reflexivity|].
  destruct (path_eqb q (FrameJpg i t)) eqn:Eq; simpl.
  - apply path_eqb_frame_index in Eq. simpl in Eq. rewrite Eq in H.
    inversion H; subst. lia.
  - destruct (frame_index q); [inversion H; subst; f_equal|]; now apply IH.
Qed.

Lemma frame_files_remove_length (p : path) (d : list (path * content)) :
  (length (frame_files (fs_remove p d)) <= length (frame_files d))%nat.
Proof.
  induction d as [|[q c] d IH]; simpl; [lia|].
  destruct (path_eqb q p); simpl; destruct (frame_index q); simpl; lia.
Qed.

Lemma scratch_files_remove_other (p : path) (d : list (path * content)) :
  is_scratch p = false -> scratch_files (fs_remove p d) = scratch_files d.
Proof.
  intros Hp. induction d as [|[q c] d IH]; simpl; [reflexivity|].
  destruct (path_eqb q p) eqn:Eq; simpl.
  - apply path_eqb_is_scratch in Eq. rewrite Eq, Hp. exact IH.
  - rewrite IH. reflexivity.
Qed.

Lemma scratch_files_remove_nil (p : path) (d : list (path * content)) :
  scratch_files d = [] -> scratch_files (fs_remove p d) = [].
Proof.
  induction d as [|[q c] d IH]; simpl; [reflexivity|].
  destruct (is_scratch q) eqn:Es; [discriminate|]. intros H.
  destruct (path_eqb q p); simpl; [|rewrite Es]; now apply IH.
Qed.

Lemma fs_remove_idem (p : path) (d : list (path * content)) :
  fs_remove p (fs_remove p d) = fs_remove p d.
Proof.
  induction d as [|[q c] d IH]; simpl; [reflexivity|].
  destruct (path_eqb q p) eqn:Eq; simpl; [exact IH|].
  rewrite Eq. simpl. now rewrite IH.
Qed.

Lemma fs_remove_absent (p : path) (d : list (path * content)) :
  existsb (fun e => path_eqb (fst e) p) d = false -> fs_remove p d = d.
Proof.
  induction d as [|[q c] d IH]; simpl; [reflexivity|].
  intros H. apply orb_false_iff in H as [H1 H2]. rewrite H1. simpl.
  now rewrite IH.
Qed.

Lemma fs_lookup_remove (p : path) (d : list (path * content)) :
  fs_lookup p (fs_remove p d) = None.
Proof.
  induction d as [|[q c] d IH]; simpl; [reflexivity|].
  destruct (path_eqb q p) eqn:Eq; simpl; [exact IH|]. now rewrite Eq.
Qed.

(** The [finally] clause leaves the directory without the scratch file,
    whether it was there or not. *)
Lemma cleanup_fs (p : path) (w : world) :
  fs (cleanup p w) = fs_remove p (fs w).
Proof.
  unfold cleanup. destruct (fs_exists p w) eqn:Ex; simpl; [reflexivity|].
  unfold fs_exists in Ex. now rewrite fs_remove_absent.
Qed.

Lemma cleanup_trace (p : path) (w : world) : trace (cleanup p w) = trace w.
Proof. unfold cleanup. now destruct (fs_exists p w). Qed.

Lemma cleanup_ticks (p : path) (w : world) : ticks (cleanup p w) = ticks w.
Proof. unfold cleanup. now destruct (fs_exists p w). Qed.

(** ** Sequence numbers: [down] *)

Lemma down_succ (off : Z) (k : Z) :
  0 <= k -> down off (Z.to_nat (k + 1)) = (off + k + 1) :: down off (Z.to_nat k).
Proof.
  intros Hk. replace (Z.to_nat (k + 1)) with (S (Z.to_nat k)) by lia.
  simpl down. f_equal. lia.
Qed.

Lemma down_app (off : Z) (a b : nat) :
  down off (a + b) = down (off + Z.of_nat a) b ++ down off a.
Proof.
  induction b as [|b IH].
  - rewrite Nat.add_0_r. reflexivity.
  - rewrite Nat.add_succ_r. simpl down. rewrite IH. simpl. f_equal. lia.
Qed.

Lemma down_bound (off : Z) (k : nat) :
  Forall (fun j => off < j <= off + Z.of_nat k) (down off k).
Proof.
  induction k as [|k IH]; simpl; constructor; [lia|].
  eapply Forall_impl; [|exact IH]. simpl. intros; lia.
Qed.

Lemma down_length (off : Z) (k : nat) : length (down off k) = k.
Proof. induction k; simpl; congruence. Qed.

(** ** How one step changes what a session leaves *)

Lemma grows_same (off : Z) (w w' : world) :
  frame_files (fs w') = frame_files (fs w) ->
  saved (trace w') = saved (trace w) ->
  scratch_files (fs w') = scratch_files (fs w) ->
  grows off 0 w w'.
Proof. intros; constructor; simpl; assumption. Qed.

Lemma grows_refl (off : Z) (w : world) : grows off 0 w w.
Proof. now apply grows_same. Qed.

Lemma grows_trans (off a b : Z) (w w1 w2 : world) :
  0 <= a -> 0 <= b ->
  grows off a w w1 -> grows (off + a) b w1 w2 -> grows off (a + b) w w2.
Proof.
  intros Ha Hb [F1 S1 T1] [F2 S2 T2].
  assert (D : down off (Z.to_nat (a + b))
              = down (off + a) (Z.to_nat b) ++ down off (Z.to_nat a)).
  { rewrite Z2Nat.inj_add by lia. rewrite down_app. now rewrite Z2Nat.id by lia. }
  constructor.
  - rewrite F2, F1, D. now rewrite app_assoc.
  - rewrite S2, S1, D. now rewrite app_assoc.
  - congruence.
Qed.

Lemma grows_one (off : Z) (w w' : world) :
  frame_files (fs w') = (off + 1) :: frame_files (fs w) ->
  saved (trace w') = (off + 1) :: saved (trace w) ->
  scratch_files (fs w') = scratch_files (fs w) ->
  grows off 1 w w'.
Proof. intros; constructor; simpl; assumption. Qed.

Lemma fresh_grows (off k : Z) (w w' : world) :
  0 <= k -> fresh off w -> grows off k w w' -> fresh (off + k) w'.
Proof.
  intros Hk Hf [F _ _]. unfold fresh in *. rewrite F.
  apply Forall_app. split.
  - eapply Forall_impl; [|apply down_bound]. simpl. intros; lia.
  - eapply Forall_impl; [|exact Hf]. simpl. intros; lia.
Qed.

Lemma fresh_lt (n i : Z) (w : world) :
  n < i -> fresh n w -> Forall (fun j => j < i) (frame_files (fs w)).
Proof.
  intros Hn Hf. eapply Forall_impl; [|exact Hf]. simpl. intros; lia.
Qed.

(** Splits [a <= b /\ c <= d /\ G], solves both bounds and leaves [G]. *)
Ltac bounds := split; [lia | split; [lia | ]].

Section Strategies.

Variable E : env.

(** *** The container trial decoder *)

Lemma read_frames_grows (frame_offset max_frames : Z) (reads : list read_outcome) :
  forall frame_count c w s c' w',
    fresh (frame_offset + c) w ->
    read_frames E reads frame_offset max_frames frame_count c w = (s, c', w') ->
    c <= c' /\ c' - c <= Z.max 0 (max_frames - frame_count) /\
    grows (frame_offset + c) (c' - c) w w'.
Proof.
  induction reads as [|r reads IH]; intros fc c w s c' w' Hf H; simpl in H;
    destruct (fc <? max_frames) eqn:G;
    try (injection H as <- <- <-; rewrite Z.sub_diag;
         bounds; now apply grows_same).
  apply Z.ltb_lt in G.
  destruct r as [frame| |];
    try (injection H as <- <- <-; rewrite Z.sub_diag;
         bounds; now apply grows_same).
  set (ts := clock E (S (ticks w))) in *.
  set (idx := frame_offset + c + 1) in *.
  destruct (cv_imwrite E (S (S (ticks w))) (FrameJpg idx ts) frame) eqn:W.
  - apply IH in H.
    + destruct H as (H1 & H2 & H3). bounds.
      replace (c' - c) with (1 + (c' - (c + 1))) by lia.
      eapply grows_trans; [lia|lia| |].
      2:{ replace (frame_offset + c + 1) with (frame_offset + (c + 1)) by lia.
          exact H3. }
      apply grows_one; simpl; try reflexivity.
      * fold idx. f_equal. apply frame_files_remove_fresh.
        apply (fresh_lt (frame_offset + c)); [unfold idx; lia|exact Hf].
      * now apply scratch_files_remove_other.
    + unfold fresh. simpl. constructor; [unfold idx; lia|].
      rewrite frame_files_remove_fresh
        by (apply (fresh_lt (frame_offset + c)); [unfold idx; lia|exact Hf]).
      eapply Forall_impl; [|exact Hf]. simpl. intros; lia.
  - apply IH in H; [|exact Hf].
    destruct H as (H1 & H2 & H3). bounds.
    replace (c' - c) with (0 + (c' - c)) by lia.
    eapply grows_trans; [lia|lia| |].
    2:{ rewrite Z.add_0_r. exact H3. }
    now apply grows_same.
  - injection H as <- <- <-. rewrite Z.sub_diag.
    bounds. now apply grows_same.
Qed.

Lemma scratch_files_remove (p : path) (d : list (path * content)) :
  scratch_files (fs_remove p d)
  = filter (fun q => negb (path_eqb q p)) (scratch_files d).
Proof.
  induction d as [|[q c] d IH]; simpl; [reflexivity|].
  destruct (path_eqb q p) eqn:Eq; simpl; destruct (is_scratch q); simpl;
    rewrite ?Eq; simpl; now rewrite ?IH.
Qed.

(** A strategy that writes its scratch file [p] into a directory without
    scratch files, saves [k] frames and runs its [finally] clause leaves a
    directory without scratch files. *)
Lemma grows_cleanup (off k : Z) (p : path) (c : content) (w w0 w1 : world) :
  is_scratch p = true ->
  scratch_files (fs w) = [] ->
  fs w0 = (p, c) :: fs_remove p (fs w) ->
  saved (trace w0) = saved (trace w) ->
  grows off k w0 w1 ->
  grows off k w (cleanup p w1).
Proof.
  intros Hp Hs Hfs Htr [F S T].
  assert (Np : frame_index p = None) by (destruct p; simpl in *; congruence).
  constructor.
  - rewrite cleanup_fs, frame_files_remove_other, F, Hfs by exact Np.
    simpl. rewrite Np. now rewrite frame_files_remove_other.
  - rewrite cleanup_trace, S, Htr. reflexivity.
  - rewrite cleanup_fs, scratch_files_remove, T, Hfs. simpl. rewrite Hp.
    rewrite scratch_files_remove_nil by exact Hs. simpl.
    rewrite path_eqb_refl, Hs. reflexivity.
Qed.

Lemma try_format_body_grows (stream_buffer : bytes) (frame_offset : Z)
    (fmt : format) (w : world) (s : signal) (c1 : Z) (w1 : world) :
  fresh frame_offset w ->
  scratch_files (fs w) = [] ->
  try_format_body E stream_buffer frame_offset fmt 0 w = (s, c1, w1) ->
  0 <= c1 /\ c1 <= 5 /\ (s = Break -> 0 < c1) /\
  grows frame_offset c1 w
    (cleanup (TempStream frame_offset fmt)
       (match s with Raised => log (LogFormatError fmt) w1 | _ => w1 end)).
Proof.
  intros Hf Hs H. unfold try_format_body in H.
  set (tp := TempStream frame_offset fmt) in *.
  set (w0 := log (CallVideoCapture tp) (fs_write tp (Raw stream_buffer) w)) in *.
  assert (F0 : fs w0 = (tp, Raw stream_buffer) :: fs_remove tp (fs w)) by reflexivity.
  assert (S0 : saved (trace w0) = saved (trace w)) by reflexivity.
  destruct (cv_VideoCapture E (ticks w0) tp stream_buffer) as [|[|] reads] eqn:C.
  - injection H as <- <- <-. bounds. split; [discriminate|].
    eapply grows_cleanup; eauto. now apply grows_same.
  - destruct (read_frames E reads frame_offset (Z.min 5 (10 - frame_offset)) 0 0
                (log (LogOpened fmt) (tick w0))) as [[s' c'] w'] eqn:R.
    apply read_frames_grows in R.
    2:{ unfold fresh. simpl. rewrite frame_files_remove_other by reflexivity.
        now rewrite Z.add_0_r. }
    destruct R as (R1 & R2 & R3).
    rewrite Z.add_0_r, Z.sub_0_r in R3.
    assert (G : grows frame_offset c' w0 w').
    { destruct R3 as [F S T]. constructor; [exact F|exact S|exact T]. }
    assert (G' : forall e, saved_index e = None -> grows frame_offset c' w0 (log e w')).
    { intros e He. destruct G as [F S T].
      constructor; simpl; [exact F|now rewrite He|exact T]. }
    destruct s'.
    + destruct (0 <? c') eqn:P; [apply Z.ltb_lt in P|apply Z.ltb_ge in P];
        injection H as <- <- <-;
        (split; [lia|split; [lia|split; [intros X; try discriminate X; lia|]]]);
        eapply grows_cleanup; eauto.
    + destruct (0 <? c') eqn:P; [apply Z.ltb_lt in P|apply Z.ltb_ge in P];
        injection H as <- <- <-;
        (split; [lia|split; [lia|split; [intros X; try discriminate X; lia|]]]);
        eapply grows_cleanup; eauto.
    + injection H as <- <- <-.
      split; [lia|split; [lia|split; [discriminate|]]].
      eapply grows_cleanup; eauto.
  - injection H as <- <- <-. bounds. split; [discriminate|].
    eapply grows_cleanup; eauto. now apply grows_same.
Qed.

Lemma try_format_grows (stream_buffer : bytes) (frame_offset : Z)
    (fmt : format) (w : world) (s : signal) (c1 : Z) (w1 : world) :
  fresh frame_offset w ->
  scratch_files (fs w) = [] ->
  try_format E stream_buffer frame_offset fmt 0 w = (s, c1, w1) ->
  0 <= c1 /\ c1 <= 5 /\ (s = Break -> 0 < c1) /\ grows frame_offset c1 w w1.
Proof.
  intros Hf Hs H. unfold try_format in H.
  destruct (try_format_body E stream_buffer frame_offset fmt 0
              (log (LogTryFormat fmt) w)) as [[s' c'] w'] eqn:B.
  injection H as <- <- <-.
  apply try_format_body_grows in B; [|exact Hf|exact Hs].
  destruct B as (B1 & B2 & B3 & [F S T]).
  repeat split; try lia; assumption.
Qed.

Lemma try_formats_grows (stream_buffer : bytes) (frame_offset : Z)
    (fmts : list format) :
  forall c w c' w',
    0 <= c ->
    fresh (frame_offset + c) w ->
    scratch_files (fs w) = [] ->
    try_formats E stream_buffer frame_offset fmts c w = (c', w') ->
    c <= c' /\ c' <= Z.max c 5 /\ grows (frame_offset + c) (c' - c) w w'.
Proof.
  induction fmts as [|fmt fmts IH]; intros c w c' w' Hc Hf Hs H; simpl in H.
  - injection H as <- <-. rewrite Z.sub_diag. bounds. apply grows_refl.
  - destruct (0 <? c) eqn:G; [apply Z.ltb_lt in G|apply Z.ltb_ge in G].
    + injection H as <- <-. rewrite Z.sub_diag. bounds. apply grows_refl.
    + assert (c = 0) by lia. subst c. rewrite Z.add_0_r in *. rewrite Z.sub_0_r.
      destruct (try_format E stream_buffer frame_offset fmt 0 w)
        as [[s c1] w1] eqn:B.
      apply try_format_grows in B; [|exact Hf|exact Hs].
      destruct B as (B1 & B2 & B3 & B4).
      assert (K : forall c' w',
                 try_formats E stream_buffer frame_offset fmts c1 w1 = (c', w') ->
                 0 <= c' /\ c' <= Z.max 0 5 /\ grows frame_offset c' w w').
      { intros c2 w2 H2. apply IH in H2; try lia.
        - destruct H2 as (K1 & K2 & K3). bounds.
          replace c2 with (c1 + (c2 - c1)) by lia.
          eapply grows_trans; eauto; lia.
        - eapply fresh_grows; eauto.
        - rewrite (grows_scratch _ _ _ _ B4). exact Hs. }
      destruct s.
      * now apply K.
      * injection H as <- <-. bounds. exact B4.
      * now apply K.
Qed.

(** *** The embedded-image scanner *)

Lemma save_jpeg_grows (jpeg_data : bytes) (frame_offset c : Z) (w : world)
    (c' : Z) (w' : world) :
  fresh (frame_offset + c) w ->
  save_jpeg E jpeg_data frame_offset c w = (c', w') ->
  c <= c' /\ c' <= c + 1 /\ grows (frame_offset + c) (c' - c) w w'.
Proof.
  intros Hf H. unfold save_jpeg in H. simpl in H.
  set (idx := frame_offset + c + 1) in *.
  set (p := FrameJpg idx (clock E (ticks w))) in *.
  assert (Fr : frame_files (fs_remove p (fs w)) = frame_files (fs w)).
  { apply frame_files_remove_fresh.
    apply (fresh_lt (frame_offset + c)); [unfold idx; lia|exact Hf]. }
  assert (Sc : scratch_files (fs_remove p (fs w)) = scratch_files (fs w))
    by now apply scratch_files_remove_other.
  destruct (cv_imread E (S (ticks w)) p jpeg_data).
  - injection H as <- <-. bounds.
    replace (c + 1 - c) with 1 by lia.
    apply grows_one; simpl; [now rewrite Fr|reflexivity|exact Sc].
  - injection H as <- <-. rewrite Z.sub_diag. bounds.
    apply grows_same; simpl; rewrite ?Z.eqb_refl; simpl;
      rewrite ?fs_remove_idem; auto.
  - unfold fs_exists in H. simpl in H. rewrite !Z.eqb_refl in H. simpl in H.
    injection H as <- <-. rewrite Z.sub_diag. bounds.
    apply grows_same; simpl; rewrite ?Z.eqb_refl; simpl;
      rewrite ?fs_remove_idem; auto.
Qed.

Lemma jpeg_loop_grows (buffer : bytes) (frame_offset : Z) (fuel : nat) :
  forall pos c w c' w',
    0 <= c ->
    fresh (frame_offset + c) w ->
    jpeg_loop E fuel buffer frame_offset pos c w = Some (c', w') ->
    c <= c' /\ c' <= Z.max c 5 /\ grows (frame_offset + c) (c' - c) w w'.
Proof.
  induction fuel as [|fuel IH]; intros pos c w c' w' Hc Hf H; simpl in H;
    [discriminate|].
  destruct ((pos <? blen buffer - 1000) && (c <? 5)) eqn:G.
  2:{ injection H as <- <-. rewrite Z.sub_diag. bounds. apply grows_refl. }
  apply andb_true_iff in G as [_ G]. apply Z.ltb_lt in G.
  destruct (bytes_find jpeg_start buffer pos =? -1).
  { injection H as <- <-. rewrite Z.sub_diag. bounds. apply grows_refl. }
  destruct (bytes_find jpeg_end buffer (bytes_find jpeg_start buffer pos + 2) =? -1).
  { now apply IH in H. }
  destruct (save_jpeg E _ frame_offset c w) as [c1 w1] eqn:S.
  apply save_jpeg_grows in S; [|exact Hf]. destruct S as (S1 & S2 & S3).
  apply IH in H; [|lia|].
  - destruct H as (H1 & H2 & H3). bounds.
    replace (c' - c) with ((c1 - c) + (c' - c1)) by lia.
    eapply grows_trans; eauto; try lia.
    now replace (frame_offset + c + (c1 - c)) with (frame_offset + c1) by lia.
  - replace (frame_offset + c1) with (frame_offset + c + (c1 - c)) by lia.
    eapply fresh_grows; eauto. lia.
Qed.

(** The scan stops: [pos] moves forward at every iteration, and no
    iteration starts at or after [len(buffer) - 1000]. *)
Lemma jpeg_loop_total (buffer : bytes) (frame_offset : Z) (fuel : nat) :
  forall pos c w,
    0 <= pos ->
    (Z.to_nat (blen buffer - pos) < fuel)%nat ->
    exists r, jpeg_loop E fuel buffer frame_offset pos c w = Some r.
Proof.
  induction fuel as [|fuel IH]; intros pos c w Hp Hfuel; [lia|]. simpl.
  destruct ((pos <? blen buffer - 1000) && (c <? 5)) eqn:G; [|eauto].
  apply andb_true_iff in G as [G _]. apply Z.ltb_lt in G.
  destruct (bytes_find_range jpeg_start buffer pos Hp) as [R|R].
  { rewrite R. simpl. eauto. }
  destruct (bytes_find jpeg_start buffer pos =? -1); [eauto|].
  set (start_pos := bytes_find jpeg_start buffer pos) in *.
  destruct (bytes_find_range jpeg_end buffer (start_pos + 2)) as [R'|R']; [lia| |].
  { rewrite R'. simpl. apply IH; lia. }
  destruct (bytes_find jpeg_end buffer (start_pos + 2) =? -1); [apply IH; lia|].
  destruct (save_jpeg E _ frame_offset c w) as [c1 w1]. apply IH; lia.
Qed.

Lemma _extract_jpeg_from_buffer_grows (buffer : bytes) (frame_offset : Z)
    (w : world) (n : Z) (w' : world) :
  fresh frame_offset w ->
  _extract_jpeg_from_buffer E buffer frame_offset w = (n, w') ->
  0 <= n /\ n <= 5 /\ grows frame_offset n w w'.
Proof.
  intros Hf H. unfold _extract_jpeg_from_buffer in H.
  destruct (jpeg_loop_total buffer frame_offset (jpeg_fuel buffer) 0 0
              (log LogJpegScan w)) as [[n1 w1] T]; [lia|unfold jpeg_fuel, blen; lia|].
  rewrite T in H. injection H as <- <-.
  apply jpeg_loop_grows in T; [|lia|now rewrite Z.add_0_r].
  rewrite Z.add_0_r, Z.sub_0_r in T. destruct T as (T1 & T2 & [F S C]).
  bounds. constructor; [exact F|exact S|exact C].
Qed.

(** *** The raw codec-unit scanner *)

Lemma _try_decode_raw_frame_grows (frame_data : bytes) (frame_index : Z)
    (ft : frame_type) (w : world) (success : bool) (w' : world) :
  fresh frame_index w ->
  scratch_files (fs w) = [] ->
  _try_decode_raw_frame E frame_data frame_index ft w = (success, w') ->
  grows frame_index (if success then 1 else 0) w w'.
Proof.
  intros Hf Hs H. unfold _try_decode_raw_frame in H.
  set (ch := match ft with h264 => (mp4, []) | vp => (webm, ebml_header) end) in *.
  destruct ch as [container_ext header].
  set (tp := TempRaw frame_index container_ext) in *.
  unfold decode_raw_body in H.
  set (w0 := log (CallVideoCapture tp) (fs_write tp (Raw (header ++ frame_data)) w)) in *.
  assert (F0 : fs w0 = (tp, Raw (header ++ frame_data)) :: fs_remove tp (fs w))
    by reflexivity.
  assert (S0 : saved (trace w0) = saved (trace w)) by reflexivity.
  assert (Fr : forall t,
             frame_files (fs_remove (FrameJpg (frame_index + 1) t) (fs w0))
             = frame_files (fs w0)).
  { intros t. apply frame_files_remove_fresh. rewrite F0. simpl.
    rewrite frame_files_remove_other by reflexivity.
    apply (fresh_lt frame_index); [lia|exact Hf]. }
  assert (Same : forall w1, fs w1 = fs w0 -> saved (trace w1) = saved (trace w0) ->
                   grows frame_index 0 w (cleanup tp w1)).
  { intros w1 H1 H2. eapply grows_cleanup; eauto.
    apply grows_same; congruence. }
  destruct (cv_VideoCapture E (ticks w0) tp (header ++ frame_data))
    as [|opened reads].
  { injection H as <- <-. now apply Same. }
  destruct (if opened then reads else []) as [|[frame| |] reads'].
  - injection H as <- <-. now apply Same.
  - simpl in H.
    destruct (cv_imwrite E _ _ frame).
    + injection H as <- <-. eapply grows_cleanup; eauto.
      apply grows_one; simpl.
      * f_equal. apply Fr.
      * reflexivity.
      * f_equal. now apply scratch_files_remove_other.
    + injection H as <- <-. now apply Same.
    + injection H as <- <-. now apply Same.
  - injection H as <- <-. now apply Same.
  - injection H as <- <-. now apply Same.
Qed.

Lemma next_frame_range (buffer : bytes) (pos : Z) (sigs : list (bytes * frame_type)) :
  0 <= pos ->
  forall found p ft,
    (forall p0 ft0, found = Some (p0, ft0) -> pos <= p0) ->
    next_frame sigs buffer pos found = Some (p, ft) -> pos <= p.
Proof.
  intros Hp. induction sigs as [|[sig ft1] sigs IH]; intros found p ft Hfound H.
  - simpl in H. eauto.
  - simpl in H. apply IH in H; [exact H|].
    intros p0 ft0. destruct (bytes_find_range sig buffer pos Hp) as [R|R].
    + rewrite R. simpl. apply Hfound.
    + destruct (bytes_find sig buffer pos =? -1); [apply Hfound|].
      destruct found as [[q ftq]|].
      * destruct (bytes_find sig buffer pos <? q).
        -- intros X. injection X as <- <-. lia.
        -- apply Hfound.
      * intros X. injection X as <- <-. lia.
Qed.

Lemma raw_step_grows (buffer : bytes) (frame_offset pos c : Z) (w : world)
    (pos' c' : Z) (w' : world) :
  0 <= pos ->
  fresh (frame_offset + c) w ->
  scratch_files (fs w) = [] ->
  raw_step E buffer frame_offset pos c w = Some (pos', c', w') ->
  pos + 1000 <= pos' /\ c <= c' /\ c' <= c + 1 /\
  grows (frame_offset + c) (c' - c) w w'.
Proof.
  intros Hp Hf Hs H. unfold raw_step in H.
  destruct (next_frame all_signatures buffer pos None) as [[p ft]|] eqn:N;
    [|discriminate].
  apply next_frame_range in N; [|exact Hp|discriminate].
  destruct (_try_decode_raw_frame E _ (frame_offset + c) ft
              (log (LogRawCandidate ft p) w)) as [success w1] eqn:D.
  apply _try_decode_raw_frame_grows in D; [|exact Hf|exact Hs].
  injection H as <- <- <-.
  assert (G : grows (frame_offset + c) (if success then 1 else 0) w w1).
  { destruct D as [F S T]. constructor; [exact F|exact S|exact T]. }
  destruct success; (split; [lia|bounds]).
  - now replace (c + 1 - c) with 1 by lia.
  - now rewrite Z.sub_diag.
Qed.

Lemma raw_loop_grows (buffer : bytes) (frame_offset : Z) (fuel : nat) :
  forall pos c w c' w',
    0 <= pos -> 0 <= c ->
    fresh (frame_offset + c) w ->
    scratch_files (fs w) = [] ->
    raw_loop E fuel buffer frame_offset pos c w = Some (c', w') ->
    c <= c' /\ c' <= Z.max c 3 /\ grows (frame_offset + c) (c' - c) w w'.
Proof.
  induction fuel as [|fuel IH]; intros pos c w c' w' Hp Hc Hf Hs H; simpl in H;
    [discriminate|].
  destruct ((pos <? blen buffer - 10000) && (c <? 3)) eqn:G.
  2:{ injection H as <- <-. rewrite Z.sub_diag. bounds. apply grows_refl. }
  apply andb_true_iff in G as [_ G]. apply Z.ltb_lt in G.
  destruct (raw_step E buffer frame_offset pos c w) as [[[pos1 c1] w1]|] eqn:S.
  2:{ injection H as <- <-. rewrite Z.sub_diag. bounds. apply grows_refl. }
  apply raw_step_grows in S; auto. destruct S as (S0 & S1 & S2 & S3).
  apply IH in H; try lia.
  - destruct H as (H1 & H2 & H3). bounds.
    replace (c' - c) with ((c1 - c) + (c' - c1)) by lia.
    eapply grows_trans; eauto; try lia.
    now replace (frame_offset + c + (c1 - c)) with (frame_offset + c1) by lia.
  - replace (frame_offset + c1) with (frame_offset + c + (c1 - c)) by lia.
    eapply fresh_grows; eauto. lia.
  - rewrite (grows_scratch _ _ _ _ S3). exact Hs.
Qed.

Lemma raw_loop_total (buffer : bytes) (frame_offset : Z) (fuel : nat) :
  forall pos c w,
    0 <= pos ->
    (Z.to_nat (blen buffer - pos) < fuel)%nat ->
    exists r, raw_loop E fuel buffer frame_offset pos c w = Some r.
Proof.
  induction fuel as [|fuel IH]; intros pos c w Hp Hfuel; [lia|]. simpl.
  destruct ((pos <? blen buffer - 10000) && (c <? 3)) eqn:G; [|eauto].
  apply andb_true_iff in G as [G _]. apply Z.ltb_lt in G.
  destruct (raw_step E buffer frame_offset pos c w) as [[[pos1 c1] w1]|] eqn:S;
    [|eauto].
  assert (pos + 1000 <= pos1).
  { unfold raw_step in S.
    destruct (next_frame all_signatures buffer pos None) as [[p ft]|] eqn:N;
      [|discriminate].
    apply next_frame_range in N; [|exact Hp|discriminate].
    destruct (_try_decode_raw_frame E _ (frame_offset + c) ft _).
    injection S as <- <- <-. lia. }
  apply IH; lia.
Qed.

Lemma _extract_raw_video_frames_grows (buffer : bytes) (frame_offset : Z)
    (w : world) (n : Z) (w' : world) :
  fresh frame_offset w ->
  scratch_files (fs w) = [] ->
  _extract_raw_video_frames E buffer frame_offset w = (n, w') ->
  0 <= n /\ n <= 3 /\ grows frame_offset n w w'.
Proof.
  intros Hf Hs H. unfold _extract_raw_video_frames in H.
  destruct (raw_loop_total buffer frame_offset (raw_fuel buffer) 0 0
              (log LogRawScan w)) as [[n1 w1] T]; [lia|unfold raw_fuel, blen; lia|].
  rewrite T in H. injection H as <- <-.
  apply raw_loop_grows in T; try lia; [|now rewrite Z.add_0_r|exact Hs].
  rewrite Z.add_0_r, Z.sub_0_r in T. destruct T as (T1 & T2 & [F S C]).
  bounds. constructor; [exact F|exact S|exact C].
Qed.

(** *** The cascade *)

Lemma _extract_frames_from_stream_buffer_grows (stream_buffer : bytes)
    (frame_offset : Z) (w : world) (n : Z) (w' : world) :
  fresh frame_offset w ->
  scratch_files (fs w) = [] ->
  _extract_frames_from_stream_buffer E stream_buffer frame_offset w = (n, w') ->
  0 <= n /\ n <= 5 /\ grows frame_offset n w w'.
Proof.
  intros Hf Hs H. unfold _extract_frames_from_stream_buffer in H.
  destruct (try_formats E stream_buffer frame_offset video_formats 0 w)
    as [c1 w1] eqn:T.
  apply try_formats_grows in T; [|lia|now rewrite Z.add_0_r|exact Hs].
  rewrite Z.add_0_r, Z.sub_0_r in T. destruct T as (T1 & T2 & T3).
  assert (T4 : grows frame_offset c1 w w1).
  { destruct T3 as [F S C]. constructor; [exact F|exact S|exact C]. }
  destruct (c1 =? 0) eqn:Z1; [apply Z.eqb_eq in Z1|apply Z.eqb_neq in Z1].
  2:{ assert (Z2 : (c1 =? 0) = false) by now apply Z.eqb_neq.
      rewrite Z2 in H. injection H as <- <-. bounds. exact T4. }
  subst c1.
  assert (Hf1 : fresh frame_offset w1).
  { rewrite <- (Z.add_0_r frame_offset). eapply fresh_grows; eauto; lia. }
  assert (Hs1 : scratch_files (fs w1) = []).
  { rewrite (grows_scratch _ _ _ _ T4). exact Hs. }
  destruct (_extract_jpeg_from_buffer E stream_buffer frame_offset w1)
    as [c2 w2] eqn:J.
  apply _extract_jpeg_from_buffer_grows in J; [|exact Hf1].
  destruct J as (J1 & J2 & J3).
  assert (J4 : grows frame_offset c2 w w2).
  { replace c2 with (0 + c2) by lia. eapply grows_trans; eauto; try lia.
    now rewrite Z.add_0_r. }
  simpl in H.
  destruct (c2 =? 0) eqn:Z2; [apply Z.eqb_eq in Z2|apply Z.eqb_neq in Z2].
  2:{ injection H as <- <-. bounds. exact J4. }
  subst c2.
  destruct (_extract_raw_video_frames E stream_buffer frame_offset w2)
    as [c3 w3] eqn:R.
  apply _extract_raw_video_frames_grows in R.
  - destruct R as (R1 & R2 & R3). simpl in H. injection H as <- <-. bounds.
    replace c3 with (0 + c3) by lia. eapply grows_trans; eauto; try lia.
    now rewrite Z.add_0_r.
  - rewrite <- (Z.add_0_r frame_offset). eapply fresh_grows; eauto; lia.
  - rewrite (grows_scratch _ _ _ _ J4). exact Hs.
Qed.

(** *** The session *)

Lemma session_inv_fresh (st : loop_state) (w : world) :
  session_inv st w -> fresh (frames_extracted st) w.
Proof.
  intros [N _ F _ _]. unfold fresh. rewrite F.
  eapply Forall_impl; [|apply down_bound]. simpl. intros; lia.
Qed.

Lemma session_inv_same (st st' : loop_state) (w w' : world) :
  frames_extracted st' = frames_extracted st ->
  saved_count st' = saved_count st ->
  fs w' = fs w -> saved (trace w') = saved (trace w) ->
  session_inv st w -> session_inv st' w'.
Proof.
  intros H1 H2 H3 H4 [N C F S T].
  constructor; rewrite ?H1, ?H2, ?H3, ?H4; assumption.
Qed.

Lemma extract_and_count_inv (st : loop_state) (w : world)
    (st' : loop_state) (w' : world) :
  session_inv st w ->
  extract_and_count E st w = (st', w') ->
  session_inv st' w' /\
  frames_extracted st <= frames_extracted st' <= frames_extracted st + 5 /\
  total_bytes_read st' = total_bytes_read st /\
  chunk_count st' = chunk_count st /\
  stream_buffer st' = stream_buffer st.
Proof.
  intros I H. unfold extract_and_count in H.
  destruct (_extract_frames_from_stream_buffer E (stream_buffer st)
              (frames_extracted st) w) as [n w1] eqn:X.
  apply _extract_frames_from_stream_buffer_grows in X;
    [|now apply session_inv_fresh|now destruct I].
  destruct X as (X1 & X2 & [F S T]). destruct I as [N C IF IS IT].
  assert (D : down 0 (Z.to_nat (frames_extracted st + n))
              = down (frames_extracted st) (Z.to_nat n)
                ++ down 0 (Z.to_nat (frames_extracted st))).
  { rewrite Z2Nat.inj_add by lia. rewrite down_app.
    now rewrite Z2Nat.id by lia. }
  destruct (0 <? n) eqn:P; injection H as <- <-; simpl.
  - repeat split; simpl; try lia; try congruence.
  - apply Z.ltb_ge in P. assert (n = 0) by lia. subst n.
    rewrite Z.add_0_r in D. simpl in F, S.
    repeat split; simpl; try lia; try congruence.
Qed.

Lemma on_chunk_inv (chunk : bytes) (st : loop_state) (w : world)
    (st' : loop_state) (w' : world) :
  session_inv st w ->
  on_chunk E chunk st w = (st', w') ->
  session_inv st' w' /\
  frames_extracted st <= frames_extracted st' <= frames_extracted st + 5.
Proof.
  intros I H. unfold on_chunk in H. simpl in H.
  destruct (((chunk_count st + 1) mod 3 =? 0)
            && (200000 <? blen (stream_buffer st ++ chunk))).
  - destruct (extract_and_count E _ w) as [st1 w1] eqn:X.
    apply extract_and_count_inv in X.
    + destruct X as (X1 & X2 & _). simpl in X2. injection H as <- <-.
      split; [|exact X2].
      now apply (session_inv_same st1 _ w1 _).
    + now apply (session_inv_same st _ w _).
  - injection H as <- <-. split; [|simpl; lia].
    now apply (session_inv_same st _ w _).
Qed.

Lemma read_loop_inv (cfg : config) (process_start_time : Z)
    (stream_payload : list read_result) :
  forall st w st' w',
    session_inv st w ->
    read_loop E cfg stream_payload process_start_time st w = (st', w') ->
    session_inv st' w' /\
    frames_extracted st <= frames_extracted st'
      <= Z.max (frames_extracted st) (max_frames cfg + 4).
Proof.
  induction stream_payload as [|r rest IH]; intros st w st' w' I H; simpl in H.
  - destruct (frames_extracted st <? max_frames cfg);
      [destruct (60000 <? _)|]; injection H as <- <-;
      (split; [now apply (session_inv_same st _ w _)|lia]).
  - destruct (frames_extracted st <? max_frames cfg) eqn:G.
    2:{ injection H as <- <-. split; [exact I|lia]. }
    apply Z.ltb_lt in G.
    destruct (60000 <? _).
    { injection H as <- <-. split; [now apply (session_inv_same st _ w _)|lia]. }
    destruct r as [[|x chunk]|];
      try (injection H as <- <-; split; [now apply (session_inv_same st _ w _)|lia]).
    destruct (on_chunk E (x :: chunk) st (tick w)) as [st1 w1] eqn:C.
    apply on_chunk_inv in C; [|now apply (session_inv_same st _ w _)].
    destruct C as (C1 & C2). apply IH in H; [|exact C1].
    destruct H as (H1 & H2). split; [exact H1|lia].
Qed.

Lemma final_attempt_inv (cfg : config) (st : loop_state) (w : world)
    (st' : loop_state) (w' : world) :
  session_inv st w ->
  final_attempt E cfg st w = (st', w') ->
  session_inv st' w' /\
  frames_extracted st <= frames_extracted st'
    <= Z.max (frames_extracted st) (max_frames cfg + 4) /\
  total_bytes_read st' = total_bytes_read st /\
  chunk_count st' = chunk_count st.
Proof.
  intros I H. unfold final_attempt in H.
  destruct ((50000 <? blen (stream_buffer st))
            && (frames_extracted st <? max_frames cfg)) eqn:G.
  - apply andb_true_iff in G as [_ G]. apply Z.ltb_lt in G.
    apply extract_and_count_inv in H; [|now apply (session_inv_same st _ w _)].
    destruct H as (H1 & H2 & H3 & H4 & _). repeat split; try lia; apply H1.
  - injection H as <- <-. repeat split; try lia; apply I.
Qed.

Lemma start_inv (others : list (string * content)) :
  session_inv (LoopState 0 0 0 0 []) (start others).
Proof.
  constructor; simpl; try reflexivity; try lia;
    induction others as [|o others IH]; simpl; auto.
Qed.

End Strategies.

(** ** The same steps, from any world *)

Lemma adds_same (off : Z) (w w' : world) :
  saved (trace w') = saved (trace w) ->
  incl (scratch_files (fs w')) (scratch_files (fs w)) ->
  (length (frame_files (fs w')) <= length (frame_files (fs w)))%nat ->
  adds off 0 w w'.
Proof. intros; constructor; simpl; try assumption; lia. Qed.

Lemma adds_refl (off : Z) (w : world) : adds off 0 w w.
Proof. apply adds_same; [reflexivity|apply incl_refl|lia]. Qed.

Lemma adds_trans (off a b : Z) (w w1 w2 : world) :
  0 <= a -> 0 <= b ->
  adds off a w w1 -> adds (off + a) b w1 w2 -> adds off (a + b) w w2.
Proof.
  intros Ha Hb [S1 T1 L1] [S2 T2 L2]. constructor.
  - rewrite S2, S1, Z2Nat.inj_add, down_app by lia.
    rewrite Z2Nat.id by lia. now rewrite app_assoc.
  - eapply incl_tran; eauto.
  - lia.
Qed.

Lemma adds_one (off : Z) (w w' : world) :
  saved (trace w') = (off + 1) :: saved (trace w) ->
  incl (scratch_files (fs w')) (scratch_files (fs w)) ->
  (length (frame_files (fs w')) <= S (length (frame_files (fs w))))%nat ->
  adds off 1 w w'.
Proof. intros; constructor; simpl; try assumption; lia. Qed.

Lemma write_frame_adds (i t : Z) (c : content) (d : list (path * content)) :
  incl (scratch_files ((FrameJpg i t, c) :: fs_remove (FrameJpg i t) d))
       (scratch_files d)
  /\ (length (frame_files ((FrameJpg i t, c) :: fs_remove (FrameJpg i t) d))
      <= S (length (frame_files d)))%nat.
Proof.
  simpl. rewrite scratch_files_remove_other by reflexivity.
  split; [apply incl_refl|].
  pose proof (frame_files_remove_length (FrameJpg i t) d). lia.
Qed.

Lemma adds_cleanup (off k : Z) (p : path) (c : content) (w w0 w1 : world) :
  is_scratch p = true ->
  fs w0 = (p, c) :: fs_remove p (fs w) ->
  saved (trace w0) = saved (trace w) ->
  adds off k w0 w1 ->
  adds off k w (cleanup p w1).
Proof.
  intros Hp Hfs Htr [S T L].
  assert (Np : frame_index p = None) by (destruct p; simpl in *; congruence).
  constructor.
  - rewrite cleanup_trace, S, Htr. reflexivity.
  - rewrite cleanup_fs, scratch_files_remove. intros q Hq.
    apply filter_In in Hq as [Hq Hne]. apply T in Hq.
    rewrite Hfs in Hq. simpl in Hq. rewrite Hp in Hq.
    destruct Hq as [<-|Hq]; [now rewrite path_eqb_refl in Hne|].
    rewrite scratch_files_remove in Hq. now apply filter_In in Hq as [Hq _].
  - rewrite cleanup_fs, frame_files_remove_other by exact Np.
    rewrite Hfs in L. simpl in L. rewrite Np in L.
    now rewrite frame_files_remove_other in L.
Qed.

(** Closes [adds off 0 w w'] when [w'] is [w] up to log lines that save
    nothing and to oracle calls. *)
Ltac adds_id := apply adds_same; simpl; [reflexivity | apply incl_refl | lia].

Section Counts.

Variable E : env.

Lemma read_frames_adds (frame_offset max_frames : Z) (reads : list read_outcome) :
  forall frame_count c w s c' w',
    read_frames E reads frame_offset max_frames frame_count c w = (s, c', w') ->
    c <= c' /\ c' - c <= Z.max 0 (max_frames - frame_count) /\
    adds (frame_offset + c) (c' - c) w w'.
Proof.
  induction reads as [|r reads IH]; intros fc c w s c' w' H; simpl in H;
    destruct (fc <? max_frames) eqn:G;
    try (injection H as <- <- <-; rewrite Z.sub_diag; bounds; adds_id).
  apply Z.ltb_lt in G.
  destruct r as [frame| |];
    try (injection H as <- <- <-; rewrite Z.sub_diag; bounds; adds_id).
  destruct (cv_imwrite E _ _ frame) eqn:W.
  - apply IH in H. destruct H as (H1 & H2 & H3). bounds.
    replace (c' - c) with (1 + (c' - (c + 1))) by lia.
    eapply adds_trans; [lia|lia| |].
    2:{ replace (frame_offset + c + 1) with (frame_offset + (c + 1)) by lia.
        exact H3. }
    apply adds_one; [reflexivity|apply write_frame_adds..].
  - apply IH in H. destruct H as (H1 & H2 & H3). bounds.
    replace (c' - c) with (0 + (c' - c)) by lia.
    eapply adds_trans; [lia|lia|adds_id|].
    rewrite Z.add_0_r.
    destruct H3 as [S T L]. constructor; [exact S|exact T|exact L].
  - injection H as <- <- <-. rewrite Z.sub_diag. bounds. adds_id.
Qed.

Lemma try_format_adds (stream_buffer : bytes) (frame_offset : Z)
    (fmt : format) (w : world) (s : signal) (c1 : Z) (w1 : world) :
  try_format E stream_buffer frame_offset fmt 0 w = (s, c1, w1) ->
  0 <= c1 /\ c1 <= 5 /\ (s = Break -> 0 < c1) /\ (s = Normal -> c1 = 0) /\
  adds frame_offset c1 w w1.
Proof.
  intros H. unfold try_format, try_format_body in H.
  set (tp := TempStream frame_offset fmt) in *.
  set (w0 := log (CallVideoCapture tp)
               (fs_write tp (Raw stream_buffer) (log (LogTryFormat fmt) w))) in *.
  assert (F0 : fs w0 = (tp, Raw stream_buffer) :: fs_remove tp (fs w)) by reflexivity.
  assert (S0 : saved (trace w0) = saved (trace w)) by reflexivity.
  destruct (cv_VideoCapture E (ticks w0) tp stream_buffer) as [|[|] reads] eqn:C.
  - injection H as <- <- <-.
    split; [lia|split; [lia|split; [discriminate|split; [discriminate|]]]].
    eapply adds_cleanup; eauto. adds_id.
  - destruct (read_frames E reads frame_offset (Z.min 5 (10 - frame_offset)) 0 0
                (log (LogOpened fmt) (tick w0))) as [[s' c'] w'] eqn:R.
    apply read_frames_adds in R. destruct R as (R1 & R2 & R3).
    rewrite Z.add_0_r, Z.sub_0_r in R3.
    assert (G : forall e, saved_index e = None -> adds frame_offset c' w0 (log e w')).
    { intros e He. destruct R3 as [S T L].
      constructor; simpl; [now rewrite He|exact T|exact L]. }
    assert (G0 : adds frame_offset c' w0 w').
    { destruct R3 as [S T L]. constructor; [exact S|exact T|exact L]. }
    destruct s'.
    + destruct (0 <? c') eqn:P; [apply Z.ltb_lt in P|apply Z.ltb_ge in P];
        injection H as <- <- <-;
        (split; [lia|split; [lia|split;
          [intros X; try discriminate X; lia
          |split; [intros X; try discriminate X; lia|]]]]);
        eapply adds_cleanup; eauto.
    + destruct (0 <? c') eqn:P; [apply Z.ltb_lt in P|apply Z.ltb_ge in P];
        injection H as <- <- <-;
        (split; [lia|split; [lia|split;
          [intros X; try discriminate X; lia
          |split; [intros X; try discriminate X; lia|]]]]);
        eapply adds_cleanup; eauto.
    + injection H as <- <- <-.
      split; [lia|split; [lia|split; [discriminate|split; [discriminate|]]]].
      eapply adds_cleanup; eauto.
  - injection H as <- <- <-.
    split; [lia|split; [lia|split; [discriminate|split; [reflexivity|]]]].
    eapply adds_cleanup; eauto. adds_id.
Qed.

Lemma try_formats_adds (stream_buffer : bytes) (frame_offset : Z)
    (fmts : list format) :
  forall c w c' w',
    0 <= c ->
    try_formats E stream_buffer frame_offset fmts c w = (c', w') ->
    c <= c' /\ c' <= Z.max c 5 /\ adds (frame_offset + c) (c' - c) w w'.
Proof.
  induction fmts as [|fmt fmts IH]; intros c w c' w' Hc H; simpl in H.
  - injection H as <- <-. rewrite Z.sub_diag. bounds. apply adds_refl.
  - destruct (0 <? c) eqn:G; [apply Z.ltb_lt in G|apply Z.ltb_ge in G].
    + injection H as <- <-. rewrite Z.sub_diag. bounds. apply adds_refl.
    + assert (c = 0) by lia. subst c. rewrite Z.add_0_r in *. rewrite Z.sub_0_r.
      destruct (try_format E stream_buffer frame_offset fmt 0 w)
        as [[s c1] w1] eqn:B.
      apply try_format_adds in B. destruct B as (B1 & B2 & B3 & _ & B4).
      assert (K : forall c' w',
                 try_formats E stream_buffer frame_offset fmts c1 w1 = (c', w') ->
                 0 <= c' /\ c' <= Z.max 0 5 /\ adds frame_offset c' w w').
      { intros c2 w2 H2. apply IH in H2; try lia.
        destruct H2 as (K1 & K2 & K3). bounds.
        replace c2 with (c1 + (c2 - c1)) by lia.
        eapply adds_trans; eauto; lia. }
      destruct s.
      * now apply K.
      * injection H as <- <-. bounds. exact B4.
      * now apply K.
Qed.

Lemma save_jpeg_adds (jpeg_data : bytes) (frame_offset c : Z) (w : world)
    (c' : Z) (w' : world) :
  save_jpeg E jpeg_data frame_offset c w = (c', w') ->
  c <= c' /\ c' <= c + 1 /\ adds (frame_offset + c) (c' - c) w w'.
Proof.
  intros H. unfold save_jpeg in H. simpl in H.
  set (p := FrameJpg (frame_offset + c + 1) (clock E (ticks w))) in *.
  assert (Sc : scratch_files (fs_remove p (fs w)) = scratch_files (fs w))
    by now apply scratch_files_remove_other.
  pose proof (frame_files_remove_length p (fs w)) as Le.
  destruct (cv_imread E (S (ticks w)) p jpeg_data).
  - injection H as <- <-. bounds.
    replace (c + 1 - c) with 1 by lia.
    apply adds_one; simpl; [reflexivity|rewrite Sc; apply incl_refl|lia].
  - injection H as <- <-. rewrite Z.sub_diag. bounds.
    apply adds_same; simpl; rewrite ?Z.eqb_refl; simpl;
      rewrite ?fs_remove_idem, ?Sc; [reflexivity|apply incl_refl|lia].
  - unfold fs_exists in H. simpl in H. rewrite !Z.eqb_refl in H. simpl in H.
    injection H as <- <-. rewrite Z.sub_diag. bounds.
    apply adds_same; simpl; rewrite ?Z.eqb_refl; simpl;
      rewrite ?fs_remove_idem, ?Sc; [reflexivity|apply incl_refl|lia].
Qed.

Lemma jpeg_loop_adds (buffer : bytes) (frame_offset : Z) (fuel : nat) :
  forall pos c w c' w',
    0 <= c ->
    jpeg_loop E fuel buffer frame_offset pos c w = Some (c', w') ->
    c <= c' /\ c' <= Z.max c 5 /\ adds (frame_offset + c) (c' - c) w w'.
Proof.
  induction fuel as [|fuel IH]; intros pos c w c' w' Hc H; simpl in H;
    [discriminate|].
  destruct ((pos <? blen buffer - 1000) && (c <? 5)) eqn:G.
  2:{ injection H as <- <-. rewrite Z.sub_diag. bounds. apply adds_refl. }
  apply andb_true_iff in G as [_ G]. apply Z.ltb_lt in G.
  destruct (bytes_find jpeg_start buffer pos =? -1).
  { injection H as <- <-. rewrite Z.sub_diag. bounds. apply adds_refl. }
  destruct (bytes_find jpeg_end buffer (bytes_find jpeg_start buffer pos + 2) =? -1).
  { now apply IH in H. }
  destruct (save_jpeg E _ frame_offset c w) as [c1 w1] eqn:S.
  apply save_jpeg_adds in S. destruct S as (S1 & S2 & S3).
  apply IH in H; [|lia].
  destruct H as (H1 & H2 & H3). bounds.
  replace (c' - c) with ((c1 - c) + (c' - c1)) by lia.
  eapply adds_trans; eauto; try lia.
  now replace (frame_offset + c + (c1 - c)) with (frame_offset + c1) by lia.
Qed.

Lemma _try_decode_raw_frame_adds (frame_data : bytes) (frame_index : Z)
    (ft : frame_type) (w : world) (success : bool) (w' : world) :
  _try_decode_raw_frame E frame_data frame_index ft w = (success, w') ->
  adds frame_index (if success then 1 else 0) w w'.
Proof.
  intros H. unfold _try_decode_raw_frame in H.
  set (ch := match ft with h264 => (mp4, []) | vp => (webm, ebml_header) end) in *.
  destruct ch as [container_ext header].
  set (tp := TempRaw frame_index container_ext) in *.
  unfold decode_raw_body in H.
  set (w0 := log (CallVideoCapture tp) (fs_write tp (Raw (header ++ frame_data)) w)) in *.
  assert (F0 : fs w0 = (tp, Raw (header ++ frame_data)) :: fs_remove tp (fs w))
    by reflexivity.
  assert (S0 : saved (trace w0) = saved (trace w)) by reflexivity.
  assert (Same : forall w1, fs w1 = fs w0 -> saved (trace w1) = saved (trace w0) ->
                   adds frame_index 0 w (cleanup tp w1)).
  { intros w1 H1 H2. eapply adds_cleanup; eauto.
    apply adds_same; rewrite ?H1, ?H2; [reflexivity|apply incl_refl|lia]. }
  destruct (cv_VideoCapture E (ticks w0) tp (header ++ frame_data))
    as [|opened reads].
  { injection H as <- <-. now apply Same. }
  destruct (if opened then reads else []) as [|[frame| |] reads'].
  - injection H as <- <-. now apply Same.
  - simpl in H.
    destruct (cv_imwrite E _ _ frame).
    + injection H as <- <-. eapply adds_cleanup; eauto.
      apply adds_one; [reflexivity|apply write_frame_adds..].
    + injection H as <- <-. now apply Same.
    + injection H as <- <-. now apply Same.
  - injection H as <- <-. now apply Same.
  - injection H as <- <-. now apply Same.
Qed.

Lemma raw_step_adds (buffer : bytes) (frame_offset pos c : Z) (w : world)
    (pos' c' : Z) (w' : world) :
  raw_step E buffer frame_offset pos c w = Some (pos', c', w') ->
  c <= c' /\ c' <= c + 1 /\ adds (frame_offset + c) (c' - c) w w'.
Proof.
  intros H. unfold raw_step in H.
  destruct (next_frame all_signatures buffer pos None) as [[p ft]|];
    [|discriminate].
  destruct (_try_decode_raw_frame E _ (frame_offset + c) ft
              (log (LogRawCandidate ft p) w)) as [success w1] eqn:D.
  apply _try_decode_raw_frame_adds in D. injection H as <- <- <-.
  assert (G : adds (frame_offset + c) (if success then 1 else 0) w w1).
  { destruct D as [S T L]. constructor; [exact S|exact T|exact L]. }
  destruct success; bounds.
  - now replace (c + 1 - c) with 1 by lia.
  - now rewrite Z.sub_diag.
Qed.

Lemma raw_loop_adds (buffer : bytes) (frame_offset : Z) (fuel : nat) :
  forall pos c w c' w',
    0 <= c ->
    raw_loop E fuel buffer frame_offset pos c w = Some (c', w') ->
    c <= c' /\ c' <= Z.max c 3 /\ adds (frame_offset + c) (c' - c) w w'.
Proof.
  induction fuel as [|fuel IH]; intros pos c w c' w' Hc H; simpl in H;
    [discriminate|].
  destruct ((pos <? blen buffer - 10000) && (c <? 3)) eqn:G.
  2:{ injection H as <- <-. rewrite Z.sub_diag. bounds. apply adds_refl. }
  apply andb_true_iff in G as [_ G]. apply Z.ltb_lt in G.
  destruct (raw_step E buffer frame_offset pos c w) as [[[pos1 c1] w1]|] eqn:S.
  2:{ injection H as <- <-. rewrite Z.sub_diag. bounds. apply adds_refl. }
  apply raw_step_adds in S. destruct S as (S1 & S2 & S3).
  apply IH in H; try lia.
  destruct H as (H1 & H2 & H3). bounds.
  replace (c' - c) with ((c1 - c) + (c' - c1)) by lia.
  eapply adds_trans; eauto; try lia.
  now replace (frame_offset + c + (c1 - c)) with (frame_offset + c1) by lia.
Qed.

(** What one invocation of each scanner and of the cascade adds. *)
Lemma _extract_jpeg_from_buffer_adds (buffer : bytes) (frame_offset : Z)
    (w : world) (n : Z) (w' : world) :
  _extract_jpeg_from_buffer E buffer frame_offset w = (n, w') ->
  0 <= n /\ n <= 5 /\ adds frame_offset n w w'.
Proof.
  intros H. unfold _extract_jpeg_from_buffer in H.
  destruct (jpeg_loop_total E buffer frame_offset (jpeg_fuel buffer) 0 0
              (log LogJpegScan w)) as [[n1 w1] T]; [lia|unfold jpeg_fuel, blen; lia|].
  rewrite T in H. injection H as <- <-.
  apply jpeg_loop_adds in T; [|lia].
  rewrite Z.add_0_r, Z.sub_0_r in T. destruct T as (T1 & T2 & [S C L]).
  bounds. constructor; [exact S|exact C|exact L].
Qed.

Lemma _extract_raw_video_frames_adds (buffer : bytes) (frame_offset : Z)
    (w : world) (n : Z) (w' : world) :
  _extract_raw_video_frames E buffer frame_offset w = (n, w') ->
  0 <= n /\ n <= 3 /\ adds frame_offset n w w'.
Proof.
  intros H. unfold _extract_raw_video_frames in H.
  destruct (raw_loop_total E buffer frame_offset (raw_fuel buffer) 0 0
              (log LogRawScan w)) as [[n1 w1] T]; [lia|unfold raw_fuel, blen; lia|].
  rewrite T in H. injection H as <- <-.
  apply raw_loop_adds in T; [|lia].
  rewrite Z.add_0_r, Z.sub_0_r in T. destruct T as (T1 & T2 & [S C L]).
  bounds. constructor; [exact S|exact C|exact L].
Qed.

Lemma _extract_frames_from_stream_buffer_adds (stream_buffer : bytes)
    (frame_offset : Z) (w : world) (n : Z) (w' : world) :
  _extract_frames_from_stream_buffer E stream_buffer frame_offset w = (n, w') ->
  0 <= n /\ n <= 5 /\ adds frame_offset n w w'.
Proof.
  intros H. unfold _extract_frames_from_stream_buffer in H.
  destruct (try_formats E stream_buffer frame_offset video_formats 0 w)
    as [c1 w1] eqn:T.
  apply try_formats_adds in T; [|lia].
  rewrite Z.add_0_r, Z.sub_0_r in T. destruct T as (T1 & T2 & T3).
  assert (T4 : adds frame_offset c1 w w1).
  { destruct T3 as [S C L]. constructor; [exact S|exact C|exact L]. }
  destruct (c1 =? 0) eqn:Z1; [apply Z.eqb_eq in Z1|apply Z.eqb_neq in Z1].
  2:{ assert (Z2 : (c1 =? 0) = false) by now apply Z.eqb_neq.
      rewrite Z2 in H. injection H as <- <-. bounds. exact T4. }
  subst c1.
  destruct (_extract_jpeg_from_buffer E stream_buffer frame_offset w1)
    as [c2 w2] eqn:J.
  apply _extract_jpeg_from_buffer_adds in J. destruct J as (J1 & J2 & J3).
  assert (J4 : adds frame_offset c2 w w2).
  { replace c2 with (0 + c2) by lia. eapply adds_trans; eauto; try lia.
    now rewrite Z.add_0_r. }
  simpl in H.
  destruct (c2 =? 0) eqn:Z2; [apply Z.eqb_eq in Z2|apply Z.eqb_neq in Z2].
  2:{ injection H as <- <-. bounds. exact J4. }
  subst c2.
  destruct (_extract_raw_video_frames E stream_buffer frame_offset w2)
    as [c3 w3] eqn:R.
  apply _extract_raw_video_frames_adds in R.
  destruct R as (R1 & R2 & R3). simpl in H. injection H as <- <-. bounds.
  replace c3 with (0 + c3) by lia. eapply adds_trans; eauto; try lia.
  now rewrite Z.add_0_r.
Qed.

End Counts.

(** * The claims *)

(** ** Buffer trim (C9) *)

Lemma extract_and_count_buffer (E : env) (st : loop_state) (w : world) :
  stream_buffer (fst (extract_and_count E st w)) = stream_buffer st.
Proof.
  unfold extract_and_count.
  destruct (_extract_frames_from_stream_buffer E _ _ w) as [n w1].
  now destruct (0 <? n).
Qed.

(** C9: after the trim of a checkpoint the buffer holds at most 500000
    bytes; when the trim fires it keeps the last 300000 bytes; what it keeps
    is a suffix of the buffer before the trim; and the buffer a chunk leaves
    is the appended buffer, trimmed when the checkpoint ran. *)
Theorem trim_buffer_within_cap (E : env) (chunk : bytes) (st : loop_state) (w : world) :
  let b := stream_buffer st ++ chunk in
  blen (trim_buffer b) <= 500000 /\
  blen (trim_buffer b) = (if 500000 <? blen b then 300000 else blen b) /\
  (exists dropped, b = dropped ++ trim_buffer b) /\
  stream_buffer (fst (on_chunk E chunk st w))
  = if ((chunk_count st + 1) mod 3 =? 0) && (200000 <? blen b)
    then trim_buffer b else b.
Proof.
  intros b.
  assert (L : blen (trim_buffer b) = (if 500000 <? blen b then 300000 else blen b)).
  { unfold trim_buffer, last_bytes.
    destruct (500000 <? blen b) eqn:G; [|reflexivity].
    apply Z.ltb_lt in G. unfold blen in *. rewrite length_skipn. lia. }
  split; [|split; [exact L|split]].
  - rewrite L. destruct (500000 <? blen b) eqn:G; [lia|now apply Z.ltb_ge in G].
  - unfold trim_buffer, last_bytes. destruct (500000 <? blen b).
    + exists (firstn (Z.to_nat (blen b - 300000)) b). now rewrite firstn_skipn.
    + now exists [].
  - unfold on_chunk. simpl. fold b.
    destruct (((chunk_count st + 1) mod 3 =? 0) && (200000 <? blen b));
      [|reflexivity].
    pose proof (extract_and_count_buffer E
      (LoopState (frames_extracted st) (saved_count st)
         (total_bytes_read st + blen chunk) (chunk_count st + 1) b) w) as X.
    destruct (extract_and_count E _ w) as [st1 w1]. simpl in *. now rewrite X.
Qed.

(** ** The embedded-image scanner is capped (C8) *)

(** Seven marker pairs in the buffer: five images are taken. *)
Example seven_images_five_taken :
  fst (_extract_jpeg_from_buffer images_only seven_images_buffer 0 (start [])) = 5.
Proof. vm_compute. reflexivity. Qed.

(** A start marker without an end marker: nothing is taken. *)
Example start_marker_alone :
  fst (_extract_jpeg_from_buffer images_only ([xff; xd8] ++ padding 2000) 0 (start [])) = 0.
Proof. vm_compute. reflexivity. Qed.

(** C8: for every buffer, one invocation of the embedded-image scanner
    answers a count between 0 and 5; its loop ends within as many iterations
    as the buffer has bytes, plus one; it logs exactly that many saved
    images, numbered after [frame_offset]; and the directory gains at most
    that many frame files. *)
Theorem jpeg_scanner_capped (E : env) (buffer : bytes) (frame_offset : Z) (w : world) :
  let r := _extract_jpeg_from_buffer E buffer frame_offset w in
  0 <= fst r <= 5 /\
  jpeg_loop E (S (length buffer)) buffer frame_offset 0 0 (log LogJpegScan w) = Some r /\
  saved (trace (snd r)) = down frame_offset (Z.to_nat (fst r)) ++ saved (trace w) /\
  (length (frame_files (fs (snd r)))
   <= length (frame_files (fs w)) + Z.to_nat (fst r))%nat /\
  incl (scratch_files (fs (snd r))) (scratch_files (fs w)).
Proof.
  intros r.
  destruct (_extract_jpeg_from_buffer E buffer frame_offset w) as [n w'] eqn:X.
  pose proof (_extract_jpeg_from_buffer_adds E _ _ _ _ _ X) as (N1 & N2 & [Sv Sc Ln]).
  subst r. cbn [fst snd]. repeat split; try lia; try assumption.
  unfold _extract_jpeg_from_buffer, jpeg_fuel in X.
  destruct (jpeg_loop_total E buffer frame_offset (S (length buffer)) 0 0
              (log LogJpegScan w)) as [r T]; [lia|unfold blen; lia|].
  rewrite T in *. congruence.
Qed.

(** ** The stride of the raw codec-unit scanner (C6) *)

(** C6 as stated fails: on the same buffer, a decode that succeeds and a
    decode that fails both leave the scan position a thousand bytes after
    the match, inside the window of 12003 bytes that was just tried. *)
Lemma raw_stride_counterexample :
  let ok := raw_step raw_units_only one_unit_buffer 0 0 0 (start []) in
  let ko := raw_step decodes_nothing one_unit_buffer 0 0 0 (start []) in
  step_count ok = 1 /\ step_count ko = 0 /\
  ~ (step_pos ko < step_pos ok) /\
  ~ (blen one_unit_buffer <= step_pos ok).
Proof.
  assert (P1 : step_pos (raw_step raw_units_only one_unit_buffer 0 0 0 (start [])) = 1000)
    by (vm_compute; reflexivity).
  assert (P2 : step_pos (raw_step decodes_nothing one_unit_buffer 0 0 0 (start [])) = 1000)
    by (vm_compute; reflexivity).
  assert (P3 : blen one_unit_buffer = 12003) by (vm_compute; reflexivity).
  intros ok ko. subst ok ko. rewrite P1, P2, P3.
  repeat split; try lia; vm_compute; reflexivity.
Qed.

(** An iteration that finds a candidate at [p] tries the window at [p] and
    leaves the scan position at [p + 1000], whether the decode succeeded or
    not; the count goes up by one on success and stays on failure. *)
Lemma raw_step_stride (E : env) (buffer : bytes) (frame_offset pos c : Z) (w : world) :
  match raw_step E buffer frame_offset pos c w with
  | Some (pos', c', w') =>
      exists p ft,
        next_frame all_signatures buffer pos None = Some (p, ft) /\
        pos' = p + 1000 /\
        c' = (if fst (_try_decode_raw_frame E (candidate_window buffer p)
                        (frame_offset + c) ft (log (LogRawCandidate ft p) w))
              then c + 1 else c)
  | None => next_frame all_signatures buffer pos None = None
  end.
Proof.
  unfold raw_step, candidate_window.
  destruct (next_frame all_signatures buffer pos None) as [[p ft]|]; [|reflexivity].
  cbv zeta.
  destruct (_try_decode_raw_frame E _ (frame_offset + c) ft _)
    as [success w1] eqn:D.
  exists p, ft. rewrite D. simpl. repeat split; reflexivity.
Qed.

(** ** One embedded image and no container (C4) *)

Lemma try_formats_not_opened (E : env) (buffer : bytes) (frame_offset : Z)
    (fmts : list format) :
  (forall t p, exists reads, cv_VideoCapture E t p buffer = Cap false reads) ->
  forall w, exists w',
    try_formats E buffer frame_offset fmts 0 w = (0, w') /\
    ticks w' = (length fmts + ticks w)%nat /\
    trace w' = not_opened_trace frame_offset fmts ++ trace w.
Proof.
  intros Hcap. induction fmts as [|fmt rest IH]; intros w.
  - exists w. now simpl.
  - simpl. unfold try_format, try_format_body.
    set (w0 := log (CallVideoCapture _) _).
    destruct (Hcap (ticks w0) (TempStream frame_offset fmt)) as [reads ->].
    destruct (IH (cleanup (TempStream frame_offset fmt)
                    (log (LogNotOpened fmt) (tick w0)))) as (w' & H1 & H2 & H3).
    exists w'. split; [exact H1|split].
    + rewrite H2, cleanup_ticks. simpl. lia.
    + rewrite H3, cleanup_trace. simpl. now rewrite <- app_assoc.
Qed.

Lemma save_jpeg_valid (E : env) (jpeg_data : bytes) (frame_offset c : Z) (w : world) :
  (forall t p, exists img, cv_imread E t p jpeg_data = ImgSome img) ->
  exists w',
    save_jpeg E jpeg_data frame_offset c w = (c + 1, w') /\
    trace w' = LogSavedJpeg (frame_offset + c + 1) (clock E (ticks w)) :: trace w.
Proof.
  intros Himg. unfold save_jpeg. simpl.
  destruct (Himg (S (ticks w))
              (FrameJpg (frame_offset + c + 1) (clock E (ticks w)))) as [img ->].
  eexists. split; reflexivity.
Qed.

Lemma jpeg_one_pair (E : env) (buffer : bytes) (frame_offset : Z) (w : world)
    (s e : Z) :
  1000 < blen buffer ->
  bytes_find jpeg_start buffer 0 = s -> s <> -1 ->
  bytes_find jpeg_end buffer (s + 2) = e -> e <> -1 ->
  bytes_find jpeg_start buffer (e + 2) = -1 ->
  (forall t p, exists img, cv_imread E t p (slice buffer s (e + 2)) = ImgSome img) ->
  exists w',
    _extract_jpeg_from_buffer E buffer frame_offset w = (1, w') /\
    trace w' = LogSavedJpeg (frame_offset + 1) (clock E (ticks w))
               :: LogJpegScan :: trace w.
Proof.
  intros Hlen Hs Hs' He He' Hnone Himg.
  unfold _extract_jpeg_from_buffer, jpeg_fuel.
  destruct (length buffer) as [|n] eqn:L; [unfold blen in Hlen; lia|].
  destruct n as [|n]; [unfold blen in Hlen; lia|].
  cbn [jpeg_loop].
  replace (0 <? blen buffer - 1000) with true by (symmetry; apply Z.ltb_lt; lia).
  cbn [andb Z.ltb Z.compare].
  rewrite Hs. replace (s =? -1) with false by (symmetry; now apply Z.eqb_neq).
  rewrite He. replace (e =? -1) with false by (symmetry; now apply Z.eqb_neq).
  destruct (save_jpeg_valid E (slice buffer s (e + 2)) frame_offset 0
              (log LogJpegScan w) Himg) as (w1 & S1 & S2).
  rewrite S1. cbn [Z.add]. rewrite Hnone. cbn [Z.eqb].
  exists w1. split.
  - now destruct ((e + 2 <? blen buffer - 1000) && (1 <? 5)).
  - rewrite S2. simpl. now rewrite Z.add_0_r.
Qed.

(** C4 as stated fails: on a buffer with one marker pair around an image
    that reads back, which no candidate extension opens, the embedded-image
    scanner takes one frame and the raw scanner is not run, but the
    container trial decoder was run first, on all three extensions. *)
Lemma one_image_counterexample :
  let r := _extract_frames_from_stream_buffer images_only one_image_buffer 0 (start []) in
  fst r = 1 /\
  ~ In LogRawScan (trace (snd r)) /\
  ~ (forall fmt, ~ In (CallVideoCapture (TempStream 0 fmt)) (trace (snd r))).
Proof.
  assert (T : trace (snd (_extract_frames_from_stream_buffer
                            images_only one_image_buffer 0 (start [])))
              = [LogSavedJpeg 1 3; LogJpegScan;
                 LogNotOpened mp4; CallVideoCapture (TempStream 0 mp4); LogTryFormat mp4;
                 LogNotOpened mkv; CallVideoCapture (TempStream 0 mkv); LogTryFormat mkv;
                 LogNotOpened webm; CallVideoCapture (TempStream 0 webm); LogTryFormat webm])
    by (vm_compute; reflexivity).
  intros r. subst r. rewrite T. split; [vm_compute; reflexivity|split].
  - simpl. intros H. repeat (destruct H as [H|H]; [discriminate H|]). exact H.
  - intros H. apply (H webm). simpl. tauto.
Qed.

(** C4, amended: when the buffer of a checkpoint holds more than 1000
    bytes and exactly one start/end marker pair around an image that reads
    back, and no candidate extension opens, the cascade first runs the
    container trial decoder on the three extensions, which gives no frame,
    then the embedded-image scanner, which saves exactly one frame, and it
    does not run the raw codec-unit scanner. *)
Theorem one_image_cascade (E : env) (buffer : bytes) (frame_offset : Z) (w : world)
    (s e : Z) :
  1000 < blen buffer ->
  bytes_find jpeg_start buffer 0 = s -> s <> -1 ->
  bytes_find jpeg_end buffer (s + 2) = e -> e <> -1 ->
  bytes_find jpeg_start buffer (e + 2) = -1 ->
  (forall t p, exists reads, cv_VideoCapture E t p buffer = Cap false reads) ->
  (forall t p, exists img, cv_imread E t p (slice buffer s (e + 2)) = ImgSome img) ->
  let r := _extract_frames_from_stream_buffer E buffer frame_offset w in
  fst r = 1 /\
  trace (snd r)
  = [LogSavedJpeg (frame_offset + 1) (clock E (3 + ticks w)); LogJpegScan;
     LogNotOpened mp4; CallVideoCapture (TempStream frame_offset mp4); LogTryFormat mp4;
     LogNotOpened mkv; CallVideoCapture (TempStream frame_offset mkv); LogTryFormat mkv;
     LogNotOpened webm; CallVideoCapture (TempStream frame_offset webm); LogTryFormat webm]
    ++ trace w.
Proof.
  intros Hlen Hs Hs' He He' Hnone Hcap Himg r. subst r.
  unfold _extract_frames_from_stream_buffer.
  destruct (try_formats_not_opened E buffer frame_offset video_formats Hcap w)
    as (w1 & T1 & T2 & T3).
  rewrite T1. cbn [Z.eqb].
  destruct (jpeg_one_pair E buffer frame_offset w1 s e Hlen Hs Hs' He He' Hnone Himg)
    as (w2 & J1 & J2).
  rewrite J1. cbn [Z.add Z.eqb fst snd]. split; [reflexivity|].
  rewrite J2, T2, T3. reflexivity.
Qed.

(** The scenario of C4 on a buffer of 1006 bytes. *)
Lemma one_image_cascade_witness :
  let r := _extract_frames_from_stream_buffer images_only one_image_buffer 0 (start []) in
  fst r = 1 /\
  trace (snd r)
  = [LogSavedJpeg (0 + 1) (clock images_only (3 + ticks (start []))); LogJpegScan;
     LogNotOpened mp4; CallVideoCapture (TempStream 0 mp4); LogTryFormat mp4;
     LogNotOpened mkv; CallVideoCapture (TempStream 0 mkv); LogTryFormat mkv;
     LogNotOpened webm; CallVideoCapture (TempStream 0 webm); LogTryFormat webm]
    ++ trace (start []).
Proof.
  apply (one_image_cascade images_only one_image_buffer 0 (start []) 0 4).
  - vm_compute. reflexivity.
  - vm_compute. reflexivity.
  - discriminate.
  - vm_compute. reflexivity.
  - discriminate.
  - vm_compute. reflexivity.
  - intros t p. now exists [].
  - intros t p. now exists [].
Defined.

(** ** The cascade never fails (C7) *)

Lemma try_formats_stop (E : env) (buffer : bytes) (frame_offset : Z)
    (fmts : list format) (c : Z) (w : world) :
  0 < c -> try_formats E buffer frame_offset fmts c w = (c, w).
Proof.
  intros Hc. destruct fmts as [|fmt rest]; simpl; [reflexivity|].
  now replace (0 <? c) with true by (symmetry; now apply Z.ltb_lt).
Qed.

(** Every candidate is tried when each of them raises. *)
Example all_candidates_tried_on_error :
  let r := _extract_frames_from_stream_buffer always_raises one_image_buffer 0 (start []) in
  fst r = 0 /\
  filter (fun e => match e with LogTryFormat _ | LogFormatError _ => true | _ => false end)
         (rev (trace (snd r)))
  = [LogTryFormat webm; LogFormatError webm; LogTryFormat mkv; LogFormatError mkv;
     LogTryFormat mp4; LogFormatError mp4] /\
  fs (snd r) = [].
Proof. vm_compute. repeat split; reflexivity. Qed.

(** C7 as stated fails: when the first candidate opens, gives one frame and
    then raises, the error is swallowed and the scratch file removed, but
    the next candidate is not tried: the cascade answers that one frame. *)
Lemma next_candidate_counterexample :
  let r := _extract_frames_from_stream_buffer raises_after_one one_image_buffer 0 (start []) in
  fst r = 1 /\
  In (LogFormatError webm) (trace (snd r)) /\
  ~ In (LogTryFormat mkv) (trace (snd r)).
Proof.
  assert (T : trace (snd (_extract_frames_from_stream_buffer
                            raises_after_one one_image_buffer 0 (start [])))
              = [LogFormatError webm; CallRead; LogSavedFrame 1 2; CallRead;
                 LogOpened webm; CallVideoCapture (TempStream 0 webm);
                 LogTryFormat webm])
    by (vm_compute; reflexivity).
  intros r. subst r. rewrite T. split; [vm_compute; reflexivity|split].
  - simpl. tauto.
  - simpl. intros H. repeat (destruct H as [H|H]; [discriminate H|]). exact H.
Qed.

(** C7, amended: for every buffer and whatever the decoder answers or
    raises, one invocation of the cascade answers a count between 0 and 5
    and leaves no scratch file that was not there before; the attempt on a
    candidate ends with its scratch file removed, however the attempt ended;
    a candidate that gave no frame, by an error or not, is followed by the
    next candidate; a candidate that gave frames ends the container
    strategy with these frames, also when it raised after them. *)
Theorem cascade_never_fails (E : env) (buffer : bytes) (frame_offset : Z) (w : world) :
  let r := _extract_frames_from_stream_buffer E buffer frame_offset w in
  0 <= fst r <= 5 /\
  incl (scratch_files (fs (snd r))) (scratch_files (fs w)) /\
  (forall fmt c w0,
     fs_lookup (TempStream frame_offset fmt)
       (fs (snd (try_format E buffer frame_offset fmt c w0))) = None) /\
  (forall fmt rest w0,
     let a := try_format E buffer frame_offset fmt 0 w0 in
     try_formats E buffer frame_offset (fmt :: rest) 0 w0
     = if 0 <? snd (fst a) then (snd (fst a), snd a)
       else try_formats E buffer frame_offset rest 0 (snd a)).
Proof.
  intros r.
  destruct (_extract_frames_from_stream_buffer E buffer frame_offset w)
    as [n w'] eqn:X.
  pose proof (_extract_frames_from_stream_buffer_adds E _ _ _ _ _ X)
    as (N1 & N2 & [Sv Sc Ln]).
  subst r. cbn [fst snd]. split; [lia|split; [exact Sc|split]].
  - intros fmt c w0. unfold try_format.
    destruct (try_format_body E buffer frame_offset fmt c _) as [[s c1] w1].
    cbn [snd]. rewrite cleanup_fs. apply fs_lookup_remove.
  - intros fmt rest w0. cbn [try_formats Z.ltb Z.compare].
    destruct (try_format E buffer frame_offset fmt 0 w0) as [[s c1] w1] eqn:T.
    apply try_format_adds in T. destruct T as (T1 & T2 & T3 & T4 & _).
    cbn [fst snd].
    destruct (0 <? c1) eqn:P; [apply Z.ltb_lt in P|apply Z.ltb_ge in P].
    + destruct s; try reflexivity; [specialize (T4 eq_refl); lia|].
      now apply try_formats_stop.
    + assert (c1 = 0) by lia. subst c1.
      destruct s; try reflexivity. specialize (T3 eq_refl). lia.
Qed.

(** ** The summary record (C3) *)

(** C3 as stated fails: the summary of a session on a stream that ends at
    once has no entry for the reason of the end, under any key. *)
Lemma summary_reason_counterexample :
  let r := _process_live_stream_data images_only (Config 10 1) "stream" "session" [] (start []) in
  map fst (summary_of (snd r)) = summary_keys /\
  json_get "termination_reason" (summary_of (snd r)) = None /\
  ~ In (JStr "stream ended") (map snd (summary_of (snd r))) /\
  In LogStreamEnded (trace (snd r)).
Proof.
  vm_compute. repeat split; try reflexivity.
  - intros H. repeat (destruct H as [H|H]; [discriminate H|]). exact H.
  - tauto.
Qed.

Lemma summary_of_session (E : env) (cfg : config) (stream_name session_dir : string)
    (stream_payload : list read_result) (w : world) :
  map fst (summary_of (snd (_process_live_stream_data E cfg stream_name session_dir
                              stream_payload w)))
  = summary_keys.
Proof.
  unfold _process_live_stream_data. simpl.
  destruct (read_loop E cfg stream_payload _ _ _) as [st1 w1].
  destruct (final_attempt E cfg st1 w1) as [st2 w2].
  reflexivity.
Qed.

(** C3, amended: the summary record persisted at the end of every session
    has the entries frames extracted, chunks processed, duration, bytes
    read, target rate, frame limit, stream name, method, configuration,
    session directory and completion time, and no entry for the reason of
    the end.  For a stream whose first read answers nothing (the payload is
    exhausted, or its first chunk is empty), the session answers [False],
    saves no frame, leaves no scratch file, and its summary counts 0 frames,
    0 chunks and 0 bytes. *)
Theorem summary_of_empty_stream (E : env) (cfg : config)
    (stream_name session_dir : string) (any rest : list read_result)
    (others : list (string * content)) :
  map fst (summary_of (snd (_process_live_stream_data E cfg stream_name session_dir
                              any (start others))))
  = summary_keys /\
  ~ In "termination_reason"%string summary_keys /\
  nothing_saved (_process_live_stream_data E cfg stream_name session_dir
                   [] (start others)) /\
  nothing_saved (_process_live_stream_data E cfg stream_name session_dir
                   (Chunk [] :: rest) (start others)).
Proof.
  pose proof (start_inv others) as [_ _ F _ T]. simpl in F, T.
  assert (F' : frame_files (fs_remove SummaryJson (fs (start others))) = [])
    by now rewrite frame_files_remove_other.
  assert (T' : scratch_files (fs_remove SummaryJson (fs (start others))) = [])
    by now rewrite scratch_files_remove_other.
  split; [apply summary_of_session|split].
  - simpl. intros H. repeat (destruct H as [H|H]; [discriminate H|]). exact H.
  - split; unfold _process_live_stream_data, nothing_saved, persisted;
      cbn -[start fs_remove];
      destruct (0 <? max_frames cfg); cbn -[start fs_remove];
      try destruct (60000 <? _); cbn -[start fs_remove];
      rewrite ?F', ?T'; repeat split; reflexivity.
Qed.

(** ** Whole sessions (C2, C10) *)

Lemma start_no_summary (others : list (string * content)) :
  fs_lookup SummaryJson (fs (start others)) = None.
Proof. induction others as [|o others IH]; simpl; auto. Qed.

Lemma upto_seq (n : nat) : rev (down 0 n) = map Z.of_nat (seq 1 n).
Proof.
  induction n as [|n IH]; [reflexivity|].
  rewrite seq_S, map_app. simpl down. simpl rev. rewrite IH. reflexivity.
Qed.

(** What a session started in a new directory leaves, in terms of the
    counters of its loop when it ends. *)
Lemma session_result (E : env) (cfg : config) (stream_name session_dir : string)
    (stream_payload : list read_result) (others : list (string * content)) :
  exists st w1,
    session_inv st w1 /\
    frames_extracted st <= Z.max 0 (max_frames cfg + 4) /\
    let r := _process_live_stream_data E cfg stream_name session_dir
               stream_payload (start others) in
    fst r = (0 <? saved_count st) /\
    frame_files (fs (snd r)) = frame_files (fs w1) /\
    saved (trace (snd r)) = saved (trace w1) /\
    scratch_files (fs (snd r)) = scratch_files (fs w1) /\
    json_get "frames_extracted" (summary_of (snd r)) = Some (JNum (saved_count st)).
Proof.
  unfold _process_live_stream_data. simpl.
  destruct (read_loop E cfg stream_payload (clock E 0) (LoopState 0 0 0 0 [])
              (tick (start others))) as [st1 w1] eqn:R.
  apply read_loop_inv in R.
  2:{ apply (session_inv_same (LoopState 0 0 0 0 []) _ (start others) _);
        try reflexivity. apply start_inv. }
  destruct R as (R1 & R2). simpl in R2.
  destruct (final_attempt E cfg st1 w1) as [st2 w2] eqn:F.
  apply final_attempt_inv in F; [|exact R1].
  destruct F as (F1 & F2 & _).
  exists st2, w2. split; [exact F1|split; [lia|]].
  simpl. repeat split.
  - now apply frame_files_remove_other.
  - now apply scratch_files_remove_other.
Qed.

(** C2: in a session started in a new directory, the sequence numbers
    of the frame files, in the order the files were created, are 1, 2, ...,
    up to the number of files, and the saved-frame log lines carry the same
    numbers in the same order, whichever strategy saved each frame and
    whatever the decoder and the stream answered. *)
Theorem frame_numbers_consecutive (E : env) (cfg : config)
    (stream_name session_dir : string) (stream_payload : list read_result)
    (others : list (string * content)) :
  let w' := snd (_process_live_stream_data E cfg stream_name session_dir
                   stream_payload (start others)) in
  persisted w' = map Z.of_nat (seq 1 (length (persisted w'))) /\
  saved_log w' = persisted w'.
Proof.
  destruct (session_result E cfg stream_name session_dir stream_payload others)
    as (st & w1 & [N C F S T] & _ & _ & HF & HS & _).
  intros w'. subst w'. unfold persisted, saved_log.
  rewrite HF, HS, F, S. rewrite upto_seq.
  split; [|reflexivity].
  now rewrite length_map, length_seq.
Qed.

(** A session whose frames come from the three strategies: two from the
    container trial at the first checkpoint, two from the embedded-image
    scanner at the second, three from the raw scanner at the final attempt;
    they are numbered 1 to 7. *)
Example three_strategies_one_numbering :
  let r := _process_live_stream_data three_strategies (Config 10 1) "stream" "session"
             nine_chunks (start []) in
  filter (fun e => match saved_index e with Some _ => true | None => false end)
         (rev (trace (snd r)))
  = [LogSavedFrame 1 9; LogSavedFrame 2 12; LogSavedJpeg 3 21; LogSavedJpeg 4 23;
     LogSavedRaw h264 5 63; LogSavedRaw h264 6 67; LogSavedRaw h264 7 71] /\
  persisted (snd r) = [1; 2; 3; 4; 5; 6; 7].
Proof. vm_compute. split; reflexivity. Qed.

(** C10: when the stream could be opened, the answer of the consumer is
    [True] exactly when at least one frame was saved; the summary is
    persisted in both cases and counts the saved frames; a session that
    saved no frame answers [False], as does a session whose stream could not
    be opened, which persists no summary. *)
Theorem consume_stream_result (E : env) (cfg : config)
    (stream_name session_dir : string) (stream_payload : list read_result)
    (others : list (string * content)) :
  let r := consume_stream E cfg stream_name session_dir
             (MediaPayload stream_payload) (start others) in
  let failed := consume_stream E cfg stream_name session_dir MediaError (start others) in
  fst r = (0 <? Z.of_nat (length (persisted (snd r)))) /\
  (fst r = true <-> persisted (snd r) <> []) /\
  json_get "frames_extracted" (summary_of (snd r))
  = Some (JNum (Z.of_nat (length (persisted (snd r))))) /\
  map fst (summary_of (snd r)) = summary_keys /\
  fst failed = false /\
  fs_lookup SummaryJson (fs (snd failed)) = None /\
  (persisted (snd r) = [] -> fst r = fst failed).
Proof.
  destruct (session_result E cfg stream_name session_dir stream_payload others)
    as (st & w1 & [N C F S T] & _ & HR & HF & HS & _ & HJ).
  intros r failed. subst r failed. cbn [consume_stream].
  assert (L : Z.of_nat (length (persisted
                (snd (_process_live_stream_data E cfg stream_name session_dir
                        stream_payload (start others))))) = saved_count st).
  { unfold persisted. rewrite length_rev, HF, F, down_length. lia. }
  rewrite L, HR, HJ.
  assert (P : persisted (snd (_process_live_stream_data E cfg stream_name
                                session_dir stream_payload (start others))) = []
              <-> saved_count st = 0).
  { split; intros H.
    - rewrite H in L. simpl in L. lia.
    - rewrite <- L in H.
      destruct (persisted _); [reflexivity|simpl in H; lia]. }
  repeat split; try reflexivity.
  - intros H. apply Z.ltb_lt in H. rewrite P. lia.
  - intros H. apply Z.ltb_lt. rewrite P in H. lia.
  - apply summary_of_session.
  - apply start_no_summary.
  - intros H. apply P in H. rewrite H. reflexivity.
Qed.

(** ** The target frame count (C1) *)

(** A session stops at most four frames past its target: the loop runs
    only below the target and one cascade gives at most five frames. *)
Lemma session_overshoot_bounded (E : env) (cfg : config)
    (stream_name session_dir : string) (stream_payload : list read_result)
    (others : list (string * content)) :
  Z.of_nat (length (persisted (snd (_process_live_stream_data E cfg stream_name
                                      session_dir stream_payload (start others)))))
  <= Z.max 0 (max_frames cfg + 4).
Proof.
  destruct (session_result E cfg stream_name session_dir stream_payload others)
    as (st & w1 & [N C F S T] & B & _ & HF & _).
  unfold persisted. rewrite length_rev, HF, F, down_length. lia.
Qed.

(** C1 fails on the code: with a target of one frame, a stream of one chunk
    of 50012 bytes that holds two images ends with two frames saved.  The
    final attempt runs the cascade once, and the embedded-image scanner
    takes every image it finds, up to five, whatever the target. *)
Theorem frames_exceed_target :
  let cfg := Config 1 1 in
  let r := _process_live_stream_data images_only cfg "stream" "session"
             [Chunk two_images_chunk] (start []) in
  fst r = true /\
  persisted (snd r) = [1; 2] /\
  json_get "frames_extracted" (summary_of (snd r)) = Some (JNum 2) /\
  json_get "max_frames_limit" (summary_of (snd r)) = Some (JNum 1).
Proof. vm_compute. repeat split; reflexivity. Qed.

(** The bound of the container path against a target of three frames: a
    candidate that opens and decodes seven frames has five of them read and
    saved.  The bound of its loop is [min(5, 10 - frame_offset)], with the
    constant 10 where the loop of the session reads its target from the
    configuration. *)
Example container_bound_constant :
  let cfg := Config 3 1 in
  let r := _process_live_stream_data seven_frames cfg "stream" "session"
             [Chunk plain_chunk] (start []) in
  persisted (snd r) = [1; 2; 3; 4; 5] /\
  json_get "frames_extracted" (summary_of (snd r)) = Some (JNum 5) /\
  json_get "max_frames_limit" (summary_of (snd r)) = Some (JNum 3).
Proof. vm_compute. repeat split; reflexivity. Qed.

(** ** Frames requested from one container candidate (C5) *)

Lemma count_events_cons (f : event -> bool) (e : event) (tr : list event) :
  count_events f (e :: tr) = (if f e then 1 else 0) + count_events f tr.
Proof. unfold count_events. simpl. destruct (f e); simpl length; lia. Qed.

(** Counts the reads and the failed saves of the events a step logged. *)
Ltac count_lia :=
  cbn [trace log tick fs_write fst snd];
  rewrite ?cleanup_trace; cbn [trace log tick fs_write fst snd];
  rewrite ?count_events_cons; cbn [is_read is_save_failed]; lia.

(** Every read but the last one is followed by a save that succeeds or by a
    save that fails. *)
Lemma read_frames_requests (E : env) (frame_offset max_frames : Z)
    (reads : list read_outcome) :
  forall frame_count c w s c' w',
    read_frames E reads frame_offset max_frames frame_count c w = (s, c', w') ->
    count_events is_read (trace w') - count_events is_read (trace w)
    <= (c' - c)
       + (count_events is_save_failed (trace w')
          - count_events is_save_failed (trace w))
       + 1 /\
    count_events is_save_failed (trace w) <= count_events is_save_failed (trace w').
Proof.
  induction reads as [|r reads IH]; intros fc c w s c' w' H; simpl in H;
    destruct (fc <? max_frames);
    try (injection H as <- <- <-; count_lia).
  destruct r as [frame| |]; try (injection H as <- <- <-; count_lia).
  destruct (cv_imwrite E _ _ frame).
  - apply IH in H. revert H. count_lia.
  - apply IH in H. revert H. count_lia.
  - injection H as <- <- <-. count_lia.
Qed.

(** C5 as stated fails: with a target of ten frames and nothing saved yet,
    a candidate that opens has seven frames requested, because two saves
    failed, where the claim allows [min(5, 10 - 0) = 5]. *)
Lemma container_requests_counterexample :
  let cfg := Config 10 1 in
  let r := _process_live_stream_data first_saves_fail cfg "stream" "session"
             [Chunk plain_chunk] (start []) in
  count_events is_read (trace (snd r)) = 7 /\
  persisted (snd r) = [1; 2; 3; 4; 5] /\
  ~ (count_events is_read (trace (snd r)) <= Z.min 5 (max_frames cfg - 0)).
Proof.
  assert (R : count_events is_read
                (trace (snd (_process_live_stream_data first_saves_fail (Config 10 1)
                               "stream" "session" [Chunk plain_chunk] (start []))))
              = 7) by (vm_compute; reflexivity).
  intros cfg r. subst cfg r. rewrite R.
  split; [reflexivity|split; [vm_compute; reflexivity|simpl; lia]].
Qed.

(** C5, amended: for each container candidate, also one that opens, the
    trial decoder saves at most 5 frames, numbered after [frame_offset]; it
    requests frames one after the other and stops at the first read that
    fails or once the frames it saved reach the bound of its loop, so that
    it requests at most one frame more than the frames it saved and the
    frames whose save failed. *)
Theorem container_candidate_capped (E : env) (buffer : bytes) (frame_offset : Z)
    (fmt : format) (w : world) :
  let a := try_format E buffer frame_offset fmt 0 w in
  let saved_frames := snd (fst a) in
  0 <= saved_frames <= 5 /\
  saved (trace (snd a)) = down frame_offset (Z.to_nat saved_frames) ++ saved (trace w) /\
  count_events is_read (trace (snd a)) - count_events is_read (trace w)
  <= saved_frames
     + (count_events is_save_failed (trace (snd a))
        - count_events is_save_failed (trace w))
     + 1.
Proof.
  intros a saved_frames. subst saved_frames a.
  destruct (try_format E buffer frame_offset fmt 0 w) as [[s c1] w1] eqn:T.
  pose proof (try_format_adds E _ _ _ _ _ _ _ T) as (T1 & T2 & _ & _ & [Sv _ _]).
  cbn [fst snd]. split; [lia|split; [exact Sv|]].
  unfold try_format, try_format_body in T.
  set (w0 := log (CallVideoCapture _) _) in T.
  destruct (cv_VideoCapture E (ticks w0) _ buffer) as [|[|] reads].
  - injection T as <- <- <-. subst w0. count_lia.
  - destruct (read_frames E reads frame_offset _ 0 0 _) as [[s' c'] w'] eqn:R.
    apply read_frames_requests in R. revert R. subst w0.
    destruct s'; [destruct (0 <? c')| destruct (0 <? c')|];
      injection T as <- <- <-; count_lia.
  - injection T as <- <- <-. subst w0. count_lia.
Qed.

(** * Further properties of the consumer *)

(** ** What [find] finds *)

Lemma starts_with_firstn (sig b : bytes) (n : nat) :
  (length sig <= n)%nat -> starts_with sig (firstn n b) = starts_with sig b.
Proof.
  revert b n. induction sig as [|s sig IH]; intros b n Hn.
  - now destruct (firstn n b), b.
  - destruct n as [|n]; [simpl in Hn; lia|].
    destruct b as [|x b]; [reflexivity|]. simpl.
    rewrite IH by (simpl in Hn; lia). reflexivity.
Qed.

Example detect_examples :
  _detect_stream_format [x1a; x45; xdf; xa3; x00; x00; x00; x01]
  = "WebM/EBML"%string /\
  _detect_stream_format [x00; x00; x00; x01; x67; x42; x00; x1f]
  = "H.264 NAL"%string /\
  _detect_stream_format [x47; x00; x00; x01; x67; x42; x00; x1f]
  = "H.264 NAL (short)"%string /\
  _detect_stream_format [x00; x00; x00; x18; x66; x74; x79; x70]
  = "MP4"%string /\
  _detect_stream_format [x1a; x45; xdf; xa3]
  = "Too small to analyze"%string /\
  _detect_stream_format [xde; xad; xbe; xef; x00; x01; x02; x7f; xff]
  = "Unknown (starts with deadbeef0001027f)"%string.
Proof. repeat split; reflexivity. Qed.

Lemma slice_from_0 (b : bytes) (n : Z) : slice b 0 n = firstn (Z.to_nat n) b.
Proof. unfold slice. now rewrite Z.sub_0_r. Qed.

Lemma blen_firstn (b : bytes) (n : nat) :
  blen (firstn n b) = Z.min (Z.of_nat n) (blen b).
Proof. unfold blen. rewrite length_firstn. lia. Qed.

Lemma starts_with_contains (sig b : bytes) :
  starts_with sig b = true -> contains sig b = true.
Proof.
  intros H. unfold contains, bytes_find.
  replace (blen b <? 0) with false by (symmetry; apply Z.ltb_ge; unfold blen; lia).
  simpl skipn. destruct b as [|x b]; simpl.
  - destruct sig; [reflexivity|discriminate H].
  - simpl in H. destruct sig as [|s sig]; [reflexivity|]. now rewrite H.
Qed.

(** ** The format sniffer *)

Lemma find_first_in_split {A : Type} (f : A -> bool) (before after : list A) (x : A) :
  find f (before ++ x :: after) = Some x ->
  ~ In x before ->
  Forall (fun e => f e = false) before.
Proof.
  induction before as [|b before IH]; intros F N; [constructor|].
  simpl in F. destruct (f b) eqn:C.
  - exfalso. apply N. left. congruence.
  - constructor; [exact C|]. apply IH; [exact F|]. intros X. apply N. now right.
Qed.

Lemma signatures_nodup : NoDup signatures.
Proof.
  unfold signatures.
  repeat (constructor; [simpl; intuition discriminate|]). constructor.
Qed.

Lemma first_signature_firstn (sigs : list (bytes * string)) (chunk : bytes) :
  Forall (fun e => (length (fst e) <= 64)%nat) sigs ->
  first_signature sigs (firstn 64 chunk) = first_signature sigs chunk.
Proof.
  induction 1 as [|[sig name] sigs Hs _ IH]; [reflexivity|].
  cbn [first_signature fst] in *.
  rewrite starts_with_firstn by exact Hs.
  rewrite !slice_from_0, firstn_firstn, Nat.min_id. now rewrite IH.
Qed.

Lemma signatures_short :
  Forall (fun e => (length (fst e) <= 64)%nat) signatures.
Proof. repeat constructor; simpl; lia. Qed.

(** The label of a chunk is the label of its first 64 bytes: nothing past
    them is looked at. *)
Theorem detect_looks_at_64_bytes (chunk : bytes) :
  _detect_stream_format chunk = _detect_stream_format (slice chunk 0 64).
Proof.
  unfold _detect_stream_format. rewrite !slice_from_0.
  change (Z.to_nat 64) with 64%nat. change (Z.to_nat 8) with 8%nat.
  rewrite first_signature_firstn by apply signatures_short.
  rewrite firstn_firstn. change (Nat.min 8 64) with 8%nat.
  rewrite blen_firstn.
  destruct (blen chunk <? 8) eqn:G; [apply Z.ltb_lt in G|apply Z.ltb_ge in G].
  - replace (Z.min (Z.of_nat 64) (blen chunk) <? 8) with true
      by (symmetry; apply Z.ltb_lt; lia). reflexivity.
  - replace (Z.min (Z.of_nat 64) (blen chunk) <? 8) with false
      by (symmetry; apply Z.ltb_ge; lia). reflexivity.
Qed.

Lemma first_signature_find (sigs : list (bytes * string)) (chunk : bytes) :
  Forall (fun e => (length (fst e) <= 64)%nat) sigs ->
  first_signature sigs chunk
  = option_map snd (find (fun e => contains (fst e) (slice chunk 0 64)) sigs).
Proof.
  induction 1 as [|[sig name] sigs Hs _ IH]; [reflexivity|].
  cbn [first_signature find fst snd option_map] in *.
  destruct (contains sig (slice chunk 0 64)) eqn:C.
  - now rewrite orb_true_r.
  - rewrite orb_false_r.
    destruct (starts_with sig chunk) eqn:S; [|exact IH].
    rewrite <- (starts_with_firstn sig chunk 64 Hs) in S.
    apply starts_with_contains in S. rewrite slice_from_0 in C.
    change (Z.to_nat 64) with 64%nat in C. congruence.
Qed.

(** For a chunk of eight bytes or more the label is that of the first
    signature of the table that occurs in the first 64 bytes: the test
    [chunk.startswith(sig)] adds nothing to [sig in chunk[:64]].  A shorter
    chunk is too small whatever it holds. *)
Theorem detect_first_listed (chunk : bytes) :
  _detect_stream_format chunk
  = if blen chunk <? 8 then "Too small to analyze"%string
    else match find (fun e => contains (fst e) (slice chunk 0 64)) signatures with
         | Some e => snd e
         | None => ("Unknown (starts with " ++ hex (slice chunk 0 8) ++ ")")%string
         end.
Proof.
  unfold _detect_stream_format.
  rewrite first_signature_find by apply signatures_short.
  destruct (blen chunk <? 8); [reflexivity|].
  now destruct (find _ signatures).
Qed.

(** A chunk labelled with the name of a signature has eight bytes or more
    and holds this signature in its first 64 bytes, and none of the
    signatures listed before it. *)
Theorem detect_label_sound (chunk : bytes) (before after : list (bytes * string))
    (sig : bytes) (name : string) :
  signatures = before ++ (sig, name) :: after ->
  _detect_stream_format chunk = name ->
  8 <= blen chunk /\
  contains sig (slice chunk 0 64) = true /\
  Forall (fun e => contains (fst e) (slice chunk 0 64) = false) before.
Proof.
  intros Hsplit H. unfold _detect_stream_format in H.
  rewrite first_signature_find in H by apply signatures_short.
  assert (Hin : In (sig, name) signatures)
    by (rewrite Hsplit; apply in_or_app; right; now left).
  assert (Names : forall e, In e signatures ->
            snd e <> "Too small to analyze"%string /\
            (forall h, snd e <> ("Unknown (starts with " ++ h ++ ")")%string) /\
            (snd e = name -> e = (sig, name))).
  { intros e He. simpl in He, Hin.
    repeat (destruct Hin as [Hin|Hin]; [injection Hin as <- <-|]);
      try contradiction;
      repeat (destruct He as [<-|He]; [repeat split; simpl; try discriminate;
                                       intros X; try discriminate X; reflexivity|]);
      contradiction. }
  destruct (blen chunk <? 8) eqn:G.
  { destruct (Names _ Hin) as (N1 & _). simpl in N1. congruence. }
  apply Z.ltb_ge in G. split; [exact G|].
  destruct (find (fun e => contains (fst e) (slice chunk 0 64)) signatures)
    as [e|] eqn:F; cbn [option_map] in H.
  2:{ destruct (Names _ Hin) as (_ & N2 & _). simpl in N2.
      exfalso. eapply N2. symmetry. exact H. }
  pose proof (find_some _ _ F) as [He Hc].
  destruct (Names _ He) as (_ & _ & N3). specialize (N3 H). subst e.
  split; [exact Hc|].
  pose proof signatures_nodup as D. rewrite Hsplit in D, F.
  apply (find_first_in_split _ _ _ _ F).
  apply NoDup_remove_2 in D. intros X. apply D. apply in_or_app. now left.
Qed.

(** A chunk that holds the three-byte start code after one other byte. *)
Lemma detect_label_sound_witness :
  8 <= blen [x47; x00; x00; x01; x67; x42; x00; x1f] /\
  contains [x00; x00; x01] (slice [x47; x00; x00; x01; x67; x42; x00; x1f] 0 64)
  = true /\
  Forall (fun e => contains (fst e)
                     (slice [x47; x00; x00; x01; x67; x42; x00; x1f] 0 64) = false)
    [ ([x1a; x45; xdf; xa3], "WebM/EBML"%string);
      ([x00; x00; x00; x01], "H.264 NAL"%string) ].
Proof.
  apply (detect_label_sound [x47; x00; x00; x01; x67; x42; x00; x1f]
           [ ([x1a; x45; xdf; xa3], "WebM/EBML"%string);
             ([x00; x00; x00; x01], "H.264 NAL"%string) ]
           [ ([x66; x74; x79; x70], "MP4"%string);
             ([x6d; x6f; x6f; x76], "MP4 Movie"%string);
             ([x6d; x64; x61; x74], "MP4 Media Data"%string);
             ([x18; x53; x80; x67], "WebM Segment"%string);
             ([x1f; x43; xb6; x75], "WebM Cluster"%string) ]
           [x00; x00; x01] "H.264 NAL (short)"%string).
  - reflexivity.
  - vm_compute. reflexivity.
Defined.

(** ** Footprints: what a step may log and which files it leaves alone *)

Lemma fs_lookup_remove_owned (p : path) (name : string) (d : list (path * content)) :
  (forall n, p <> Other n) ->
  fs_lookup (Other name) (fs_remove p d) = fs_lookup (Other name) d.
Proof.
  intros Hp. induction d as [|[q c] d IH]; [reflexivity|]. simpl.
  destruct (path_eqb q p) eqn:Eq; simpl.
  - destruct q, p; simpl in Eq; try discriminate Eq;
      try (simpl; exact IH). exfalso. now apply (Hp name1).
  - now rewrite IH.
Qed.

Lemma steps_refl (A : event -> bool) (w : world) : steps A w w.
Proof. constructor; [now exists []|reflexivity|lia]. Qed.

Lemma steps_trans (A : event -> bool) (w w1 w2 : world) :
  steps A w w1 -> steps A w1 w2 -> steps A w w2.
Proof.
  intros [(n1 & T1 & A1) F1 K1] [(n2 & T2 & A2) F2 K2]. constructor.
  - exists (n2 ++ n1). split.
    + now rewrite T2, T1, app_assoc.
    + now rewrite forallb_app, A1, A2.
  - intros name. now rewrite F2, F1.
  - lia.
Qed.

Lemma steps_weaken (A B : event -> bool) (w w' : world) :
  (forall e, A e = true -> B e = true) -> steps A w w' -> steps B w w'.
Proof.
  intros AB [(n & T & HA) F K]. constructor; [|exact F|exact K].
  exists n. split; [exact T|]. apply forallb_forall. intros e He.
  apply AB. now apply (proj1 (forallb_forall A n) HA).
Qed.

Lemma steps_log (A : event -> bool) (e : event) (w w1 : world) :
  A e = true -> steps A w w1 -> steps A w (log e w1).
Proof.
  intros He [(n & T & HA) F K]. constructor; [|exact F|exact K].
  exists (e :: n). simpl. now rewrite T, He, HA.
Qed.

Lemma steps_tick (A : event -> bool) (w w1 : world) :
  steps A w w1 -> steps A w (tick w1).
Proof. intros [N F K]. constructor; [exact N|exact F|simpl; lia]. Qed.

Lemma steps_write (A : event -> bool) (p : path) (c : content) (w w1 : world) :
  (forall n, p <> Other n) -> steps A w w1 -> steps A w (fs_write p c w1).
Proof.
  intros Hp [N F K]. constructor; [exact N| |exact K].
  intros name. simpl.
  replace (path_eqb p (Other name)) with false
    by (destruct p; try reflexivity; exfalso; now apply (Hp name0)).
  now rewrite fs_lookup_remove_owned.
Qed.

Lemma steps_unlink (A : event -> bool) (p : path) (w w1 : world) :
  (forall n, p <> Other n) -> steps A w w1 -> steps A w (fs_unlink p w1).
Proof.
  intros Hp [N F K]. constructor; [exact N| |exact K].
  intros name. simpl. now rewrite fs_lookup_remove_owned.
Qed.

Lemma steps_cleanup (A : event -> bool) (p : path) (w w1 : world) :
  (forall n, p <> Other n) -> steps A w w1 -> steps A w (cleanup p w1).
Proof.
  intros Hp H. unfold cleanup. destruct (fs_exists p w1); [|exact H].
  now apply steps_unlink.
Qed.

(** Proves [steps A w w'] when [w'] is [w] after logs, oracle calls and
    writes or removals of frame and scratch files. *)
Ltac steps_tac :=
  repeat first
    [ assumption
    | apply steps_refl
    | apply steps_log; [reflexivity|]
    | apply steps_tick
    | apply steps_write; [discriminate|]
    | apply steps_unlink; [discriminate|]
    | apply steps_cleanup; [discriminate|] ].

Lemma count_events_app (f : event -> bool) (a b : list event) :
  count_events f (a ++ b) = count_events f a + count_events f b.
Proof. unfold count_events. rewrite filter_app, length_app. lia. Qed.

(** Events that a step may not log are not logged. *)
Lemma steps_logged_none (A f : event -> bool) (w w' : world) :
  (forall e, A e = true -> f e = false) -> steps A w w' -> logged f w w' = 0.
Proof.
  intros Af [(n & T & HA) _ _]. unfold logged. rewrite T, count_events_app.
  assert (count_events f n = 0); [|lia].
  unfold count_events. pose proof (proj1 (forallb_forall A n) HA) as HA'.
  clear HA T. induction n as [|e n IH]; [reflexivity|]. simpl.
  rewrite Af by (apply HA'; now left). apply IH. intros x Hx. apply HA'. now right.
Qed.

Lemma logged_trans (f : event -> bool) (w w1 w2 : world) :
  logged f w w2 = logged f w w1 + logged f w1 w2.
Proof. unfold logged. lia. Qed.

Lemma logged_log (f : event -> bool) (e : event) (w : world) :
  logged f w (log e w) = if f e then 1 else 0.
Proof. unfold logged. simpl. rewrite count_events_cons. lia. Qed.

Section Footprints.

Variable E : env.

Lemma read_frames_steps (frame_offset max_frames : Z) (reads : list read_outcome) :
  forall frame_count c w s c' w',
    read_frames E reads frame_offset max_frames frame_count c w = (s, c', w') ->
    steps candidate_event w w'.
Proof.
  induction reads as [|r reads IH]; intros fc c w s c' w' H; simpl in H;
    destruct (fc <? max_frames); try (injection H as <- <- <-; steps_tac).
  destruct r as [frame| |]; try (injection H as <- <- <-; steps_tac).
  destruct (cv_imwrite E _ _ frame).
  - apply IH in H. eapply steps_trans; [|exact H]. steps_tac.
  - apply IH in H. eapply steps_trans; [|exact H]. steps_tac.
  - injection H as <- <- <-. steps_tac.
Qed.

Lemma candidate_in_container (fmts : list format) (e : event) :
  candidate_event e = true -> container_event fmts e = true.
Proof. destruct e; simpl; try discriminate; auto. Qed.

Lemma container_event_mono (fmts fmts' : list format) (e : event) :
  incl fmts fmts' -> container_event fmts e = true -> container_event fmts' e = true.
Proof.
  intros I. destruct e; simpl; auto. intros H.
  apply existsb_exists in H as (f & Hf & Hfe). apply existsb_exists.
  exists f. split; [now apply I|exact Hfe].
Qed.

Lemma try_format_body_steps (stream_buffer : bytes) (frame_offset : Z) (fmt : format)
    (c : Z) (w : world) (s : signal) (c1 : Z) (w1 : world) :
  try_format_body E stream_buffer frame_offset fmt c w = (s, c1, w1) ->
  steps candidate_event w w1.
Proof.
  intros H. unfold try_format_body in H.
  set (w0 := log (CallVideoCapture _) _) in *.
  assert (S0 : steps candidate_event w w0) by (subst w0; steps_tac).
  destruct (cv_VideoCapture E (ticks w0) _ stream_buffer) as [|[|] reads].
  - injection H as <- <- <-. steps_tac.
  - destruct (read_frames E reads frame_offset _ 0 c _) as [[s' c'] w'] eqn:R.
    apply read_frames_steps in R.
    assert (S1 : steps candidate_event w w').
    { eapply steps_trans; [|exact R]. steps_tac. }
    destruct s'; [destruct (0 <? c')|destruct (0 <? c')|];
      injection H as <- <- <-; steps_tac.
  - injection H as <- <- <-. steps_tac.
Qed.

Lemma candidate_not_start (e : event) :
  candidate_event e = true -> is_cascade_start e = false.
Proof. destruct e; simpl; congruence. Qed.

(** One attempt logs its "Trying format" line once. *)
Lemma try_format_start (stream_buffer : bytes) (frame_offset : Z) (fmt : format)
    (c : Z) (w : world) (s : signal) (c1 : Z) (w1 : world) :
  try_format E stream_buffer frame_offset fmt c w = (s, c1, w1) ->
  steps (container_event [fmt]) w w1 /\
  logged is_cascade_start w w1 = if format_eqb fmt webm then 1 else 0.
Proof.
  intros H. unfold try_format in H.
  destruct (try_format_body E stream_buffer frame_offset fmt c
              (log (LogTryFormat fmt) w)) as [[s' c'] w'] eqn:B.
  apply try_format_body_steps in B. injection H as <- <- <-.
  assert (L : container_event [fmt] (LogTryFormat fmt) = true)
    by (simpl; now rewrite format_eqb_refl).
  assert (B' : steps candidate_event (log (LogTryFormat fmt) w)
                 (cleanup (TempStream frame_offset fmt)
                    match s' with Raised => log (LogFormatError fmt) w' | _ => w' end))
    by (destruct s'; steps_tac).
  split.
  - eapply steps_trans;
      [|eapply steps_weaken; [apply candidate_in_container|exact B']].
    apply steps_log; [exact L|apply steps_refl].
  - rewrite (logged_trans _ w (log (LogTryFormat fmt) w)), logged_log.
    rewrite (steps_logged_none candidate_event is_cascade_start _ _
               candidate_not_start B').
    destruct fmt; reflexivity.
Qed.

Lemma try_format_steps (stream_buffer : bytes) (frame_offset : Z) (fmt : format)
    (c : Z) (w : world) (s : signal) (c1 : Z) (w1 : world) :
  try_format E stream_buffer frame_offset fmt c w = (s, c1, w1) ->
  steps (container_event [fmt]) w w1.
Proof. intros H. now apply try_format_start in H. Qed.

Lemma try_formats_steps (stream_buffer : bytes) (frame_offset : Z)
    (fmts : list format) :
  forall c w c' w',
    try_formats E stream_buffer frame_offset fmts c w = (c', w') ->
    steps (container_event fmts) w w'.
Proof.
  induction fmts as [|fmt fmts IH]; intros c w c' w' H; simpl in H.
  - injection H as <- <-. apply steps_refl.
  - destruct (0 <? c); [injection H as <- <-; apply steps_refl|].
    destruct (try_format E stream_buffer frame_offset fmt c w)
      as [[s c1] w1] eqn:T.
    apply try_format_steps in T.
    apply (steps_weaken _ (container_event (fmt :: fmts))) in T.
    2:{ intros e. apply container_event_mono. intros f [<-|[]]. now left. }
    assert (K : forall c' w',
               try_formats E stream_buffer frame_offset fmts c1 w1 = (c', w') ->
               steps (container_event (fmt :: fmts)) w w').
    { intros c2 w2 H2. apply IH in H2. eapply steps_trans; [exact T|].
      eapply steps_weaken; [|exact H2].
      intros e. apply container_event_mono. intros f Hf. now right. }
    destruct s; [exact (K _ _ H)|injection H as <- <-; exact T|exact (K _ _ H)].
Qed.

Lemma save_jpeg_steps (jpeg_data : bytes) (frame_offset c : Z) (w : world)
    (c' : Z) (w' : world) :
  save_jpeg E jpeg_data frame_offset c w = (c', w') -> steps jpeg_event w w'.
Proof.
  intros H. unfold save_jpeg in H. simpl in H.
  destruct (cv_imread E _ _ jpeg_data).
  - injection H as <- <-. steps_tac.
  - injection H as <- <-. steps_tac.
  - destruct (fs_exists _ _); injection H as <- <-; steps_tac.
Qed.

Lemma jpeg_loop_steps (buffer : bytes) (frame_offset : Z) (fuel : nat) :
  forall pos c w c' w',
    jpeg_loop E fuel buffer frame_offset pos c w = Some (c', w') ->
    steps jpeg_event w w'.
Proof.
  induction fuel as [|fuel IH]; intros pos c w c' w' H; simpl in H;
    [discriminate|].
  destruct ((pos <? blen buffer - 1000) && (c <? 5));
    [|injection H as <- <-; apply steps_refl].
  destruct (bytes_find jpeg_start buffer pos =? -1);
    [injection H as <- <-; apply steps_refl|].
  destruct (bytes_find jpeg_end buffer _ =? -1); [now apply IH in H|].
  destruct (save_jpeg E _ frame_offset c w) as [c1 w1] eqn:S.
  apply save_jpeg_steps in S. apply IH in H. eapply steps_trans; eauto.
Qed.

Lemma _try_decode_raw_frame_steps (frame_data : bytes) (frame_index : Z)
    (ft : frame_type) (w : world) (success : bool) (w' : world) :
  _try_decode_raw_frame E frame_data frame_index ft w = (success, w') ->
  steps decode_event w w'.
Proof.
  intros H. unfold _try_decode_raw_frame in H.
  set (ch := match ft with h264 => (mp4, []) | vp => (webm, ebml_header) end) in *.
  destruct ch as [container_ext header].
  unfold decode_raw_body in H.
  destruct (cv_VideoCapture E _ _ (header ++ frame_data)) as [|opened reads].
  { injection H as <- <-. steps_tac. }
  destruct (if opened then reads else []) as [|[frame| |] reads'].
  - injection H as <- <-. steps_tac.
  - simpl in H. destruct (cv_imwrite E _ _ frame); injection H as <- <-; steps_tac.
  - injection H as <- <-. steps_tac.
  - injection H as <- <-. steps_tac.
Qed.

Lemma decode_in_raw (e : event) : decode_event e = true -> raw_event e = true.
Proof. unfold raw_event. now intros ->. Qed.

Lemma raw_step_steps (buffer : bytes) (frame_offset pos c : Z) (w : world)
    (pos' c' : Z) (w' : world) :
  raw_step E buffer frame_offset pos c w = Some (pos', c', w') ->
  steps raw_event w w' /\ logged is_raw_candidate w w' = 1.
Proof.
  intros H. unfold raw_step in H.
  destruct (next_frame all_signatures buffer pos None) as [[p ft]|];
    [|discriminate].
  destruct (_try_decode_raw_frame E _ (frame_offset + c) ft
              (log (LogRawCandidate ft p) w)) as [success w1] eqn:D.
  apply _try_decode_raw_frame_steps in D. injection H as <- <- <-. split.
  - eapply steps_trans;
      [|eapply steps_weaken; [apply decode_in_raw|exact D]]. steps_tac.
  - rewrite (logged_trans _ w (log (LogRawCandidate ft p) w) w1), logged_log.
    rewrite (steps_logged_none decode_event is_raw_candidate _ _); [reflexivity| |exact D].
    intros e. destruct e as [|p0| | | | | | | | | | | | | | | | | | | |];
      try destruct p0; simpl; congruence.
Qed.

Lemma raw_step_advance (buffer : bytes) (frame_offset pos c : Z) (w : world)
    (pos' c' : Z) (w' : world) :
  0 <= pos ->
  raw_step E buffer frame_offset pos c w = Some (pos', c', w') ->
  pos + 1000 <= pos'.
Proof.
  intros Hp H. unfold raw_step in H.
  destruct (next_frame all_signatures buffer pos None) as [[p ft]|] eqn:N;
    [|discriminate].
  apply next_frame_range in N; [|exact Hp|discriminate].
  destruct (_try_decode_raw_frame E _ (frame_offset + c) ft _).
  injection H as <- <- <-. lia.
Qed.

Lemma raw_loop_steps (buffer : bytes) (frame_offset : Z) (fuel : nat) :
  forall pos c w c' w',
    0 <= pos ->
    raw_loop E fuel buffer frame_offset pos c w = Some (c', w') ->
    steps raw_event w w' /\
    0 <= logged is_raw_candidate w w' /\
    1000 * logged is_raw_candidate w w' <= Z.max 0 (blen buffer - 10000 - pos + 999).
Proof.
  induction fuel as [|fuel IH]; intros pos c w c' w' Hp H; simpl in H;
    [discriminate|].
  assert (Z0 : logged is_raw_candidate w w = 0) by (unfold logged; lia).
  destruct ((pos <? blen buffer - 10000) && (c <? 3)) eqn:G.
  2:{ injection H as <- <-. rewrite Z0. split; [apply steps_refl|lia]. }
  apply andb_true_iff in G as [G _]. apply Z.ltb_lt in G.
  destruct (raw_step E buffer frame_offset pos c w) as [[[pos1 c1] w1]|] eqn:S.
  2:{ injection H as <- <-. rewrite Z0. split; [apply steps_refl|lia]. }
  pose proof (raw_step_advance _ _ _ _ _ _ _ _ Hp S) as Adv.
  apply raw_step_steps in S. destruct S as (S1 & S2).
  apply IH in H; [|lia]. destruct H as (H1 & H2 & H3).
  rewrite (logged_trans _ w w1 w'), S2.
  split; [eapply steps_trans; eauto|lia].
Qed.

Lemma _extract_jpeg_from_buffer_steps (buffer : bytes) (frame_offset : Z)
    (w : world) :
  let r := _extract_jpeg_from_buffer E buffer frame_offset w in
  steps jpeg_event (log LogJpegScan w) (snd r).
Proof.
  unfold _extract_jpeg_from_buffer.
  destruct (jpeg_loop E (jpeg_fuel buffer) buffer frame_offset 0 0
              (log LogJpegScan w)) as [[n w']|] eqn:L; cbn [snd].
  - now apply jpeg_loop_steps in L.
  - apply steps_refl.
Qed.

Lemma _extract_raw_video_frames_steps (buffer : bytes) (frame_offset : Z)
    (w : world) :
  let r := _extract_raw_video_frames E buffer frame_offset w in
  steps raw_event (log LogRawScan w) (snd r) /\
  0 <= logged is_raw_candidate w (snd r) /\
  1000 * logged is_raw_candidate w (snd r) <= Z.max 0 (blen buffer - 9001).
Proof.
  unfold _extract_raw_video_frames.
  assert (L0 : forall w', logged is_raw_candidate w w'
                          = logged is_raw_candidate (log LogRawScan w) w')
    by (intros; unfold logged; simpl; rewrite count_events_cons; simpl; lia).
  destruct (raw_loop E (raw_fuel buffer) buffer frame_offset 0 0
              (log LogRawScan w)) as [[n w']|] eqn:L; cbn [snd].
  - apply raw_loop_steps in L; [|lia]. rewrite !L0.
    destruct L as (L1 & L2 & L3). split; [exact L1|lia].
  - rewrite !L0.
    replace (logged is_raw_candidate (log LogRawScan w) (log LogRawScan w))
      with 0 by (unfold logged; lia).
    split; [apply steps_refl|lia].
Qed.

(** *** What one invocation of the cascade logs *)

Lemma saved_by_strategy (tr : list event) :
  Z.of_nat (length (saved tr))
  = count_events is_saved_frame tr + count_events is_saved_jpeg tr
    + count_events is_saved_raw tr.
Proof.
  induction tr as [|e tr IH]; [reflexivity|].
  rewrite !count_events_cons. destruct e; simpl saved; simpl length;
    cbn [is_saved_frame is_saved_jpeg is_saved_raw]; lia.
Qed.

(** The saved-frame log lines a step added, by strategy, sum to its count. *)
Lemma adds_logged (off n : Z) (w w' : world) :
  0 <= n -> adds off n w w' ->
  logged is_saved_frame w w' + logged is_saved_jpeg w w' + logged is_saved_raw w w'
  = n.
Proof.
  intros Hn [S _ _]. unfold logged.
  pose proof (saved_by_strategy (trace w')) as C'.
  pose proof (saved_by_strategy (trace w)) as C.
  rewrite S, length_app, down_length in C'. lia.
Qed.

Lemma container_footprint (fmts : list format) (e : event) :
  container_event fmts e = true ->
  is_saved_jpeg e = false /\ is_saved_raw e = false /\
  is_jpeg_scan e = false /\ is_raw_scan e = false /\ is_raw_candidate e = false.
Proof. destruct e; simpl; try discriminate; auto. Qed.

Lemma jpeg_footprint (e : event) :
  jpeg_event e = true ->
  is_saved_frame e = false /\ is_saved_raw e = false /\
  is_jpeg_scan e = false /\ is_raw_scan e = false /\
  is_cascade_start e = false /\ is_raw_candidate e = false /\
  is_decoder_call e = false.
Proof. destruct e; simpl; try discriminate; auto 10. Qed.

Lemma raw_footprint (e : event) :
  raw_event e = true ->
  is_saved_frame e = false /\ is_saved_jpeg e = false /\
  is_jpeg_scan e = false /\ is_raw_scan e = false /\
  is_cascade_start e = false.
Proof.
  destruct e as [|p0| | | | | | | | | | | | | | | | | | | |];
    try destruct p0; simpl; try discriminate; auto 10.
Qed.

(** The three stages of the cascade, each with what it logs. *)
Lemma container_stage (buffer : bytes) (frame_offset : Z) (w : world) :
  let r := try_formats E buffer frame_offset video_formats 0 w in
  0 <= fst r /\
  logged is_saved_frame w (snd r) = fst r /\
  logged is_saved_jpeg w (snd r) = 0 /\ logged is_saved_raw w (snd r) = 0 /\
  logged is_jpeg_scan w (snd r) = 0 /\ logged is_raw_scan w (snd r) = 0 /\
  logged is_raw_candidate w (snd r) = 0 /\
  logged is_cascade_start w (snd r) = 1.
Proof.
  destruct (try_formats E buffer frame_offset video_formats 0 w) as [c1 w1] eqn:T.
  cbn [fst snd].
  pose proof (try_formats_steps _ _ _ _ _ _ _ T) as St.
  pose proof (try_formats_adds E _ _ _ _ _ _ _ (Z.le_refl 0) T) as (A1 & _ & A3).
  rewrite Z.add_0_r, Z.sub_0_r in A3.
  assert (A4 : adds frame_offset c1 w w1).
  { destruct A3 as [S C L]. constructor; [exact S|exact C|exact L]. }
  pose proof (adds_logged _ _ _ _ A1 A4) as Sum.
  assert (Z1 : logged is_saved_jpeg w w1 = 0)
    by (eapply steps_logged_none; [|exact St]; intros e He;
        now apply container_footprint in He).
  assert (Z2 : logged is_saved_raw w w1 = 0)
    by (eapply steps_logged_none; [|exact St]; intros e He;
        now apply container_footprint in He).
  assert (Z3 : logged is_jpeg_scan w w1 = 0)
    by (eapply steps_logged_none; [|exact St]; intros e He;
        now apply container_footprint in He).
  assert (Z4 : logged is_raw_scan w w1 = 0)
    by (eapply steps_logged_none; [|exact St]; intros e He;
        now apply container_footprint in He).
  assert (Z5 : logged is_raw_candidate w w1 = 0)
    by (eapply steps_logged_none; [|exact St]; intros e He;
        now apply container_footprint in He).
  repeat split; try assumption; try lia.
  (* the first candidate logs the first line of the cascade, the others do not *)
  unfold video_formats in T. cbn [try_formats Z.ltb Z.compare] in T.
  destruct (try_format E buffer frame_offset webm 0 w) as [[s c0] w0] eqn:F.
  apply try_format_start in F. destruct F as (_ & F). cbn [format_eqb] in F.
  assert (R : forall c' w', try_formats E buffer frame_offset [mkv; mp4] c0 w0 = (c', w') ->
                logged is_cascade_start w0 w' = 0).
  { intros c' w' H. apply try_formats_steps in H.
    eapply steps_logged_none; [|exact H].
    intros e. destruct e as [f| | | | | | | | | | | | | | | | | | | | |];
      try destruct f; simpl; congruence. }
  destruct s.
  - rewrite (logged_trans _ w w0 w1), F, (R _ _ T). reflexivity.
  - injection T as <- <-. exact F.
  - rewrite (logged_trans _ w w0 w1), F, (R _ _ T). reflexivity.
Qed.

Lemma jpeg_stage (buffer : bytes) (frame_offset : Z) (w : world) :
  let r := _extract_jpeg_from_buffer E buffer frame_offset w in
  0 <= fst r /\
  logged is_saved_frame w (snd r) = 0 /\
  logged is_saved_jpeg w (snd r) = fst r /\ logged is_saved_raw w (snd r) = 0 /\
  logged is_jpeg_scan w (snd r) = 1 /\ logged is_raw_scan w (snd r) = 0 /\
  logged is_raw_candidate w (snd r) = 0 /\
  logged is_cascade_start w (snd r) = 0 /\
  logged is_decoder_call w (snd r) = 0.
Proof.
  pose proof (_extract_jpeg_from_buffer_steps buffer frame_offset w) as St.
  destruct (_extract_jpeg_from_buffer E buffer frame_offset w) as [n w'] eqn:X.
  cbn [fst snd] in *.
  pose proof (_extract_jpeg_from_buffer_adds E _ _ _ _ _ X) as (N1 & _ & A).
  pose proof (adds_logged _ _ _ _ N1 A) as Sum.
  assert (Z : forall f, (forall e, jpeg_event e = true -> f e = false) ->
                logged f w w' = if f LogJpegScan then 1 else 0).
  { intros f Hf. rewrite (logged_trans _ w (log LogJpegScan w) w'), logged_log.
    rewrite (steps_logged_none jpeg_event f _ _ Hf St). lia. }
  assert (Z1 := Z is_saved_frame). assert (Z2 := Z is_saved_raw).
  assert (Z3 := Z is_jpeg_scan). assert (Z4 := Z is_raw_scan).
  assert (Z5 := Z is_raw_candidate). assert (Z6 := Z is_cascade_start).
  assert (Z7 := Z is_decoder_call). cbn in Z1, Z2, Z3, Z4, Z5, Z6, Z7.
  rewrite Z1, Z2, Z3, Z4, Z5, Z6, Z7 in *;
    try (intros e He; now apply jpeg_footprint in He).
  repeat split; try reflexivity; lia.
Qed.

Lemma raw_stage (buffer : bytes) (frame_offset : Z) (w : world) :
  let r := _extract_raw_video_frames E buffer frame_offset w in
  0 <= fst r /\
  logged is_saved_frame w (snd r) = 0 /\
  logged is_saved_jpeg w (snd r) = 0 /\ logged is_saved_raw w (snd r) = fst r /\
  logged is_jpeg_scan w (snd r) = 0 /\ logged is_raw_scan w (snd r) = 1 /\
  logged is_cascade_start w (snd r) = 0 /\
  0 <= logged is_raw_candidate w (snd r) /\
  1000 * logged is_raw_candidate w (snd r) <= Z.max 0 (blen buffer - 9001).
Proof.
  pose proof (_extract_raw_video_frames_steps buffer frame_offset w) as (St & C1 & C2).
  destruct (_extract_raw_video_frames E buffer frame_offset w) as [n w'] eqn:X.
  cbn [fst snd] in *.
  pose proof (_extract_raw_video_frames_adds E _ _ _ _ _ X) as (N1 & _ & A).
  pose proof (adds_logged _ _ _ _ N1 A) as Sum.
  assert (Z : forall f, (forall e, raw_event e = true -> f e = false) ->
                logged f w w' = if f LogRawScan then 1 else 0).
  { intros f Hf. rewrite (logged_trans _ w (log LogRawScan w) w'), logged_log.
    rewrite (steps_logged_none raw_event f _ _ Hf St). lia. }
  assert (Z1 := Z is_saved_frame). assert (Z2 := Z is_saved_jpeg).
  assert (Z3 := Z is_jpeg_scan). assert (Z4 := Z is_raw_scan).
  assert (Z6 := Z is_cascade_start). cbn in Z1, Z2, Z3, Z4, Z6.
  rewrite Z1, Z2, Z3, Z4, Z6 in *;
    try (intros e He; now apply raw_footprint in He).
  repeat split; try reflexivity; lia.
Qed.

Lemma jpeg_in_cascade (e : event) : jpeg_event e = true -> cascade_event e = true.
Proof. unfold cascade_event. intros ->. now rewrite orb_true_r. Qed.

Lemma raw_in_cascade (e : event) : raw_event e = true -> cascade_event e = true.
Proof. unfold cascade_event. intros ->. now rewrite orb_true_r. Qed.

Lemma container_in_cascade (e : event) :
  container_event video_formats e = true -> cascade_event e = true.
Proof. unfold cascade_event. now intros ->. Qed.

Lemma _extract_frames_from_stream_buffer_steps (buffer : bytes) (frame_offset : Z)
    (w : world) :
  steps cascade_event w
    (snd (_extract_frames_from_stream_buffer E buffer frame_offset w)).
Proof.
  unfold _extract_frames_from_stream_buffer.
  destruct (try_formats E buffer frame_offset video_formats 0 w) as [c w1] eqn:T.
  apply try_formats_steps in T.
  apply (steps_weaken _ cascade_event) in T; [|exact container_in_cascade].
  assert (J : forall w0, steps cascade_event w0
                (snd (_extract_jpeg_from_buffer E buffer frame_offset w0))).
  { intros w0. apply (steps_trans _ _ (log LogJpegScan w0)); [steps_tac|].
    eapply steps_weaken; [exact jpeg_in_cascade|].
    apply _extract_jpeg_from_buffer_steps. }
  assert (R : forall w0, steps cascade_event w0
                (snd (_extract_raw_video_frames E buffer frame_offset w0))).
  { intros w0. apply (steps_trans _ _ (log LogRawScan w0)); [steps_tac|].
    eapply steps_weaken; [exact raw_in_cascade|].
    apply _extract_raw_video_frames_steps. }
  destruct (c =? 0) eqn:Z0.
  - specialize (J w1).
    destruct (_extract_jpeg_from_buffer E buffer frame_offset w1) as [nj w2].
    cbn [snd] in J.
    destruct (c + nj =? 0).
    + specialize (R w2).
      destruct (_extract_raw_video_frames E buffer frame_offset w2) as [nr w3].
      cbn [snd] in *. eapply steps_trans; [exact T|].
      eapply steps_trans; [exact J|exact R].
    + cbn [snd]. eapply steps_trans; [exact T|exact J].
  - rewrite Z0. exact T.
Qed.

Ltac eqb_cases :=
  repeat match goal with
         | |- context [?a =? ?b] => destruct (Z.eqb_spec a b)
         end;
  cbn [andb]; repeat split; lia.

(** One invocation of the cascade: the frames it reports were all saved by
    one strategy, a later strategy runs exactly when the earlier ones saved
    nothing, and the raw scanner makes at most one decode attempt per 1000
    bytes of the buffer past its first 9001. *)
Lemma cascade_counts (buffer : bytes) (frame_offset : Z) (w : world) :
  let r := _extract_frames_from_stream_buffer E buffer frame_offset w in
  let n := fst r in
  let nf := logged is_saved_frame w (snd r) in
  let nj := logged is_saved_jpeg w (snd r) in
  let nr := logged is_saved_raw w (snd r) in
  0 <= n /\
  (nf = n /\ nj = 0 /\ nr = 0 \/ nf = 0 /\ nj = n /\ nr = 0
   \/ nf = 0 /\ nj = 0 /\ nr = n) /\
  logged is_cascade_start w (snd r) = 1 /\
  logged is_jpeg_scan w (snd r) = (if nf =? 0 then 1 else 0) /\
  logged is_raw_scan w (snd r) = (if (nf =? 0) && (nj =? 0) then 1 else 0) /\
  0 <= logged is_raw_candidate w (snd r) /\
  1000 * logged is_raw_candidate w (snd r) <= Z.max 0 (blen buffer - 9001).
Proof.
  unfold _extract_frames_from_stream_buffer.
  pose proof (container_stage buffer frame_offset w) as C.
  destruct (try_formats E buffer frame_offset video_formats 0 w) as [c w1].
  cbn [fst snd] in C. destruct C as (C0 & C1 & C2 & C3 & C4 & C5 & C6 & C7).
  destruct (c =? 0) eqn:Z0.
  - apply Z.eqb_eq in Z0.
    pose proof (jpeg_stage buffer frame_offset w1) as J.
    destruct (_extract_jpeg_from_buffer E buffer frame_offset w1) as [nj w2].
    cbn [fst snd] in J. destruct J as (J0 & J1 & J2 & J3 & J4 & J5 & J6 & J7 & _).
    destruct (c + nj =? 0) eqn:Z1.
    + apply Z.eqb_eq in Z1.
      pose proof (raw_stage buffer frame_offset w2) as R.
      destruct (_extract_raw_video_frames E buffer frame_offset w2) as [nr w3].
      cbv beta zeta iota; cbn [fst snd] in *.
      destruct R as (R0 & R1 & R2 & R3 & R4 & R5 & R6 & R7 & R8).
      rewrite !(logged_trans _ w w1 w3), !(logged_trans _ w1 w2 w3).
      rewrite C1, C2, C3, C4, C5, C6, C7, J1, J2, J3, J4, J5, J6, J7,
        R1, R2, R3, R4, R5, R6.
      eqb_cases.
    + apply Z.eqb_neq in Z1. cbv beta zeta iota; cbn [fst snd] in *.
      rewrite !(logged_trans _ w w1 w2).
      rewrite C1, C2, C3, C4, C5, C6, C7, J1, J2, J3, J4, J5, J6, J7.
      eqb_cases.
  - rewrite Z0. cbv beta zeta iota; cbn [fst snd].
    rewrite C1, C2, C3, C4, C5, C6, C7. apply Z.eqb_neq in Z0.
    eqb_cases.
Qed.

(** *** What a session logs and counts *)

Lemma cascade_in_session (e : event) : cascade_event e = true -> session_event e = true.
Proof. unfold session_event. now intros ->. Qed.

Lemma extract_and_count_steps (st : loop_state) (w : world) :
  let r := extract_and_count E st w in
  steps session_event w (snd r) /\
  logged is_cascade_start w (snd r) = 1 /\
  chunk_count (fst r) = chunk_count st /\
  total_bytes_read (fst r) = total_bytes_read st /\
  stream_buffer (fst r) = stream_buffer st.
Proof.
  unfold extract_and_count.
  pose proof (_extract_frames_from_stream_buffer_steps (stream_buffer st)
                (frames_extracted st) w) as St.
  pose proof (cascade_counts (stream_buffer st) (frames_extracted st) w)
    as (_ & _ & C & _).
  destruct (_extract_frames_from_stream_buffer E (stream_buffer st)
              (frames_extracted st) w) as [n w1].
  cbn [fst snd] in *.
  apply (steps_weaken _ session_event) in St; [|exact cascade_in_session].
  destruct (0 <? n); cbn [fst snd chunk_count total_bytes_read stream_buffer];
    auto.
Qed.

Lemma blen_app (a b : bytes) : blen (a ++ b) = blen a + blen b.
Proof. unfold blen. rewrite length_app. lia. Qed.

Lemma blen_trim_buffer (b : bytes) :
  blen (trim_buffer b) = if 500000 <? blen b then 300000 else blen b.
Proof.
  unfold trim_buffer, last_bytes. destruct (500000 <? blen b) eqn:L; [|reflexivity].
  apply Z.ltb_lt in L. unfold blen in *. rewrite length_skipn. lia.
Qed.

Lemma on_chunk_steps (chunk : bytes) (st : loop_state) (w : world) :
  let r := on_chunk E chunk st w in
  let b := stream_buffer st ++ chunk in
  let checkpoint := ((chunk_count st + 1) mod 3 =? 0) && (200000 <? blen b) in
  steps session_event w (snd r) /\
  chunk_count (fst r) = chunk_count st + 1 /\
  total_bytes_read (fst r) = total_bytes_read st + blen chunk /\
  logged is_cascade_start w (snd r) = (if checkpoint then 1 else 0) /\
  blen (stream_buffer (fst r))
  = if checkpoint && (500000 <? blen b) then 300000 else blen b.
Proof.
  unfold on_chunk.
  cbn [chunk_count stream_buffer frames_extracted saved_count total_bytes_read].
  destruct (((chunk_count st + 1) mod 3 =? 0)
            && (200000 <? blen (stream_buffer st ++ chunk))) eqn:C.
  - match goal with
    | |- context [extract_and_count E ?s w] =>
        pose proof (extract_and_count_steps s w) as (X1 & X2 & X3 & X4 & X5);
        destruct (extract_and_count E s w) as [st1 w1]
    end.
    cbn [fst snd chunk_count stream_buffer total_bytes_read] in *.
    rewrite X5, blen_trim_buffer. cbn [andb]. auto.
  - cbn [fst snd chunk_count stream_buffer total_bytes_read andb].
    repeat split; try reflexivity; try apply steps_refl. unfold logged. lia.
Qed.

Lemma readable_length (stream_payload : list read_result) :
  (length (readable stream_payload) <= length stream_payload)%nat.
Proof.
  induction stream_payload as [|[[|x c]|] rest IH]; simpl; lia.
Qed.

(** The reading loop: how many chunks it took, what it counted, and how
    often it ran the cascade. *)
Lemma read_loop_steps (cfg : config) (process_start_time : Z)
    (stream_payload : list read_result) :
  forall st w,
    let r := read_loop E cfg stream_payload process_start_time st w in
    steps session_event w (snd r) /\
    exists k : nat,
      (k <= length (readable stream_payload))%nat /\
      chunk_count (fst r) = chunk_count st + Z.of_nat k /\
      total_bytes_read (fst r)
      = total_bytes_read st + total_len (firstn k (readable stream_payload)) /\
      logged is_cascade_start w (snd r)
      <= chunk_count (fst r) / 3 - chunk_count st / 3.
Proof.
  assert (Stay : forall (l : list bytes) st (w w' : world),
            steps session_event w w' -> logged is_cascade_start w w' = 0 ->
            steps session_event w (snd (st, w')) /\
            exists k : nat,
              (k <= length l)%nat /\
              chunk_count (fst (st, w')) = chunk_count st + Z.of_nat k /\
              total_bytes_read (fst (st, w')) = total_bytes_read st + total_len (firstn k l) /\
              logged is_cascade_start w (snd (st, w'))
              <= chunk_count (fst (st, w')) / 3 - chunk_count st / 3).
  { intros l st w w' St L. cbn [fst snd]. split; [exact St|].
    exists 0%nat. rewrite L. repeat split; simpl; lia. }
  assert (Stop : forall (w : world) e, session_event e = true ->
            is_cascade_start e = false ->
            steps session_event w (log e (tick w)) /\
            logged is_cascade_start w (log e (tick w)) = 0).
  { intros w e He Hc. split.
    - apply steps_log; [exact He|]. apply steps_tick. apply steps_refl.
    - unfold logged. simpl. rewrite count_events_cons, Hc. lia. }
  induction stream_payload as [|p rest IH]; intros st w.
  - cbn [read_loop]. unfold now. cbv beta iota zeta.
    destruct (frames_extracted st <? max_frames cfg).
    + destruct (60000 <? _); apply (Stay (readable _)); apply Stop; reflexivity.
    + apply (Stay (readable _)); [apply steps_refl|unfold logged; lia].
  - cbn [read_loop]. destruct (frames_extracted st <? max_frames cfg).
    2:{ apply (Stay (readable _)); [apply steps_refl|unfold logged; lia]. }
    unfold now. cbv beta iota zeta.
    destruct (60000 <? _); [apply (Stay (readable _)); apply Stop; reflexivity|].
    destruct p as [[|x c]|]; try (apply (Stay (readable _)); apply Stop; reflexivity).
    pose proof (on_chunk_steps (x :: c) st (tick w)) as (O1 & O2 & O3 & O4 & _).
    destruct (on_chunk E (x :: c) st (tick w)) as [st1 w1].
    cbn [fst snd] in O1, O2, O3, O4.
    specialize (IH st1 w1).
    destruct IH as (I1 & k & K1 & K2 & K3 & K4).
    split.
    + eapply steps_trans; [|exact I1]. eapply steps_trans; [|exact O1].
      apply steps_tick, steps_refl.
    + exists (S k). cbn [readable length firstn total_len].
      rewrite K2, K3, O2, O3.
      rewrite (logged_trans _ w w1), (logged_trans _ w (tick w) w1).
      replace (logged is_cascade_start w (tick w)) with 0 by (unfold logged; simpl; lia).
      rewrite O4. rewrite K2, O2 in K4.
      repeat split; try lia.
      destruct (_ && _) eqn:C.
      * apply andb_prop in C as [C _]. apply Z.eqb_eq in C.
        Z.to_euclidean_division_equations; lia.
      * Z.to_euclidean_division_equations; lia.
Qed.

Lemma final_attempt_steps (cfg : config) (st : loop_state) (w : world) :
  let r := final_attempt E cfg st w in
  steps session_event w (snd r) /\
  0 <= logged is_cascade_start w (snd r) <= 1 /\
  chunk_count (fst r) = chunk_count st /\
  total_bytes_read (fst r) = total_bytes_read st /\
  stream_buffer (fst r) = stream_buffer st.
Proof.
  unfold final_attempt. destruct (_ && _).
  - pose proof (extract_and_count_steps st (log LogFinalAttempt w))
      as (X1 & X2 & X3 & X4 & X5).
    destruct (extract_and_count E st (log LogFinalAttempt w)) as [st1 w1].
    cbn [fst snd] in *. split; [|split; [|auto]].
    + eapply steps_trans; [|exact X1]. steps_tac.
    + rewrite (logged_trans _ w (log LogFinalAttempt w)), logged_log, X2.
      simpl. lia.
  - cbn [fst snd]. split; [apply steps_refl|]. unfold logged.
    repeat split; lia.
Qed.

(** A session: what it logs and calls, what its summary counts, and how
    often it runs the cascade. *)
Lemma session_steps (cfg : config) (stream_name session_dir : string)
    (stream_payload : list read_result) (w : world) :
  let r := _process_live_stream_data E cfg stream_name session_dir
             stream_payload w in
  steps session_event w (snd r) /\
  exists k : nat,
    (k <= length (readable stream_payload))%nat /\
    json_get "total_chunks_processed" (summary_of (snd r))
    = Some (JNum (Z.of_nat k)) /\
    json_get "total_bytes_read" (summary_of (snd r))
    = Some (JNum (total_len (firstn k (readable stream_payload)))) /\
    logged is_cascade_start w (snd r) <= Z.of_nat k / 3 + 1.
Proof.
  unfold _process_live_stream_data, now. cbv beta iota zeta.
  pose proof (read_loop_steps cfg (clock E (ticks w)) stream_payload
                (LoopState 0 0 0 0 []) (tick w)) as (R1 & k & K1 & K2 & K3 & K4).
  destruct (read_loop E cfg stream_payload (clock E (ticks w))
              (LoopState 0 0 0 0 []) (tick w)) as [st1 w1].
  cbn [fst snd chunk_count total_bytes_read] in R1, K2, K3, K4.
  pose proof (final_attempt_steps cfg st1 w1) as (F1 & F2 & F3 & F4 & _).
  destruct (final_attempt E cfg st1 w1) as [st2 w2].
  cbn [fst snd] in *. unfold _save_live_summary, now. cbv beta iota zeta.
  split.
  - steps_tac. apply (steps_trans _ _ w1); [|exact F1].
    apply (steps_trans _ _ (tick w)); [steps_tac|exact R1].
  - exists k. split; [exact K1|].
    unfold summary_of, fs_write. cbn [fs log tick trace].
    cbn [fs_lookup]. rewrite path_eqb_refl. unfold live_summary.
    cbn. rewrite F3, F4, K2, K3. repeat split.
    unfold logged in *. cbn [trace log tick fs_write] in *.
    rewrite !count_events_cons. cbn [is_cascade_start].
    rewrite K2, Z.add_0_l in K4. change (0 / 3) with 0 in K4. lia.
Qed.

(** The buffer of the reading loop: at most 500000 bytes after a chunk
    whose number is a multiple of 3, and one read more for each chunk since. *)
Lemma read_loop_buffer (cfg : config) (process_start_time : Z)
    (stream_payload : list read_result) :
  forallb within_read_size stream_payload = true ->
  forall st w,
    blen (stream_buffer st) <= 500000 + (chunk_count st mod 3) * read_size ->
    let r := read_loop E cfg stream_payload process_start_time st w in
    blen (stream_buffer (fst r))
    <= 500000 + (chunk_count (fst r) mod 3) * read_size.
Proof.
  induction stream_payload as [|p rest IH]; intros Sz st w B.
  - cbn [read_loop]. unfold now. cbv beta iota zeta.
    destruct (frames_extracted st <? max_frames cfg);
      [destruct (60000 <? _)|]; exact B.
  - cbn [read_loop]. unfold now. cbv beta iota zeta.
    cbn [forallb] in Sz. apply andb_prop in Sz as [Sp Sz].
    destruct (frames_extracted st <? max_frames cfg); [|exact B].
    destruct (60000 <? _); [exact B|].
    destruct p as [[|x c]|]; try exact B.
    pose proof (on_chunk_steps (x :: c) st (tick w)) as (_ & O2 & _ & _ & O5).
    destruct (on_chunk E (x :: c) st (tick w)) as [st1 w1].
    cbn [fst snd] in O2, O5. apply (IH Sz).
    rewrite O5, O2, blen_app. clear O5 O2. cbn [within_read_size] in Sp.
    apply Z.leb_le in Sp. unfold read_size in *.
    destruct (Z.eqb_spec ((chunk_count st + 1) mod 3) 0) as [M|M]; cbn [andb].
    + rewrite M.
      repeat match goal with
             | |- context [?a <? ?b] => destruct (Z.ltb_spec a b)
             end; cbn [andb]; lia.
    + Z.to_euclidean_division_equations; lia.
Qed.

(** *** The decode attempts of the raw scanner *)

Lemma _try_decode_raw_frame_opens (frame_data : bytes) (frame_index : Z)
    (ft : frame_type) (w : world) :
  logged is_capture_open w
    (snd (_try_decode_raw_frame E frame_data frame_index ft w)) = 1.
Proof.
  unfold _try_decode_raw_frame.
  set (ch := match ft with h264 => (mp4, []) | vp => (webm, ebml_header) end).
  destruct ch as [container_ext header].
  unfold decode_raw_body, now.
  assert (C : forall p w0, trace (cleanup p w0) = trace w0)
    by (intros; apply cleanup_trace).
  destruct (cv_VideoCapture E _ _ (header ++ frame_data)) as [|opened reads].
  { cbn [snd]. unfold logged. rewrite C. cbn [trace log tick fs_write].
    rewrite !count_events_cons. cbn [is_capture_open]. lia. }
  destruct (if opened then reads else []) as [|[frame| |] reads'];
    cbv beta iota zeta;
    try (cbn [snd]; unfold logged; rewrite C; cbn [trace log tick fs_write];
         rewrite !count_events_cons; cbn [is_capture_open]; lia).
  destruct (cv_imwrite E _ _ frame);
    cbn [snd]; unfold logged; rewrite C; cbn [trace log tick fs_write];
    rewrite !count_events_cons; cbn [is_capture_open]; lia.
Qed.

Lemma raw_step_opens (buffer : bytes) (frame_offset pos c : Z) (w : world)
    (pos' c' : Z) (w' : world) :
  raw_step E buffer frame_offset pos c w = Some (pos', c', w') ->
  logged is_capture_open w w' = 1.
Proof.
  intros H. unfold raw_step in H.
  destruct (next_frame all_signatures buffer pos None) as [[p ft]|];
    [|discriminate].
  cbv zeta in H.
  pose proof (_try_decode_raw_frame_opens
                (slice buffer p (Z.min (p + 51200) (blen buffer)))
                (frame_offset + c) ft (log (LogRawCandidate ft p) w)) as O.
  destruct (_try_decode_raw_frame E _ (frame_offset + c) ft
              (log (LogRawCandidate ft p) w)) as [success w1].
  cbn [snd] in O. injection H as <- <- <-.
  rewrite (logged_trans _ w (log (LogRawCandidate ft p) w) w1), logged_log, O.
  reflexivity.
Qed.

Lemma raw_loop_attempts (buffer : bytes) (frame_offset : Z) (fuel : nat) :
  forall pos c w c' w',
    raw_loop E fuel buffer frame_offset pos c w = Some (c', w') ->
    logged is_capture_open w w' = logged is_raw_candidate w w' /\
    c' - c <= logged is_raw_candidate w w'.
Proof.
  induction fuel as [|fuel IH]; intros pos c w c' w' H; simpl in H;
    [discriminate|].
  assert (Z0 : forall f, logged f w w = 0) by (intros; unfold logged; lia).
  destruct ((pos <? blen buffer - 10000) && (c <? 3)).
  2:{ injection H as <- <-. rewrite !Z0. lia. }
  destruct (raw_step E buffer frame_offset pos c w) as [[[pos1 c1] w1]|] eqn:S.
  2:{ injection H as <- <-. rewrite !Z0. lia. }
  pose proof (raw_step_opens _ _ _ _ _ _ _ _ S) as O.
  pose proof (raw_step_adds E _ _ _ _ _ _ _ _ S) as (A1 & A2 & _).
  apply raw_step_steps in S. destruct S as (_ & S2).
  apply IH in H. destruct H as (H1 & H2).
  rewrite !(logged_trans _ w w1 w'), S2, O, H1. lia.
Qed.

Lemma _extract_raw_video_frames_attempts (buffer : bytes) (frame_offset : Z)
    (w : world) :
  let r := _extract_raw_video_frames E buffer frame_offset w in
  logged is_capture_open w (snd r) = logged is_raw_candidate w (snd r) /\
  fst r <= logged is_raw_candidate w (snd r).
Proof.
  unfold _extract_raw_video_frames.
  assert (L0 : forall f w', f LogRawScan = false ->
                 logged f w w' = logged f (log LogRawScan w) w').
  { intros f w' Hf. unfold logged. simpl. rewrite count_events_cons, Hf. lia. }
  destruct (raw_loop E (raw_fuel buffer) buffer frame_offset 0 0
              (log LogRawScan w)) as [[n w']|] eqn:L; cbn [fst snd].
  - apply raw_loop_attempts in L. rewrite !L0 by reflexivity. lia.
  - rewrite !L0 by reflexivity. unfold logged. lia.
Qed.

End Footprints.

(** ** What [find] answers *)

Lemma find_at_found (sig b : bytes) :
  forall i, 0 <= i -> find_at sig b i <> -1 ->
    exists k : nat,
      (k <= length b)%nat /\ find_at sig b i = i + Z.of_nat k /\
      starts_with sig (skipn k b) = true /\
      forall j : nat, (j < k)%nat -> starts_with sig (skipn j b) = false.
Proof.
  induction b as [|x b IH]; intros i Hi H.
  - simpl in H. destruct sig; [|congruence].
    exists 0%nat. simpl. repeat split; try lia.
  - cbn [find_at] in *. destruct (starts_with sig (x :: b)) eqn:S0.
    + exists 0%nat. cbn [skipn]. repeat split; try lia. exact S0.
    + destruct (IH (i + 1)) as (k & K1 & K2 & K3 & K4); [lia|exact H|].
      exists (S k). cbn [skipn length]. repeat split; try lia; try assumption.
      intros [|j] Hj; [exact S0|]. cbn [skipn]. apply K4. lia.
Qed.

Lemma find_at_absent (sig b : bytes) :
  forall i, 0 <= i -> find_at sig b i = -1 ->
    forall k : nat, starts_with sig (skipn k b) = false.
Proof.
  induction b as [|x b IH]; intros i Hi H k.
  - simpl in H. destruct sig; [lia|now destruct k].
  - cbn [find_at] in H. destruct (starts_with sig (x :: b)) eqn:S0; [lia|].
    destruct k as [|k]; [exact S0|]. cbn [skipn]. apply (IH (i + 1)); [lia|exact H].
Qed.

(** [b.find(sig, start)] answers the lowest index at or after [start] where
    [sig] occurs. *)
Lemma bytes_find_found (sig b : bytes) (start : Z) :
  0 <= start -> bytes_find sig b start <> -1 ->
  let p := bytes_find sig b start in
  start <= p <= blen b /\ occurs_at sig b p = true /\
  forall q, start <= q < p -> occurs_at sig b q = false.
Proof.
  intros Hs H. unfold bytes_find in *.
  destruct (blen b <? start) eqn:L; [congruence|]. apply Z.ltb_ge in L.
  destruct (find_at_found sig (skipn (Z.to_nat start) b) start Hs H)
    as (k & K1 & K2 & K3 & K4).
  cbv zeta. rewrite K2. rewrite length_skipn in K1. unfold blen in *.
  unfold occurs_at. rewrite skipn_skipn in K3.
  replace (Z.to_nat (start + Z.of_nat k)) with (k + Z.to_nat start)%nat by lia.
  repeat split; try lia; try exact K3.
  intros q Hq. specialize (K4 (Z.to_nat (q - start)) ltac:(lia)).
  rewrite skipn_skipn in K4.
  replace (Z.to_nat (q - start) + Z.to_nat start)%nat with (Z.to_nat q) in K4 by lia.
  exact K4.
Qed.

(** [b.find(sig, start)] answers [-1] only when [sig] occurs nowhere at or
    after [start]. *)
Lemma bytes_find_absent (sig b : bytes) (start : Z) :
  0 <= start -> bytes_find sig b start = -1 ->
  forall q, start <= q <= blen b -> occurs_at sig b q = false.
Proof.
  intros Hs H q Hq. unfold bytes_find in H.
  destruct (blen b <? start) eqn:L; [apply Z.ltb_lt in L; lia|].
  pose proof (find_at_absent _ _ _ Hs H (Z.to_nat (q - start))) as K.
  rewrite skipn_skipn in K. unfold occurs_at.
  replace (Z.to_nat (q - start) + Z.to_nat start)%nat with (Z.to_nat q) in K by lia.
  exact K.
Qed.

(** A signature that occurs nowhere in a buffer is found from no position. *)
Lemma bytes_find_absent_from (sig b : bytes) (start : Z) :
  0 <= start -> contains sig b = false -> bytes_find sig b start = -1.
Proof.
  intros Hs C. unfold contains in C. apply negb_false_iff, Z.eqb_eq in C.
  destruct (Z.eq_dec (bytes_find sig b start) (-1)) as [D|D]; [exact D|].
  destruct (bytes_find_found sig b start Hs D) as (R & O & _).
  rewrite (bytes_find_absent sig b 0 ltac:(lia) C) in O; [discriminate|lia].
Qed.

(** ** The search of the raw scanner *)

Lemma none_occurs_app (done : list (bytes * frame_type)) (sig : bytes)
    (ft : frame_type) (b : bytes) (lo hi : Z) :
  none_occurs done b lo hi ->
  (forall q, lo <= q < hi -> occurs_at sig b q = false) ->
  none_occurs (done ++ [(sig, ft)]) b lo hi.
Proof.
  intros D S0 sig' ft' q I Hq. apply in_app_or in I as [I|[I|[]]].
  - now apply (D sig' ft').
  - injection I as <- <-. now apply S0.
Qed.

Lemma none_occurs_less (sigs : list (bytes * frame_type)) (b : bytes) (lo hi hi' : Z) :
  hi' <= hi -> none_occurs sigs b lo hi -> none_occurs sigs b lo hi'.
Proof. intros L N sig ft q I Hq. apply (N sig ft); [exact I|lia]. Qed.

Lemma next_frame_earliest (buffer : bytes) (pos : Z) (sigs : list (bytes * frame_type)) :
  0 <= pos ->
  forall done found,
    earliest done buffer pos found ->
    earliest (done ++ sigs) buffer pos (next_frame sigs buffer pos found).
Proof.
  intros Hp. induction sigs as [|[sig ft] sigs IH]; intros done found Inv.
  - rewrite app_nil_r. exact Inv.
  - cbn [next_frame]. cbv zeta.
    replace (done ++ (sig, ft) :: sigs) with ((done ++ [(sig, ft)]) ++ sigs)
      by (rewrite <- app_assoc; reflexivity).
    apply IH.
    destruct (Z.eqb_spec (bytes_find sig buffer pos) (-1)) as [A|A].
    + pose proof (bytes_find_absent sig buffer pos Hp A) as Ab.
      destruct found as [[p ftp]|]; cbn [earliest] in *.
      * destruct Inv as (R & (s & I & O) & N). split; [exact R|split].
        -- exists s. split; [apply in_or_app; now left|exact O].
        -- apply none_occurs_app; [exact N|]. intros q Hq. apply Ab. lia.
      * apply none_occurs_app; [exact Inv|]. intros q Hq. apply Ab. lia.
    + destruct (bytes_find_found sig buffer pos Hp A) as (R & O & B).
      assert (New : earliest (done ++ [(sig, ft)]) buffer pos
                      (Some (bytes_find sig buffer pos, ft)) <->
                    none_occurs done buffer pos (bytes_find sig buffer pos)).
      { cbn [earliest]. split.
        - intros (_ & _ & N) s f q I Hq. apply (N s f); [|exact Hq].
          apply in_or_app. now left.
        - intros N. split; [exact R|split].
          + exists sig. split; [apply in_or_app; right; now left|exact O].
          + apply none_occurs_app; [exact N|exact B]. }
      destruct found as [[p ftp]|].
      * cbn [earliest] in Inv. destruct Inv as (Rp & (s & I & Op) & N).
        destruct (Z.ltb_spec (bytes_find sig buffer pos) p) as [L|L].
        -- apply New. eapply none_occurs_less; [|exact N]. lia.
        -- cbn [earliest]. split; [exact Rp|split].
           ++ exists s. split; [apply in_or_app; now left|exact Op].
           ++ apply none_occurs_app; [exact N|]. intros q Hq. apply B. lia.
      * apply New. cbn [earliest] in Inv.
        eapply none_occurs_less; [|exact Inv]. lia.
Qed.

(** The match that the raw scanner tries next is the lowest index at or
    after [pos] where one of the four signatures occurs, and its family is
    that of a signature that occurs there; the scanner stops only when no
    signature occurs at or after [pos]. *)
Theorem raw_search_earliest (buffer : bytes) (pos : Z) :
  0 <= pos ->
  earliest all_signatures buffer pos (next_frame all_signatures buffer pos None).
Proof.
  intros Hp.
  apply (next_frame_earliest buffer pos all_signatures Hp [] None).
  intros sig ft q [].
Qed.

(** In [47 00 00 00 01 65] the four-byte start code occurs at 1 and the
    three-byte one at 2: the search from 0 answers 1. *)
Lemma raw_search_earliest_witness :
  earliest all_signatures [x47; x00; x00; x00; x01; x65] 0
    (next_frame all_signatures [x47; x00; x00; x00; x01; x65] 0 None).
Proof. apply (raw_search_earliest [x47; x00; x00; x00; x01; x65] 0). lia. Defined.

(** ** The embedded-image scanner without its markers *)

Lemma jpeg_loop_no_marker (E : env) (buffer : bytes) (frame_offset : Z) :
  (blen buffer <=? 1000) || negb (contains jpeg_start buffer)
  || negb (contains jpeg_end buffer) = true ->
  forall fuel pos c w,
    0 <= pos ->
    jpeg_loop E fuel buffer frame_offset pos c w = None \/
    jpeg_loop E fuel buffer frame_offset pos c w = Some (c, w).
Proof.
  intros H. induction fuel as [|fuel IH]; intros pos c w Hp; [now left|].
  cbn [jpeg_loop]. cbv zeta.
  destruct ((pos <? blen buffer - 1000) && (c <? 5)) eqn:G; [|now right].
  apply andb_true_iff in G as [G _]. apply Z.ltb_lt in G.
  destruct (Z.eqb_spec (bytes_find jpeg_start buffer pos) (-1)) as [S0|S0];
    [now right|].
  destruct (bytes_find_range jpeg_start buffer pos Hp) as [R|R]; [congruence|].
  destruct (Z.eqb_spec (bytes_find jpeg_end buffer
                          (bytes_find jpeg_start buffer pos + 2)) (-1)) as [E0|E0];
    [apply IH; lia|].
  exfalso. apply orb_true_iff in H as [H|H]; [apply orb_true_iff in H as [H|H]|].
  - apply Z.leb_le in H. lia.
  - apply negb_true_iff in H. apply S0. now apply bytes_find_absent_from.
  - apply negb_true_iff in H. apply E0. apply bytes_find_absent_from; [lia|exact H].
Qed.

(** A buffer of at most 1000 bytes, or without a start marker, or without
    an end marker, gives the embedded-image scanner nothing: it answers 0,
    writes no file and asks the decoder nothing; all it does is log that it
    looks for images. *)
Theorem jpeg_scanner_needs_markers (E : env) (buffer : bytes) (frame_offset : Z)
    (w : world) :
  (blen buffer <=? 1000) || negb (contains jpeg_start buffer)
  || negb (contains jpeg_end buffer) = true ->
  _extract_jpeg_from_buffer E buffer frame_offset w = (0, log LogJpegScan w).
Proof.
  intros H. unfold _extract_jpeg_from_buffer.
  destruct (jpeg_loop_no_marker E buffer frame_offset H (jpeg_fuel buffer) 0 0
              (log LogJpegScan w)) as [-> | ->]; [lia|reflexivity..].
Qed.

(** A start marker and 2000 bytes without an end marker. *)
Lemma jpeg_scanner_needs_markers_witness :
  _extract_jpeg_from_buffer images_only ([xff; xd8] ++ padding 2000) 0 (start [])
  = (0, log LogJpegScan (start [])).
Proof.
  apply (jpeg_scanner_needs_markers images_only ([xff; xd8] ++ padding 2000) 0
           (start [])).
  vm_compute. reflexivity.
Defined.

(** ** What the embedded-image scanner writes *)

Lemma fs_remove_in (p : path) (d : list (path * content)) (x : path * content) :
  In x (fs_remove p d) -> In x d.
Proof. unfold fs_remove. intros H. now apply filter_In in H. Qed.

Lemma save_jpeg_files (E : env) (jpeg_data : bytes) (frame_offset c : Z) (w : world)
    (x : path * content) :
  In x (fs (snd (save_jpeg E jpeg_data frame_offset c w))) ->
  In x (fs w) \/ snd x = Raw jpeg_data.
Proof.
  unfold save_jpeg, now. cbv zeta beta iota.
  destruct (cv_imread E _ _ jpeg_data); cbn [snd fs log tick fs_write fs_unlink];
    try destruct (fs_exists _ _); cbn [snd fs log tick fs_write fs_unlink];
    intros H; repeat (apply fs_remove_in in H);
    try (destruct H as [<-|H]; [now right|]); repeat (apply fs_remove_in in H);
    now left.
Qed.

Lemma jpeg_loop_files (E : env) (buffer : bytes) (frame_offset : Z) (fuel : nat) :
  forall pos c w r,
    0 <= pos ->
    jpeg_loop E fuel buffer frame_offset pos c w = Some r ->
    forall x, In x (fs (snd r)) -> In x (fs w) \/ jpeg_file buffer (snd x).
Proof.
  induction fuel as [|fuel IH]; intros pos c w r Hp H x I; [discriminate|].
  cbn [jpeg_loop] in H. cbv zeta in H.
  destruct ((pos <? blen buffer - 1000) && (c <? 5));
    [|injection H as <-; now left].
  destruct (Z.eqb_spec (bytes_find jpeg_start buffer pos) (-1)) as [S0|S0];
    [injection H as <-; now left|].
  destruct (bytes_find_found jpeg_start buffer pos Hp S0) as (Rs & Os & _).
  set (s := bytes_find jpeg_start buffer pos) in *.
  destruct (Z.eqb_spec (bytes_find jpeg_end buffer (s + 2)) (-1)) as [E0|E0].
  { apply (IH (s + 2) c w r); [lia|exact H|exact I]. }
  destruct (bytes_find_found jpeg_end buffer (s + 2) ltac:(lia) E0) as (Re & Oe & Be).
  set (e := bytes_find jpeg_end buffer (s + 2)) in *.
  pose proof (save_jpeg_files E (slice buffer s (e + 2)) frame_offset c w x) as Sv.
  destruct (save_jpeg E (slice buffer s (e + 2)) frame_offset c w) as [c1 w1].
  cbn [snd] in Sv.
  destruct (IH (e + 2) c1 w1 r ltac:(lia) H x I) as [I1|J]; [|now right].
  destruct (Sv I1) as [I0|Eq]; [now left|right].
  exists s, e. repeat split; try lia; assumption.
Qed.

(** Every file that the directory holds after the embedded-image scanner
    and did not hold before holds the bytes of the buffer from a start
    marker through the first end marker that follows it, as they are in the
    buffer. *)
Theorem jpeg_scanner_saves_slices (E : env) (buffer : bytes) (frame_offset : Z)
    (w : world) :
  let r := _extract_jpeg_from_buffer E buffer frame_offset w in
  Forall (fun x => In x (fs w) \/ jpeg_file buffer (snd x)) (fs (snd r)).
Proof.
  unfold _extract_jpeg_from_buffer. cbv zeta. apply Forall_forall.
  destruct (jpeg_loop E (jpeg_fuel buffer) buffer frame_offset 0 0
              (log LogJpegScan w)) as [r|] eqn:L; intros x I; [|now left].
  apply (jpeg_loop_files E buffer frame_offset _ 0 0 _ r ltac:(lia) L x) in I.
  destruct I as [I|I]; [now left|now right].
Qed.

(** ** The raw codec-unit scanner *)

(** For every buffer, one invocation of the raw scanner answers a count
    between 0 and 3; its loop ends within as many iterations as the buffer
    has bytes, plus one; it logs exactly that many saved frames, numbered
    after [frame_offset]; the directory gains at most that many frame files
    and no scratch file. *)
Theorem raw_scanner_capped (E : env) (buffer : bytes) (frame_offset : Z) (w : world) :
  let r := _extract_raw_video_frames E buffer frame_offset w in
  0 <= fst r <= 3 /\
  raw_loop E (S (length buffer)) buffer frame_offset 0 0 (log LogRawScan w) = Some r /\
  saved (trace (snd r)) = down frame_offset (Z.to_nat (fst r)) ++ saved (trace w) /\
  (length (frame_files (fs (snd r)))
   <= length (frame_files (fs w)) + Z.to_nat (fst r))%nat /\
  incl (scratch_files (fs (snd r))) (scratch_files (fs w)).
Proof.
  intros r.
  destruct (_extract_raw_video_frames E buffer frame_offset w) as [n w'] eqn:X.
  pose proof (_extract_raw_video_frames_adds E _ _ _ _ _ X) as (N1 & N2 & [Sv Sc Ln]).
  subst r. cbn [fst snd]. repeat split; try lia; try assumption.
  unfold _extract_raw_video_frames, raw_fuel in X.
  destruct (raw_loop_total E buffer frame_offset (S (length buffer)) 0 0
              (log LogRawScan w)) as [r T]; [lia|unfold blen; lia|].
  rewrite T in *. congruence.
Qed.

(** The raw scanner opens the decoder once for every candidate it logs,
    saves at most one frame per candidate, and logs at most one candidate
    per 1000 bytes of the buffer past its first 9001: a buffer of at most
    10000 bytes is never given to the decoder. *)
Theorem raw_scanner_attempts (E : env) (buffer : bytes) (frame_offset : Z)
    (w : world) :
  let r := _extract_raw_video_frames E buffer frame_offset w in
  let attempts := logged is_raw_candidate w (snd r) in
  logged is_capture_open w (snd r) = attempts /\
  fst r <= attempts /\
  0 <= attempts /\
  1000 * attempts <= Z.max 0 (blen buffer - 9001).
Proof.
  pose proof (_extract_raw_video_frames_steps E buffer frame_offset w) as (_ & B1 & B2).
  pose proof (_extract_raw_video_frames_attempts E buffer frame_offset w) as (A1 & A2).
  cbv zeta in *. auto.
Qed.

(** ** One invocation of the cascade *)

(** The frames that one invocation of the cascade reports were all saved by
    one strategy.  Every invocation starts the container strategy once; it
    runs the embedded-image scanner exactly when the container strategy
    saved nothing, and the raw scanner exactly when both saved nothing. *)
Theorem cascade_single_strategy (E : env) (buffer : bytes) (frame_offset : Z)
    (w : world) :
  let r := _extract_frames_from_stream_buffer E buffer frame_offset w in
  let n := fst r in
  let nf := logged is_saved_frame w (snd r) in
  let nj := logged is_saved_jpeg w (snd r) in
  let nr := logged is_saved_raw w (snd r) in
  0 <= n /\
  (nf = n /\ nj = 0 /\ nr = 0 \/ nf = 0 /\ nj = n /\ nr = 0
   \/ nf = 0 /\ nj = 0 /\ nr = n) /\
  logged is_cascade_start w (snd r) = 1 /\
  logged is_jpeg_scan w (snd r) = (if nf =? 0 then 1 else 0) /\
  logged is_raw_scan w (snd r) = (if (nf =? 0) && (nj =? 0) then 1 else 0).
Proof.
  pose proof (cascade_counts E buffer frame_offset w) as C. cbv zeta in *. tauto.
Qed.

(** ** Whole sessions *)

(** The summary of a session counts the chunks that the session read, which
    are the first answers of the payload, each a chunk that is not empty,
    and the bytes of these chunks. *)
Theorem summary_counts_chunks_read (E : env) (cfg : config)
    (stream_name session_dir : string) (stream_payload : list read_result)
    (w : world) :
  let r := _process_live_stream_data E cfg stream_name session_dir
             stream_payload w in
  exists k : nat,
    (k <= length (readable stream_payload))%nat /\
    json_get "total_chunks_processed" (summary_of (snd r))
    = Some (JNum (Z.of_nat k)) /\
    json_get "total_bytes_read" (summary_of (snd r))
    = Some (JNum (total_len (firstn k (readable stream_payload)))).
Proof.
  destruct (session_steps E cfg stream_name session_dir stream_payload w)
    as (_ & k & K1 & K2 & K3 & _).
  exists k. auto.
Qed.

(** A session runs the cascade at most once per three chunks it read, and
    once more at its end. *)
Theorem cascade_every_third_chunk (E : env) (cfg : config)
    (stream_name session_dir : string) (stream_payload : list read_result)
    (w : world) :
  let r := _process_live_stream_data E cfg stream_name session_dir
             stream_payload w in
  exists chunks : Z,
    json_get "total_chunks_processed" (summary_of (snd r)) = Some (JNum chunks) /\
    0 <= chunks <= Z.of_nat (length stream_payload) /\
    logged is_cascade_start w (snd r) <= chunks / 3 + 1.
Proof.
  destruct (session_steps E cfg stream_name session_dir stream_payload w)
    as (_ & k & K1 & K2 & _ & K4).
  exists (Z.of_nat k). pose proof (readable_length stream_payload).
  repeat split; try assumption; lia.
Qed.

(** When every read answers at most 65536 bytes, the buffer that the
    reading loop keeps never ends above 631072 bytes, however long the
    stream is. *)
Theorem stream_buffer_bounded (E : env) (cfg : config) (process_start_time : Z)
    (stream_payload : list read_result) (w : world) :
  forallb within_read_size stream_payload = true ->
  blen (stream_buffer (fst (read_loop E cfg stream_payload process_start_time
                              (LoopState 0 0 0 0 []) w))) <= 631072.
Proof.
  intros Sz.
  pose proof (read_loop_buffer E cfg process_start_time stream_payload Sz
                (LoopState 0 0 0 0 []) w) as B.
  cbv zeta in B. unfold read_size in B.
  match type of B with ?P -> _ => assert (B0 : P) by (vm_compute; discriminate) end.
  specialize (B B0). Z.to_euclidean_division_equations; lia.
Qed.

Lemma stream_buffer_bounded_witness :
  blen (stream_buffer (fst (read_loop images_only (Config 5 1)
                              [Chunk small_jpeg; Chunk small_jpeg] 0
                              (LoopState 0 0 0 0 []) (start [])))) <= 631072.
Proof.
  apply (stream_buffer_bounded images_only (Config 5 1) 0
           [Chunk small_jpeg; Chunk small_jpeg] (start [])).
  vm_compute. reflexivity.
Defined.

(** A session leaves the files of other names of its directory as they
    were, and gives the decoder scratch files only. *)
Theorem session_footprint (E : env) (cfg : config)
    (stream_name session_dir : string) (stream_payload : list read_result)
    (others : list (string * content)) :
  let r := _process_live_stream_data E cfg stream_name session_dir
             stream_payload (start others) in
  (forall name, fs_lookup (Other name) (fs (snd r))
                = fs_lookup (Other name) (fs (start others))) /\
  forallb decodes_scratch (trace (snd r)) = true.
Proof.
  destruct (session_steps E cfg stream_name session_dir stream_payload
              (start others)) as ([(new & T & A) F _] & _).
  split; [exact F|]. cbn [start trace] in T.
  rewrite app_nil_r in T. rewrite T.
  apply forallb_forall. intros e I.
  pose proof (proj1 (forallb_forall session_event new) A _ I) as X.
  destruct e as [|p| | | | | | | | | | | | | | | | | | | |]; try reflexivity.
  destruct p; [reflexivity|reflexivity|discriminate X..].
Qed.

(** A session whose frame limit is not positive reads nothing, whatever the
    stream holds: it answers [False], saves no frame, and its summary counts
    0 frames, 0 chunks and 0 bytes. *)
Theorem session_without_target (E : env) (cfg : config)
    (stream_name session_dir : string) (stream_payload : list read_result)
    (others : list (string * content)) :
  max_frames cfg <= 0 ->
  nothing_saved (_process_live_stream_data E cfg stream_name session_dir
                   stream_payload (start others)).
Proof.
  intros H. pose proof (start_inv others) as [_ _ F _ T]. simpl in F, T.
  assert (F' : frame_files (fs_remove SummaryJson (fs (start others))) = [])
    by now rewrite frame_files_remove_other.
  assert (T' : scratch_files (fs_remove SummaryJson (fs (start others))) = [])
    by now rewrite scratch_files_remove_other.
  unfold _process_live_stream_data, nothing_saved, persisted.
  assert (R : forall t w, read_loop E cfg stream_payload t (LoopState 0 0 0 0 []) w
                          = (LoopState 0 0 0 0 [], w)).
  { intros t w. destruct stream_payload; cbn [read_loop frames_extracted];
      (replace (0 <? max_frames cfg) with false
        by (symmetry; apply Z.ltb_ge; lia)); reflexivity. }
  unfold now. cbv zeta beta iota. rewrite R.
  unfold final_attempt. cbn [stream_buffer frames_extracted blen length].
  cbn -[start fs_remove]. rewrite ?F', ?T'. repeat split; reflexivity.
Qed.

Lemma session_without_target_witness :
  nothing_saved (_process_live_stream_data images_only (Config 0 1)
                   "camera" "session" [Chunk small_jpeg] (start [])).
Proof.
  apply (session_without_target images_only (Config 0 1) "camera" "session"
           [Chunk small_jpeg] []).
  simpl. lia.
Defined.

(** * The stride of the raw codec-unit scanner, over a whole scan (C6) *)

Lemma blen_slice (b : bytes) (lo hi : Z) :
  0 <= lo <= hi -> hi <= blen b -> blen (slice b lo hi) = hi - lo.
Proof.
  intros H1 H2. unfold slice, blen in *. rewrite length_firstn, length_skipn. lia.
Qed.

Lemma blen_candidate_window (buffer : bytes) (p : Z) :
  0 <= p <= blen buffer ->
  blen (candidate_window buffer p) = Z.min 51200 (blen buffer - p).
Proof.
  intros H. unfold candidate_window. rewrite blen_slice; lia.
Qed.

Lemma candidates_app (a b : list event) :
  candidates (a ++ b) = candidates a ++ candidates b.
Proof.
  induction a as [|e a IH]; [reflexivity|].
  destruct e; cbn [app candidates]; rewrite ?IH; reflexivity.
Qed.

(** A decode attempt logs no candidate. *)
Lemma _try_decode_raw_frame_candidates (E : env) (frame_data : bytes)
    (frame_index : Z) (ft : frame_type) (w : world) :
  candidates (trace (snd (_try_decode_raw_frame E frame_data frame_index ft w)))
  = candidates (trace w).
Proof.
  destruct (_try_decode_raw_frame E frame_data frame_index ft w)
    as [success w'] eqn:D.
  apply _try_decode_raw_frame_steps in D. destruct D as [(new & T & A) _ _].
  cbn [snd]. rewrite T, candidates_app.
  assert (N : candidates new = []); [|now rewrite N].
  clear T. induction new as [|e new IH]; [reflexivity|].
  cbn [forallb] in A. apply andb_prop in A as [Ae A].
  destruct e; try discriminate Ae; cbn [candidates]; now apply IH.
Qed.

(** A candidate is at or after the position of the scan, and in the buffer. *)
Lemma raw_search_bounds (buffer : bytes) (pos : Z) :
  0 <= pos ->
  match next_frame all_signatures buffer pos None with
  | Some (p, _) => pos <= p <= blen buffer
  | None => True
  end.
Proof.
  intros Hp.
  pose proof (next_frame_earliest buffer pos all_signatures Hp [] None) as B.
  cbn [app] in B.
  destruct (next_frame all_signatures buffer pos None) as [[p ft]|]; [|exact I].
  apply B. intros sig ft0 q [].
Qed.

(** The candidate at the head of a scan. *)
Lemma scan_from_head (fuel : nat) (buffer : bytes) (pos : Z) (ft : frame_type)
    (q : Z) (l : list (frame_type * Z)) :
  0 <= pos ->
  scan_from fuel buffer pos = (ft, q) :: l ->
  pos < blen buffer - 10000 /\ pos <= q <= blen buffer.
Proof.
  intros Hp H. destruct fuel as [|fuel]; [discriminate|]. cbn [scan_from] in H.
  destruct (Z.ltb_spec pos (blen buffer - 10000)) as [G|G]; [|discriminate].
  destruct (next_frame all_signatures buffer pos None) as [[p ft1]|] eqn:N;
    [|discriminate].
  injection H as <- <- <-. split; [exact G|].
  pose proof (raw_search_bounds buffer pos Hp) as B. rewrite N in B. exact B.
Qed.

(** The fuel of the scan is enough: the list is the whole scan. *)
Lemma scan_from_whole (buffer : bytes) (fuel : nat) :
  forall pos,
    0 <= pos -> (Z.to_nat (blen buffer - pos) < fuel)%nat ->
    scan_of buffer pos (scan_from fuel buffer pos).
Proof.
  induction fuel as [|fuel IH]; intros pos Hp Hf; [lia|]. cbn [scan_from].
  destruct (Z.ltb_spec pos (blen buffer - 10000)) as [G|G];
    [|cbn [scan_of]; now left].
  pose proof (raw_search_bounds buffer pos Hp) as B.
  destruct (next_frame all_signatures buffer pos None) as [[p ft]|] eqn:N;
    [|cbn [scan_of]; now right].
  cbn [scan_of]. split; [exact G|split; [exact N|]]. apply IH; lia.
Qed.

Lemma scan_from_resumed (buffer : bytes) (fuel : nat) :
  forall pos, 0 <= pos -> resumed_inside buffer (scan_from fuel buffer pos).
Proof.
  induction fuel as [|fuel IH]; intros pos Hp; [exact I|]. cbn [scan_from].
  destruct (Z.ltb_spec pos (blen buffer - 10000)) as [G|G]; [|exact I].
  pose proof (raw_search_bounds buffer pos Hp) as B.
  destruct (next_frame all_signatures buffer pos None) as [[p ft]|] eqn:N;
    [|exact I].
  cbn [resumed_inside]. split; [|apply IH; lia].
  destruct (scan_from fuel buffer (p + 1000)) as [|[ft' q] l] eqn:L; [exact I|].
  apply scan_from_head in L; [|lia]. rewrite blen_candidate_window by lia. lia.
Qed.

(** The candidates that the loop tries are the first of the scan, whatever
    the decoder answers; the loop tries them all unless it has three frames. *)
Lemma raw_loop_candidates (E : env) (buffer : bytes) (frame_offset : Z)
    (fuel : nat) :
  forall pos c w c' w',
    0 <= pos ->
    raw_loop E fuel buffer frame_offset pos c w = Some (c', w') ->
    exists k : nat,
      candidates (trace w')
      = rev (firstn k (scan_from fuel buffer pos)) ++ candidates (trace w) /\
      (k <= length (scan_from fuel buffer pos))%nat /\
      (3 <= c' \/ k = length (scan_from fuel buffer pos)).
Proof.
  induction fuel as [|fuel IH]; intros pos c w c' w' Hp H; [discriminate|].
  cbn [raw_loop scan_from] in *.
  destruct (Z.ltb_spec pos (blen buffer - 10000)) as [G|G]; cbn [andb] in H.
  2:{ injection H as <- <-. exists 0%nat. cbn [firstn rev app length].
      split; [reflexivity|split; [lia|now right]]. }
  destruct (Z.ltb_spec c 3) as [C|C].
  2:{ injection H as <- <-. exists 0%nat. cbn [firstn rev app].
      split; [reflexivity|split; [lia|now left]]. }
  unfold raw_step in H.
  pose proof (raw_search_bounds buffer pos Hp) as B.
  destruct (next_frame all_signatures buffer pos None) as [[p ft]|] eqn:N.
  2:{ injection H as <- <-. exists 0%nat. cbn [firstn rev app length].
      split; [reflexivity|split; [lia|now right]]. }
  cbv zeta in H.
  pose proof (_try_decode_raw_frame_candidates E
                (slice buffer p (Z.min (p + 51200) (blen buffer)))
                (frame_offset + c) ft (log (LogRawCandidate ft p) w)) as D.
  destruct (_try_decode_raw_frame E _ (frame_offset + c) ft
              (log (LogRawCandidate ft p) w)) as [success w1].
  cbn [snd trace log candidates] in D.
  apply IH in H; [|lia]. destruct H as (k & K1 & K2 & K3).
  exists (S k). cbn [firstn rev length]. rewrite K1, D, <- app_assoc.
  repeat split; [lia|]. destruct K3 as [K3|K3]; [now left|right; lia].
Qed.

(** On [late_unit_buffer] the only candidate is at 10500, its window has
    one byte, and the scan position it leaves, 11500, is past the window
    and past the buffer: the loop ends. *)
Example raw_stride_past_buffer :
  raw_candidates late_unit_buffer = [(vp, 10500)] /\
  blen (candidate_window late_unit_buffer 10500) = 1 /\
  step_pos (raw_step raw_units_only late_unit_buffer 0 0 0 (start [])) = 11500 /\
  step_pos (raw_step decodes_nothing late_unit_buffer 0 0 0 (start [])) = 11500 /\
  blen late_unit_buffer = 10501.
Proof.
  cbv zeta.
  repeat (refine (conj _ _); [vm_compute; reflexivity|]).
  vm_compute. reflexivity.
Qed.

(** On [five_units_buffer] a decoder that accepts every unit and a decoder
    that accepts none are given the same candidates in the same order; the
    first stops after three frames, the second tries the five of the scan. *)
Example raw_stride_same_candidates :
  let ok := _extract_raw_video_frames raw_units_only five_units_buffer 0 (start []) in
  let ko := _extract_raw_video_frames decodes_nothing five_units_buffer 0 (start []) in
  raw_candidates five_units_buffer
  = [(h264, 0); (h264, 1503); (h264, 3006); (h264, 4509); (h264, 6012)] /\
  fst ok = 3 /\
  rev (candidates (trace (snd ok))) = firstn 3 (raw_candidates five_units_buffer) /\
  fst ko = 0 /\
  rev (candidates (trace (snd ko))) = raw_candidates five_units_buffer.
Proof.
  cbv zeta.
  repeat (refine (conj _ _); [vm_compute; reflexivity|]).
  vm_compute. reflexivity.
Qed.

(** C6, amended: the advance of the raw scanner does not depend on the
    decode.  Whatever the decoder answers, the candidates that one
    invocation tries are the first [k] of the scan of the buffer, in its
    order, and all of them unless the invocation answers three frames.  In
    the scan of the buffer, the first candidate is what the search answers
    from 0, every later one is what it answers from a thousand bytes after
    the candidate before, and the scan ends where the guard of the loop
    fails or the search answers nothing.  Where a candidate is followed by
    another one, the search for that one started a thousand bytes after it,
    strictly inside the window that was tried at it, not past this
    window. *)
Theorem raw_stride_fixed (E : env) (buffer : bytes) (frame_offset : Z) (w : world) :
  let r := _extract_raw_video_frames E buffer frame_offset w in
  let scan := raw_candidates buffer in
  scan_of buffer 0 scan /\
  resumed_inside buffer scan /\
  exists k : nat,
    candidates (trace (snd r)) = rev (firstn k scan) ++ candidates (trace w) /\
    (k <= length scan)%nat /\
    (fst r = 3 \/ k = length scan).
Proof.
  cbv zeta. unfold raw_candidates, raw_fuel. split; [|split].
  - apply scan_from_whole; [lia|unfold blen; lia].
  - apply scan_from_resumed. lia.
  - unfold _extract_raw_video_frames, raw_fuel.
    destruct (raw_loop_total E buffer frame_offset (S (length buffer)) 0 0
                (log LogRawScan w)) as [[n w'] T]; [lia|unfold blen; lia|].
    rewrite T. cbn [fst snd].
    pose proof (raw_loop_adds E buffer frame_offset _ 0 0 _ n w' ltac:(lia) T)
      as (_ & N3 & _).
    apply raw_loop_candidates in T; [|lia].
    destruct T as (k & K1 & K2 & K3). exists k.
    cbn [trace log candidates] in K1.
    repeat split; [exact K1|exact K2|]. destruct K3 as [K3|K3]; [left; lia|now right].
Qed.
